(** * argocd-operator: reconciliation and deletion cascade of ClusterArgoCD

  A shallow embedding of the Go sources of the operator and the
  properties of its specification, stated over that embedding.

  - [Util]       : pkg/component/util.go ([appendUniqueArgs],
                   [addKubernetesData]).
  - [Deployments]: pkg/component/util.go
                   ([identifyDeploymentDifference]).
  - [Redis]      : controllers/shared/redis.go (the update decision of
                   [ReconcileRedisDeployment]).
  - [RedisSteps] : the same update decision, one step at a time.
  - [RedisHA]    : controllers/shared/redis.go (the update decision of
                   [ReconcileRedisStatefulSet]).
  - [Cluster]    : controllers/clusterargocd (source namespaces,
                   cluster RBAC, finalizer, [internalReconcile]).
  - [ClusterStore]: the objects a pass of [reconcileResources] wants in
                   the store, and what it means for a run to settle.

  Go maps are [gmap]s, Go slices are lists, a Go [error] result is an
  [option] whose [None] is [nil]. *)

From Stdlib Require Import String Ascii.
From stdpp Require Import base gmap strings list fin_maps.

Open Scope string_scope.
Open Scope list_scope.

(** ** Go's built-in conventions *)

Module Go.

(** [strings.HasPrefix(s, prefix)]. *)
Definition HasPrefix (s prefix : string) : bool := String.prefix prefix s.

(** [m[k]] on a [map[string]string]: the zero value when [k] is absent. *)
Definition index (m : gmap string string) (k : string) : string :=
  default "" (m !! k).

(** [strings.Contains(s, substr)]. *)
Fixpoint Contains (s substr : string) : bool :=
  String.prefix substr s
  || match s with
     | EmptyString => false
     | String _ s' => Contains s' substr
     end.

End Go.

(** ** github.com/argoproj/argo-cd/v2/util/glob

  The library is a dependency, not part of the repository. The three
  patterns the operator passes to it are made of literal characters and
  the wildcard [*] only; on such patterns the compiled glob (no
  separators) lets [*] stand for any run of characters and every other
  character for itself. *)

Module glob.

Fixpoint matchChars (pattern text : list ascii) : bool :=
  match pattern with
  | [] => match text with [] => true | _ => false end
  | c :: pattern' =>
      if Ascii.eqb c "*"%char then
        (fix star (t : list ascii) : bool :=
           matchChars pattern' t
           || match t with [] => false | _ :: t' => star t' end) text
      else
        match text with
        | [] => false
        | d :: text' => Ascii.eqb c d && matchChars pattern' text'
        end
  end.

(** [glob.Match(pattern, text)]. *)
Definition Match (pattern text : string) : bool :=
  matchChars (list_ascii_of_string pattern) (list_ascii_of_string text).

(** [glob.MatchStringInList(list, item, glob.GLOB)]: an entry matches
    when it equals the item or when it matches it as a glob. *)
Definition MatchStringInList (l : list string) (item : string) : bool :=
  existsb (fun ll => String.eqb item ll || Match ll item) l.

End glob.

(** ** pkg/component/util.go *)

Module Util.

(** The [patterns] literal of [addKubernetesData]. *)
Definition patterns : list string :=
  ["*kubernetes.io*"; "*k8s.io*"; "*openshift.io*"].

(** Body of the [for key, value := range live] loop. *)
Definition addKubernetesDataStep (key value : string)
    (source : gmap string string) : gmap string string :=
  let found := glob.MatchStringInList patterns key in
  if found then
    match source !! key with
    | Some _ => source
    | None => <[key := value]> source
    end
  else source.

(** [addKubernetesData(source, live)] updates [source] in place; the
    embedding returns the updated map. *)
Definition addKubernetesData (source live : gmap string string)
    : gmap string string :=
  map_fold addKubernetesDataStep source live.

(** *** The keys of [addKubernetesData] in the words of the specification *)

(** The platform domains the patterns are built around. *)
Definition reserved : list string :=
  ["kubernetes.io"; "k8s.io"; "openshift.io"].

(** The key holds one of the reserved domains, at its start or anywhere
    after it. *)
Definition containsReserved (key : string) : bool :=
  existsb (Go.Contains key) reserved.

(** The key starts with one of the reserved domains. *)
Definition startsWithReserved (key : string) : bool :=
  existsb (Go.HasPrefix key) reserved.

(** The prefix of a label or annotation key: the text before its first
    slash. *)
Fixpoint labelPrefix (key : string) : string :=
  match key with
  | EmptyString => EmptyString
  | String c rest =>
      if Ascii.eqb c "/" then EmptyString else String c (labelPrefix rest)
  end.

(** *** appendUniqueArgs *)

(** The four locals of [appendUniqueArgs]. [repeated] is a
    [map[string]map[string]bool] whose inner maps only ever hold [true],
    and so is [nonRepeatableFlags]: both are kept as sets. *)
Record argState : Type := ArgState {
  existing : gmap string string;
  repeated : gmap string (gset string);
  nonRepeatableFlags : gset string;
  result : list string
}.

Definition initArgState : argState :=
  ArgState ∅ ∅ ∅ [].

(** The closure [add]: the flag, then its value unless it is empty. *)
Definition add (flag val : string) (result : list string) : list string :=
  result ++ [flag] ++ (if String.eqb val "" then [] else [val]).

(** [repeated[arg][val] = true], creating the inner map when it is nil. *)
Definition markRepeated (arg val : string)
    (repeated : gmap string (gset string)) : gmap string (gset string) :=
  <[arg := {[val]} ∪ default ∅ (repeated !! arg)]> repeated.

(** [repeated[arg] != nil && repeated[arg][val]]. *)
Definition isRepeated (arg val : string)
    (repeated : gmap string (gset string)) : bool :=
  match repeated !! arg with
  | Some vals => bool_decide (val ∈ vals)
  | None => false
  end.

(** The inner [for j] loop: drop every occurrence of [arg] from
    [result], together with the element after it when that element does
    not start with two dashes ([skipNext]). *)
Fixpoint removeFlag (arg : string) (result : list string) : list string :=
  match result with
  | [] => []
  | x :: rest =>
      if String.eqb x arg then
        match rest with
        | y :: rest' =>
            if negb (Go.HasPrefix y "--") then removeFlag arg rest'
            else removeFlag arg rest
        | [] => []
        end
      else x :: removeFlag arg rest
  end.

(** One flag of [cmd], with the value the loop read for it. *)
Definition cmdFlag (arg val : string) (st : argState) : argState :=
  ArgState (<[arg := val]> (existing st))
           (markRepeated arg val (repeated st))
           ({[arg]} ∪ nonRepeatableFlags st)
           (add arg val (result st)).

(** An element that is not a flag is appended as it is (both loops). *)
Definition plainArg (arg : string) (st : argState) : argState :=
  ArgState (existing st) (repeated st) (nonRepeatableFlags st)
           (result st ++ [arg]).

(** First loop, [for i := 0; i < len(cmd); i++]. The value of a flag is
    the next element when there is one and it does not start with two
    dashes; the loop then steps over it. *)
Fixpoint cmdLoop (cmd : list string) (st : argState) : argState :=
  match cmd with
  | [] => st
  | arg :: rest =>
      if Go.HasPrefix arg "--" then
        match rest with
        | nxt :: rest' =>
            if negb (Go.HasPrefix nxt "--")
            then cmdLoop rest' (cmdFlag arg nxt st)
            else cmdLoop rest (cmdFlag arg "" st)
        | [] => cmdFlag arg "" st
        end
      else cmdLoop rest (plainArg arg st)
  end.

(** One flag of [extraArgs], with the value the loop read for it. *)
Definition extraFlag (arg val : string) (st : argState) : argState :=
  if isRepeated arg val (repeated st) then st
  else if bool_decide (arg ∈ nonRepeatableFlags st) then
    ArgState (<[arg := val]> (existing st))
             (<[arg := {[val]}]> (repeated st))
             (nonRepeatableFlags st)
             (add arg val (removeFlag arg (result st)))
  else
    ArgState (existing st)
             (markRepeated arg val (repeated st))
             (nonRepeatableFlags st)
             (add arg val (result st)).

(** Second loop, [for i := 0; i < len(extraArgs); i++]. *)
Fixpoint extraLoop (extraArgs : list string) (st : argState) : argState :=
  match extraArgs with
  | [] => st
  | arg :: rest =>
      if Go.HasPrefix arg "--" then
        match rest with
        | nxt :: rest' =>
            if negb (Go.HasPrefix nxt "--")
            then extraLoop rest' (extraFlag arg nxt st)
            else extraLoop rest (extraFlag arg "" st)
        | [] => extraFlag arg "" st
        end
      else extraLoop rest (plainArg arg st)
  end.

Definition appendUniqueArgs (cmd extraArgs : list string) : list string :=
  result (extraLoop extraArgs (cmdLoop cmd initArgState)).

(** *** Reading an argument list the way the two loops read it *)

Inductive token : Type :=
| Flag (flag val : string)
| Plain (arg : string).

Fixpoint tokens (l : list string) : list token :=
  match l with
  | [] => []
  | arg :: rest =>
      if Go.HasPrefix arg "--" then
        match rest with
        | nxt :: rest' =>
            if negb (Go.HasPrefix nxt "--")
            then Flag arg nxt :: tokens rest'
            else Flag arg "" :: tokens rest
        | [] => [Flag arg ""]
        end
      else Plain arg :: tokens rest
  end.

Definition flagOf (t : token) : option string :=
  match t with
  | Flag f _ => Some f
  | Plain _ => None
  end.


(** The flags of a list, in order, one entry per occurrence. *)
Definition flagsOf (l : list string) : list string :=
  omap flagOf (tokens l).


(** Number of elements of [l] equal to [x]. *)
Definition occurrences (x : string) (l : list string) : nat :=
  length (filter (fun y => y = x) l).


(** *** The loops as folds over the tokens they read *)

Definition cmdStep (st : argState) (t : token) : argState :=
  match t with
  | Flag f v => cmdFlag f v st
  | Plain a => plainArg a st
  end.

Definition extraStep (st : argState) (t : token) : argState :=
  match t with
  | Flag f v => extraFlag f v st
  | Plain a => plainArg a st
  end.

(** A flag starts with two dashes; its value and every plain argument
    do not. *)
Definition wfToken (t : token) : Prop :=
  match t with
  | Flag f v => Go.HasPrefix f "--" = true /\ Go.HasPrefix v "--" = false
  | Plain a => Go.HasPrefix a "--" = false
  end.

(** What the loops know about a flag they have not met ... *)
Definition Absent (f : string) (st : argState) : Prop :=
  (f ∉ nonRepeatableFlags st)
  /\ repeated st !! f = None
  /\ occurrences f (result st) = 0.



(** Two states of the second loop agree that [f] is not a flag of [cmd]
    and on the values seen for it. *)
Definition sameNewFlag (f : string) (st st0 : argState) : Prop :=
  (f ∉ nonRepeatableFlags st)
  /\ (f ∉ nonRepeatableFlags st0)
  /\ repeated st !! f = repeated st0 !! f.

End Util.
(** ** pkg/component/util.go: [identifyDeploymentDifference]

    The fields of [appsv1.Deployment] that the function reads. A nil map
    or slice is [None]; [reflect.DeepEqual] tells it from an empty one.
    The types that the function only hands to [reflect.DeepEqual] are
    kept abstract, and so are the fields it does not read. *)

Module Deployments.

Section Difference.

Context {SecurityContextT ContainerRestT VolumesT SelectorT TolerationsT
         RestT : Type}.
Context `{!EqDecision SecurityContextT, !EqDecision ContainerRestT,
          !EqDecision VolumesT, !EqDecision SelectorT,
          !EqDecision TolerationsT}.

Record Container : Type := mkContainer {
  SecurityContext : SecurityContextT;
  ContainerRest : ContainerRestT
}.

#[global] Instance Container_eq_dec : EqDecision Container.
Proof. solve_decision. Defined.

Record Deployment : Type := mkDeployment {
  Labels : option (gmap string string);
  Selector : SelectorT;
  TemplateLabels : option (gmap string string);
  TemplateAnnotations : option (gmap string string);
  Containers : option (list Container);
  Volumes : VolumesT;
  ServiceAccountName : string;
  NodeSelector : option (gmap string string);
  Tolerations : TolerationsT;
  Rest : RestT
}.

Definition DeepEqual {A} `{!EqDecision A} (x y : A) : bool :=
  bool_decide (x = y).

(** [containers[0]]; [None] is the index-out-of-range panic. *)
Definition first (containers : option (list Container)) : option Container :=
  match containers with
  | Some (container :: _) => Some container
  | _ => None
  end.

(** [identifyDeploymentDifference(x, y)]; [None] when it panics. *)
Definition identifyDeploymentDifference (x y : Deployment) : option string :=
  if negb (DeepEqual (Containers x) (Containers y)) then
    Some ".Spec.Template.Spec.Containers"
  else if negb (DeepEqual (Volumes x) (Volumes y)) then
    Some ".Spec.Template.Spec.Volumes"
  else if negb (String.eqb (ServiceAccountName x) (ServiceAccountName y)) then
    Some "ServiceAccountName"
  else if negb (DeepEqual (Labels x) (Labels y)) then
    Some "Labels"
  else if negb (DeepEqual (TemplateLabels x) (TemplateLabels y)) then
    Some ".Spec.Template.Labels"
  else if negb (DeepEqual (Selector x) (Selector y)) then
    Some ".Spec.Selector"
  else if negb (DeepEqual (NodeSelector x) (NodeSelector y)) then
    Some "Spec.Template.Spec.NodeSelector"
  else if negb (DeepEqual (Tolerations x) (Tolerations y)) then
    Some "Spec.Template.Spec.Tolerations"
  else
    match first (Containers x), first (Containers y) with
    | Some cx, Some cy =>
        if negb (DeepEqual (SecurityContext cx) (SecurityContext cy)) then
          Some "Spec.Template.Spec..Containers[0].SecurityContext"
        else if negb (DeepEqual (TemplateAnnotations x)
                        (TemplateAnnotations y)) then
          Some ".Spec.Template.Annotations"
        else Some ""
    | _, _ => None
    end.

(** The fields the function compares before it indexes the containers,
    and the one it compares after. *)
Definition comparedFirst (x : Deployment) :=
  (Containers x, Volumes x, ServiceAccountName x, Labels x, TemplateLabels x,
   Selector x, NodeSelector x, Tolerations x).

End Difference.

Arguments Container : clear implicits.
Arguments Deployment : clear implicits.

End Deployments.


(** ** controllers/shared/redis.go

    [ReconcileRedisDeployment] from the point where the desired
    [deploy] has been built and looked up in the store (lines 611-744).
    The Kubernetes payload types that the function only compares with
    [reflect.DeepEqual] and copies are kept abstract; [DeepEqual] on them
    is their decidable equality. *)

Module Redis.

Section Deployment.

Context {ArgsT EnvT ResourcesT SecurityContextT PodSecurityContextT
         NodeSelectorT TolerationsT : Type}.
Context `{!EqDecision ArgsT, !EqDecision EnvT, !EqDecision ResourcesT,
          !EqDecision SecurityContextT, !EqDecision PodSecurityContextT,
          !EqDecision NodeSelectorT, !EqDecision TolerationsT}.

(** [corev1.Container], the fields the function reads. *)
Record Container : Type := mkContainer {
  Image : string;
  ImagePullPolicy : string;
  Args : ArgsT;
  Env : EnvT;
  Resources : ResourcesT;
  SecurityContext : SecurityContextT
}.

(** [appsv1.Deployment], the fields the function reads, all of them under
    [Spec.Template]. [TemplateLabels] is [None] for a nil map. *)
Record Deployment : Type := mkDeployment {
  TemplateLabels : option (gmap string string);
  Containers : list Container;
  NodeSelector : NodeSelectorT;
  Tolerations : TolerationsT;
  PodSecurityContext : PodSecurityContextT;
  ServiceAccountName : string
}.

(** What the function does to the outside, in order. *)
Inductive Event : Type :=
| LogResourceDeletion (reason : string)
| LogResourceUpdate (explanation : string)
| LogResourceCreation
| LogInfo (msg : string)
| ClientDelete (obj : Deployment)
| ClientUpdate (obj : Deployment)
| ClientCreate (obj : Deployment).

(** A run panics (index out of range, write to a nil map), returns the
    error of the lookup, or returns what its last client call returned
    ([nil] when it made none). *)
Inductive Outcome : Type :=
| Panic
| LookupFailed
| Returned (trace : list Event).

(** Result of [argoutil.IsObjectFound]. *)
Inductive Lookup : Type :=
| LookupError
| Found (existingDeploy : Deployment)
| NotFound.

Definition getImagePullPolicy (policy : string) : string :=
  if String.eqb policy "" then "Always" else policy.

Definition DeepEqual {A} `{!EqDecision A} (x y : A) : bool :=
  bool_decide (x = y).

(** The locals [changed] and [explanation] together with the object being
    patched. *)
Record diff : Type := mkDiff {
  existingDeploy : Deployment;
  changed : bool;
  explanation : string
}.

(** The recurring block
    [if changed { explanation += ", " }; explanation += field; changed = true]. *)
Definition noteChange (field : string) (d : diff) (patched : Deployment) : diff :=
  mkDiff patched true
    ((if changed d then explanation d +:+ ", " else explanation d) +:+ field).

Definition setContainer0 (f : Container -> Container) (d : Deployment) : Deployment :=
  match Containers d with
  | c :: rest =>
      mkDeployment (TemplateLabels d) (f c :: rest) (NodeSelector d)
        (Tolerations d) (PodSecurityContext d) (ServiceAccountName d)
  | [] => d
  end.

Definition setImage (v : string) (c : Container) : Container :=
  mkContainer v (ImagePullPolicy c) (Args c) (Env c) (Resources c) (SecurityContext c).
Definition setImagePullPolicy (v : string) (c : Container) : Container :=
  mkContainer (Image c) v (Args c) (Env c) (Resources c) (SecurityContext c).
Definition setArgs (v : ArgsT) (c : Container) : Container :=
  mkContainer (Image c) (ImagePullPolicy c) v (Env c) (Resources c) (SecurityContext c).
Definition setEnv (v : EnvT) (c : Container) : Container :=
  mkContainer (Image c) (ImagePullPolicy c) (Args c) v (Resources c) (SecurityContext c).
Definition setResources (v : ResourcesT) (c : Container) : Container :=
  mkContainer (Image c) (ImagePullPolicy c) (Args c) (Env c) v (SecurityContext c).
Definition setSecurityContext (v : SecurityContextT) (c : Container) : Container :=
  mkContainer (Image c) (ImagePullPolicy c) (Args c) (Env c) (Resources c) v.

Definition setTemplateLabels (v : option (gmap string string)) (d : Deployment) : Deployment :=
  mkDeployment v (Containers d) (NodeSelector d) (Tolerations d)
    (PodSecurityContext d) (ServiceAccountName d).
Definition setNodeSelector (v : NodeSelectorT) (d : Deployment) : Deployment :=
  mkDeployment (TemplateLabels d) (Containers d) v (Tolerations d)
    (PodSecurityContext d) (ServiceAccountName d).
Definition setTolerations (v : TolerationsT) (d : Deployment) : Deployment :=
  mkDeployment (TemplateLabels d) (Containers d) (NodeSelector d) v
    (PodSecurityContext d) (ServiceAccountName d).
Definition setPodSecurityContext (v : PodSecurityContextT) (d : Deployment) : Deployment :=
  mkDeployment (TemplateLabels d) (Containers d) (NodeSelector d) (Tolerations d)
    v (ServiceAccountName d).
Definition setServiceAccountName (v : string) (d : Deployment) : Deployment :=
  mkDeployment (TemplateLabels d) (Containers d) (NodeSelector d) (Tolerations d)
    (PodSecurityContext d) v.

(** [updateNodePlacementForDeployment(existing, deploy, &changed, &explanation)]. *)
Definition updateNodePlacementForDeployment (deploy : Deployment) (d : diff) : diff :=
  let d :=
    if negb (DeepEqual (NodeSelector (existingDeploy d)) (NodeSelector deploy))
    then noteChange "node selector" d
           (setNodeSelector (NodeSelector deploy) (existingDeploy d))
    else d in
  if negb (DeepEqual (Tolerations (existingDeploy d)) (Tolerations deploy))
  then noteChange "tolerations" d
         (setTolerations (Tolerations deploy) (existingDeploy d))
  else d.

(** The block "Check if update is needed" once both [Containers[0]] are
    known to exist: [ec] is [existingDeploy...Containers[0]] and [dc] is
    [deploy...Containers[0]]. The result is [None] when the write to
    [Spec.Template.Labels] hits a nil map. *)
Definition checkUpdate (redisImage imagePullPolicy now : string)
    (deploy existing : Deployment) (dc ec : Container) : option diff :=
  let actualImage := Image ec in
  let desiredImage := redisImage in
  let actualImagePullPolicy := ImagePullPolicy ec in
  let desiredImagePullPolicy := getImagePullPolicy imagePullPolicy in
  let d0 := mkDiff existing false "" in
  let step1 :=
    if negb (String.eqb actualImage desiredImage) then
      match TemplateLabels existing with
      | None => None
      | Some labels =>
          Some (mkDiff
                  (setTemplateLabels (Some (<["image.upgraded" := now]> labels))
                     (setContainer0 (setImage desiredImage) existing))
                  true "container image")
      end
    else Some d0 in
  match step1 with
  | None => None
  | Some d =>
    let d :=
      if negb (String.eqb actualImagePullPolicy desiredImagePullPolicy)
      then noteChange "image pull policy" d
             (setContainer0 (setImagePullPolicy desiredImagePullPolicy) (existingDeploy d))
      else d in
    let d := updateNodePlacementForDeployment deploy d in
    let d :=
      if negb (DeepEqual (Args dc) (Args ec))
      then noteChange "container args" d
             (setContainer0 (setArgs (Args dc)) (existingDeploy d))
      else d in
    let d :=
      if negb (DeepEqual (Env ec) (Env dc))
      then noteChange "container env" d
             (setContainer0 (setEnv (Env dc)) (existingDeploy d))
      else d in
    let d :=
      if negb (DeepEqual (Resources dc) (Resources ec))
      then noteChange "container resources" d
             (setContainer0 (setResources (Resources dc)) (existingDeploy d))
      else d in
    let d :=
      if negb (DeepEqual (SecurityContext dc) (SecurityContext ec))
      then noteChange "container security context" d
             (setContainer0 (setSecurityContext (SecurityContext dc)) (existingDeploy d))
      else d in
    let d :=
      if negb (DeepEqual (PodSecurityContext deploy) (PodSecurityContext existing))
      then noteChange "pod security context" d
             (setPodSecurityContext (PodSecurityContext deploy) (existingDeploy d))
      else d in
    let d :=
      if negb (DeepEqual (ServiceAccountName deploy) (ServiceAccountName existing))
      then noteChange "serviceAccountName" d
             (setServiceAccountName (ServiceAccountName deploy) (existingDeploy d))
      else d in
    Some d
  end.

(** [ReconcileRedisDeployment], lines 611-744. [redisEnabled], [redisRemote]
    and [haEnabled] are [redisSpec.IsEnabled()], [redisSpec.IsRemote()] and
    [haSpec.Enabled]; [now] is the formatted [time.Now()]. *)
Definition ReconcileRedisDeployment
    (redisEnabled redisRemote haEnabled : bool)
    (redisImage imagePullPolicy now : string)
    (deploy : Deployment) (lookup : Lookup) : Outcome :=
  match lookup with
  | LookupError => LookupFailed
  | Found existing =>
      if negb redisEnabled then
        Returned [LogResourceDeletion "redis is disabled but deployment exists";
                  ClientDelete deploy]
      else if redisRemote then
        Returned [LogResourceDeletion "remote redis is configured";
                  ClientDelete deploy]
      else if haEnabled then
        Returned [LogResourceDeletion "redis ha is enabled but non-ha deployment exists";
                  ClientDelete deploy]
      else
        match Containers existing, Containers deploy with
        | ec :: _, dc :: _ =>
            match checkUpdate redisImage imagePullPolicy now deploy existing dc ec with
            | None => Panic
            | Some d =>
                if changed d then
                  Returned [LogResourceUpdate (explanation d);
                            ClientUpdate (existingDeploy d)]
                else Returned []
            end
        | _, _ => Panic
        end
  | NotFound =>
      if redisEnabled && redisRemote then
        Returned [LogInfo "Custom Redis Endpoint. Skipping starting redis."]
      else if negb redisEnabled then
        Returned [LogInfo "Redis disabled. Skipping starting redis."]
      else if haEnabled then Returned []
      else Returned [LogResourceCreation; ClientCreate deploy]
  end.

(** *** The diff policy in the words of the specification *)

(** The names of the operator-managed fields on which the live object
    differs from the desired one, in the order the function visits them. *)
Definition changedFields (redisImage imagePullPolicy : string)
    (deploy existing : Deployment) (dc ec : Container) : list string :=
  omap (fun '(differs, name) => if (differs : bool) then Some name else None)
    [ (negb (String.eqb (Image ec) redisImage), "container image");
      (negb (String.eqb (ImagePullPolicy ec) (getImagePullPolicy imagePullPolicy)),
         "image pull policy");
      (negb (DeepEqual (NodeSelector existing) (NodeSelector deploy)), "node selector");
      (negb (DeepEqual (Tolerations existing) (Tolerations deploy)), "tolerations");
      (negb (DeepEqual (Args dc) (Args ec)), "container args");
      (negb (DeepEqual (Env ec) (Env dc)), "container env");
      (negb (DeepEqual (Resources dc) (Resources ec)), "container resources");
      (negb (DeepEqual (SecurityContext dc) (SecurityContext ec)),
         "container security context");
      (negb (DeepEqual (PodSecurityContext deploy) (PodSecurityContext existing)),
         "pod security context");
      (negb (DeepEqual (ServiceAccountName deploy) (ServiceAccountName existing)),
         "serviceAccountName") ].

(** [changed] and [explanation] stand for the list of the fields noted so
    far. *)
Definition Noted (d : diff) (ns : list string) : Prop :=
  changed d = negb (bool_decide (ns = []))
  /\ explanation d = String.concat ", " ns.

End Deployment.

Arguments Container : clear implicits.
Arguments Deployment : clear implicits.
Arguments Event : clear implicits.
Arguments Outcome : clear implicits.
Arguments Lookup : clear implicits.
Arguments diff : clear implicits.

(** *** A live deployment and its desired state, for the examples

    The abstract payloads are strings here. The live object runs an older
    image with other arguments and tolerations. *)

Definition liveRedis : Deployment string string string string string string string :=
  mkDeployment (Some {[ "app.kubernetes.io/name" := "argocd-redis" ]})
    [mkContainer "redis:6" "Always" "--save" "env" "resources" "restricted"]
    "" "tolerations-1" "runAsUser=1000" "argocd-argocd-redis".

Definition desiredRedis : Deployment string string string string string string string :=
  mkDeployment (Some {[ "app.kubernetes.io/name" := "argocd-redis" ]})
    [mkContainer "redis:7" "Always" "--save --appendonly" "env" "resources" "restricted"]
    "" "tolerations-2" "runAsUser=1000" "argocd-argocd-redis".

End Redis.
(** ** controllers/shared/redis.go: the update block, step by step *)

Module RedisSteps.
Import Redis.

Section Steps.

Context {ArgsT EnvT ResourcesT SecurityContextT PodSecurityContextT
         NodeSelectorT TolerationsT : Type}.
Context `{!EqDecision ArgsT, !EqDecision EnvT, !EqDecision ResourcesT,
          !EqDecision SecurityContextT, !EqDecision PodSecurityContextT,
          !EqDecision NodeSelectorT, !EqDecision TolerationsT}.

Local Abbreviation DeploymentT :=
  (Deployment ArgsT EnvT ResourcesT SecurityContextT PodSecurityContextT
     NodeSelectorT TolerationsT).
Local Abbreviation diffT :=
  (diff ArgsT EnvT ResourcesT SecurityContextT PodSecurityContextT
     NodeSelectorT TolerationsT).

(** One [if] of the update block: when the field differs, patch the
    object with [f] and note the field. *)
Definition patchIf (differs : bool) (field : string)
    (f : DeploymentT -> DeploymentT) (d : diffT) : diffT :=
  if differs then noteChange field d (f (existingDeploy d)) else d.

(** The block after the test of the image: [checkUpdate] applies these
    steps to what the test of the image leaves. *)
Definition afterImage (imagePullPolicy : string) (deploy : DeploymentT)
    (dc ec : Container ArgsT EnvT ResourcesT SecurityContextT)
    (existing : DeploymentT) (d : diffT) : diffT :=
  patchIf (negb (DeepEqual (ServiceAccountName deploy)
                   (ServiceAccountName existing)))
    "serviceAccountName" (setServiceAccountName (ServiceAccountName deploy))
  (patchIf (negb (DeepEqual (PodSecurityContext deploy)
                    (PodSecurityContext existing)))
     "pod security context" (setPodSecurityContext (PodSecurityContext deploy))
  (patchIf (negb (DeepEqual (SecurityContext dc) (SecurityContext ec)))
     "container security context"
     (setContainer0 (setSecurityContext (SecurityContext dc)))
  (patchIf (negb (DeepEqual (Resources dc) (Resources ec)))
     "container resources" (setContainer0 (setResources (Resources dc)))
  (patchIf (negb (DeepEqual (Env ec) (Env dc)))
     "container env" (setContainer0 (setEnv (Env dc)))
  (patchIf (negb (DeepEqual (Args dc) (Args ec)))
     "container args" (setContainer0 (setArgs (Args dc)))
  (updateNodePlacementForDeployment deploy
  (patchIf (negb (String.eqb (ImagePullPolicy ec)
                    (getImagePullPolicy imagePullPolicy)))
     "image pull policy"
     (setContainer0 (setImagePullPolicy (getImagePullPolicy imagePullPolicy)))
     d))))))).

(** The existing deployment with every change applied: the first
    container runs the Redis image with the pull policy of the instance
    and has the arguments, environment, resources and security context
    of the desired first container; the node placement, the pod security
    context and the service account name are the desired ones; the
    template labels carry the upgrade time when the image changed. The
    other containers stay. *)
Definition patchedDeployment (redisImage imagePullPolicy now : string)
    (deploy existing : DeploymentT)
    (dc ec : Container ArgsT EnvT ResourcesT SecurityContextT)
    (erest : list (Container ArgsT EnvT ResourcesT SecurityContextT))
    : DeploymentT :=
  mkDeployment
    (if negb (String.eqb (Image ec) redisImage)
     then insert "image.upgraded" now <$> TemplateLabels existing
     else TemplateLabels existing)
    (mkContainer redisImage (getImagePullPolicy imagePullPolicy) (Args dc)
       (Env dc) (Resources dc) (SecurityContext dc) :: erest)
    (NodeSelector deploy) (Tolerations deploy) (PodSecurityContext deploy)
    (ServiceAccountName deploy).

End Steps.

End RedisSteps.

(** *** The live deployment of the examples once it has been updated *)

Module RedisExamples.
Import Redis.

(** [liveRedis] as the update towards [desiredRedis] leaves it, the
    upgrade being stamped with the time ["now"]. *)
Definition patchedRedis : Deployment string string string string string string string :=
  mkDeployment
    (Some (<["image.upgraded" := "now"]>
             {[ "app.kubernetes.io/name" := "argocd-redis" ]}))
    [mkContainer "redis:7" "Always" "--save --appendonly" "env" "resources"
       "restricted"]
    "" "tolerations-2" "runAsUser=1000" "argocd-argocd-redis".

End RedisExamples.


(** ** controllers/shared/redis.go: [ReconcileRedisStatefulSet]

    The function from the point where the desired [ss] has been built and
    looked up in the store. The fields of a container other than its
    image and its pull policy, and the fields of the pod template other
    than the ones below, are not read and are kept abstract. *)

Module RedisHA.

Section StatefulSet.

Context {ContainerRestT NodeSelectorT TolerationsT RestT : Type}.
Context `{!EqDecision NodeSelectorT, !EqDecision TolerationsT}.

Record Container : Type := mkContainer {
  Image : string;
  ImagePullPolicy : string;
  ContainerRest : ContainerRestT
}.

(** [appsv1.StatefulSet]; the fields are those of [Spec.Template].
    [TemplateLabels] is [None] for a nil map. *)
Record StatefulSet : Type := mkStatefulSet {
  TemplateLabels : option (gmap string string);
  Containers : list Container;
  InitContainers : list Container;
  NodeSelector : NodeSelectorT;
  Tolerations : TolerationsT;
  Rest : RestT
}.

Inductive Event : Type :=
| LogResourceDeletion (explanation : string)
| LogResourceUpdate (explanation : string)
| LogResourceCreation
| ClientDelete (obj : StatefulSet)
| ClientUpdate (obj : StatefulSet)
| ClientCreate (obj : StatefulSet).

(** A run panics (write to a nil map), returns the error of the lookup,
    or returns what its last client call returned. *)
Inductive Outcome : Type :=
| Panic
| LookupFailed
| Returned (trace : list Event).

Inductive Lookup : Type :=
| LookupError
| Found (existingSS : StatefulSet)
| NotFound.

(** The locals [changed] and [explanation] with the object being
    patched. *)
Record diff : Type := mkDiff {
  existingSS : StatefulSet;
  changed : bool;
  explanation : string
}.

(** [if changed { explanation += ", " }; explanation += field;
    changed = true] around a patch of the object. *)
Definition noteChange (field : string) (d : diff) (patched : StatefulSet) : diff :=
  mkDiff patched true
    ((if changed d then explanation d +:+ ", " else explanation d) +:+ field).

Definition setImage (v : string) (c : Container) : Container :=
  mkContainer v (ImagePullPolicy c) (ContainerRest c).
Definition setImagePullPolicy (v : string) (c : Container) : Container :=
  mkContainer (Image c) v (ContainerRest c).

Definition setTemplateLabels (v : option (gmap string string))
    (s : StatefulSet) : StatefulSet :=
  mkStatefulSet v (Containers s) (InitContainers s) (NodeSelector s)
    (Tolerations s) (Rest s).
Definition setContainers (v : list Container) (s : StatefulSet) : StatefulSet :=
  mkStatefulSet (TemplateLabels s) v (InitContainers s) (NodeSelector s)
    (Tolerations s) (Rest s).
Definition setInitContainers (v : list Container) (s : StatefulSet)
    : StatefulSet :=
  mkStatefulSet (TemplateLabels s) (Containers s) v (NodeSelector s)
    (Tolerations s) (Rest s).
Definition setNodeSelector (v : NodeSelectorT) (s : StatefulSet) : StatefulSet :=
  mkStatefulSet (TemplateLabels s) (Containers s) (InitContainers s) v
    (Tolerations s) (Rest s).
Definition setTolerations (v : TolerationsT) (s : StatefulSet) : StatefulSet :=
  mkStatefulSet (TemplateLabels s) (Containers s) (InitContainers s)
    (NodeSelector s) v (Rest s).

(** [updateNodePlacementForStatefulSet(existing, ss, &changed, &explanation)]. *)
Definition updateNodePlacementForStatefulSet (ss : StatefulSet) (d : diff) : diff :=
  let d :=
    if negb (bool_decide (NodeSelector (existingSS d) = NodeSelector ss))
    then noteChange "node selector" d
           (setNodeSelector (NodeSelector ss) (existingSS d))
    else d in
  if negb (bool_decide (Tolerations (existingSS d) = Tolerations ss))
  then noteChange "tolerations" d
         (setTolerations (Tolerations ss) (existingSS d))
  else d.

(** The loop over [existingSS.Spec.Template.Spec.Containers], from index
    [i] on; [containers] are the elements the [range] has still to hand
    out. [now i] is the formatted [time.Now()] at the write of round
    [i]. The result is [None] when the write to [Spec.Template.Labels]
    hits a nil map. *)
Fixpoint containersLoop (redisImage desiredImagePullPolicy : string)
    (now : nat -> string) (i : nat) (containers : list Container) (d : diff)
    : option diff :=
  match containers with
  | [] => Some d
  | container :: rest =>
      let afterImage :=
        if negb (String.eqb (Image container) redisImage) then
          let patched :=
            setContainers (alter (setImage redisImage) i
                             (Containers (existingSS d))) (existingSS d) in
          match TemplateLabels patched with
          | None => None
          | Some labels =>
              Some (noteChange "container image" d
                      (setTemplateLabels
                         (Some (<["image.upgraded" := now i]> labels)) patched))
          end
        else Some d in
      match afterImage with
      | None => None
      | Some d =>
          let d :=
            if negb (String.eqb (ImagePullPolicy container)
                       desiredImagePullPolicy)
            then noteChange "image pull policy" d
                   (setContainers
                      (alter (setImagePullPolicy desiredImagePullPolicy) i
                         (Containers (existingSS d))) (existingSS d))
            else d in
          containersLoop redisImage desiredImagePullPolicy now (S i) rest d
      end
  end.

(** The loop over [existingSS.Spec.Template.Spec.InitContainers]; it
    writes no label. *)
Fixpoint initContainersLoop (redisImage desiredImagePullPolicy : string)
    (i : nat) (containers : list Container) (d : diff) : diff :=
  match containers with
  | [] => d
  | container :: rest =>
      let d :=
        if negb (String.eqb (Image container) redisImage)
        then noteChange "init container image" d
               (setInitContainers
                  (alter (setImage redisImage) i
                     (InitContainers (existingSS d))) (existingSS d))
        else d in
      let d :=
        if negb (String.eqb (ImagePullPolicy container) desiredImagePullPolicy)
        then noteChange "init container image pull policy" d
               (setInitContainers
                  (alter (setImagePullPolicy desiredImagePullPolicy) i
                     (InitContainers (existingSS d))) (existingSS d))
        else d in
      initContainersLoop redisImage desiredImagePullPolicy (S i) rest d
  end.

(** [getImagePullPolicy]. *)
Definition getImagePullPolicy (policy : string) : string :=
  if String.eqb policy "" then "Always" else policy.

(** The block "Check if update is needed". *)
Definition checkUpdate (redisImage imagePullPolicy : string)
    (now : nat -> string) (ss existing : StatefulSet) : option diff :=
  let d := updateNodePlacementForStatefulSet ss (mkDiff existing false "") in
  match containersLoop redisImage (getImagePullPolicy imagePullPolicy) now 0
          (Containers (existingSS d)) d with
  | None => None
  | Some d =>
      Some (initContainersLoop redisImage (getImagePullPolicy imagePullPolicy)
              0 (InitContainers (existingSS d)) d)
  end.

(** [ReconcileRedisStatefulSet] from the lookup on. [haEnabled] and
    [redisEnabled] are [haSpec.Enabled] and [redisSpec.IsEnabled()]. *)
Definition ReconcileRedisStatefulSet (haEnabled redisEnabled : bool)
    (redisImage imagePullPolicy : string) (now : nat -> string)
    (ss : StatefulSet) (lookup : Lookup) : Outcome :=
  match lookup with
  | LookupError => LookupFailed
  | Found existing =>
      if negb haEnabled || negb redisEnabled then
        let explanation :=
          if negb haEnabled then "ha is disabled" else "redis is disabled" in
        Returned [LogResourceDeletion explanation; ClientDelete existing]
      else
        match checkUpdate redisImage imagePullPolicy now ss existing with
        | None => Panic
        | Some d =>
            if changed d then
              Returned [LogResourceUpdate (explanation d);
                        ClientUpdate (existingSS d)]
            else Returned []
        end
  | NotFound =>
      if negb haEnabled || negb redisEnabled then Returned []
      else Returned [LogResourceCreation; ClientCreate ss]
  end.

(** *** The fields the update block notes, in the order it visits them *)

Definition containerFields (imageField policyField : string)
    (redisImage desiredImagePullPolicy : string) (container : Container)
    : list string :=
  (if negb (String.eqb (Image container) redisImage) then [imageField] else [])
  ++ (if negb (String.eqb (ImagePullPolicy container) desiredImagePullPolicy)
      then [policyField] else []).

Definition changedFields (redisImage imagePullPolicy : string)
    (ss existing : StatefulSet) : list string :=
  (if negb (bool_decide (NodeSelector existing = NodeSelector ss))
   then ["node selector"] else [])
  ++ (if negb (bool_decide (Tolerations existing = Tolerations ss))
      then ["tolerations"] else [])
  ++ flat_map (containerFields "container image" "image pull policy"
                 redisImage (getImagePullPolicy imagePullPolicy))
       (Containers existing)
  ++ flat_map (containerFields "init container image"
                 "init container image pull policy"
                 redisImage (getImagePullPolicy imagePullPolicy))
       (InitContainers existing).

(** [changed] and [explanation] stand for the list of the fields noted so
    far. *)
Definition Noted (d : diff) (ns : list string) : Prop :=
  changed d = negb (bool_decide (ns = []))
  /\ explanation d = String.concat ", " ns.

(** A container as the update block leaves it. *)
Definition settle (redisImage desiredImagePullPolicy : string)
    (container : Container) : Container :=
  mkContainer redisImage desiredImagePullPolicy (ContainerRest container).

(** The template labels after the update block: [stamp] is the time
    written under [image.upgraded], if any. *)
Definition stamped (stamp : option string)
    (labels : option (gmap string string)) : option (gmap string string) :=
  match stamp with
  | None => labels
  | Some t => insert "image.upgraded" t <$> labels
  end.

(** The object the update block sends to the server. *)
Definition settled (redisImage imagePullPolicy : string)
    (stamp : option string) (ss existing : StatefulSet) : StatefulSet :=
  mkStatefulSet (stamped stamp (TemplateLabels existing))
    (map (settle redisImage (getImagePullPolicy imagePullPolicy))
       (Containers existing))
    (map (settle redisImage (getImagePullPolicy imagePullPolicy))
       (InitContainers existing))
    (NodeSelector ss) (Tolerations ss) (Rest existing).

End StatefulSet.

Arguments Container : clear implicits.
Arguments StatefulSet : clear implicits.
Arguments Event : clear implicits.
Arguments Outcome : clear implicits.
Arguments Lookup : clear implicits.
Arguments diff : clear implicits.

(** *** A live StatefulSet and its desired state, for the examples

    The abstract payloads are strings. The live object runs an older
    image in its first container and in its init container, and has
    other tolerations. *)

Definition liveRedisHA : StatefulSet string string string string :=
  mkStatefulSet (Some {[ "app.kubernetes.io/name" := "argocd-redis-ha" ]})
    [mkContainer "redis:6" "Always" "redis";
     mkContainer "redis:7" "IfNotPresent" "sentinel"]
    [mkContainer "redis:6" "Always" "config-init"]
    "zone-a" "tolerations-1" "replicas=3".

Definition desiredRedisHA : StatefulSet string string string string :=
  mkStatefulSet (Some {[ "app.kubernetes.io/name" := "argocd-redis-ha" ]})
    [mkContainer "redis:7" "Always" "redis";
     mkContainer "redis:7" "Always" "sentinel"]
    [mkContainer "redis:7" "Always" "config-init"]
    "zone-a" "tolerations-2" "replicas=3".

(** The clock of the examples. *)
Definition exampleNow (i : nat) : string :=
  match i with
  | 0 => "10312026-120000-UTC"
  | _ => "10312026-120001-UTC"
  end.

End RedisHA.


(** ** controllers/clusterargocd

    The reconciler of the cluster-scoped ClusterArgoCD resource against an
    in-memory object store. Every client call and every log line is
    appended to a trace, so that the order of the effects of a pass can be
    stated; a fault oracle decides which client calls fail. *)

Module Cluster.

(** *** Kubernetes objects, reduced to the fields the controller uses *)

Record PolicyRule : Type := mkPolicyRule {
  APIGroups : list string;
  Resources : list string;
  Verbs : list string
}.

(** [rbacv1.Role] *)
Record Role : Type := mkRole {
  roleLabels : gmap string string;
  roleRules : list PolicyRule
}.

(** [rbacv1.ClusterRole] *)
Record ClusterRole : Type := mkClusterRole {
  crLabels : gmap string string;
  crAnnotations : gmap string string;
  crRules : list PolicyRule
}.

Record RoleRef : Type := mkRoleRef {
  refAPIGroup : string;
  refKind : string;
  refName : string
}.

Record Subject : Type := mkSubject {
  subjKind : string;
  subjName : string;
  subjNamespace : string
}.

(** [rbacv1.ClusterRoleBinding] *)
Record ClusterRoleBinding : Type := mkClusterRoleBinding {
  crbLabels : gmap string string;
  crbAnnotations : gmap string string;
  crbRoleRef : RoleRef;
  crbSubjects : list Subject
}.

(** [corev1.ServiceAccount] *)
Record ServiceAccount : Type := mkServiceAccount {
  saLabels : gmap string string;
  saAnnotations : gmap string string
}.

(** [Spec.ApplicationSet]; [asEnabled] is the [*bool]. *)
Record ApplicationSetSpec : Type := mkApplicationSetSpec {
  asEnabled : option bool;
  asSourceNamespaces : list string
}.

(** [Spec.Notifications]; [nReplicas] is the [*int32]. *)
Record NotificationsSpec : Type := mkNotificationsSpec {
  nEnabled : bool;
  nSourceNamespaces : list string;
  nReplicas : option Z
}.

(** [ClusterArgoCDSpec]; [ArgoCDAgent] only records whether the pointer
    is set. *)
Record ClusterArgoCDSpec : Type := mkSpec {
  ControlPlaneNamespace : string;
  SourceNamespaces : list string;
  ApplicationSet : option ApplicationSetSpec;
  Notifications : NotificationsSpec;
  HAEnabled : bool;
  ArgoCDAgent : bool
}.

Record ArgoCDStatus : Type := mkStatus {
  Phase : string;
  RepoTLSChecksum : string;
  RedisTLSChecksum : string
}.

(** [ClusterArgoCD]; [DeletionTimestamp] is [None] while the object is
    not being deleted. *)
Record ClusterArgoCD : Type := mkClusterArgoCD {
  Name : string;
  Labels : gmap string string;
  Finalizers : list string;
  DeletionTimestamp : option string;
  Spec : ClusterArgoCDSpec;
  Status : ArgoCDStatus
}.

(** *** Errors *)

(** A Go [error]: whether [errors.IsNotFound] holds of it, and its text.
    Wrapping with [fmt.Errorf("...: %w", err)] keeps the first and
    prefixes the second. *)
Record error : Type := mkError {
  IsNotFound : bool;
  errText : string
}.

Definition Errorf (prefix : string) (err : error) : error :=
  mkError (IsNotFound err) (prefix +:+ ": " +:+ errText err).

(** *** Client calls and the trace *)

Inductive Verb : Type :=
| Get
| List (labelKey labelValue : string)
| Create
| Update
| Delete.

Inductive Kind : Type :=
| KNamespace
| KRole
| KClusterRole
| KClusterRoleBinding
| KServiceAccount
| KClusterArgoCD.

(** A call of [r.Get], [r.List], [r.Create], [r.Update] or [r.Delete]:
    the object kind and the namespace and name of the object. *)
Record Call : Type := mkCall {
  verb : Verb;
  kind : Kind;
  callNamespace : string;
  callName : string
}.

(** How a call ended: it went through, the store had no such object, the
    store already had one, or the call failed for a reason of the store's
    own (unavailable, conflict, forbidden). *)
Inductive CallResult : Type :=
| Ok
| NotFoundResult
| AlreadyExistsResult
| Fault.

Inductive Event : Type :=
| ELog (msg : string)
| ELogError (msg : string)
| ECall (c : Call) (r : CallResult).

Definition errorOf (r : CallResult) : option error :=
  match r with
  | Ok => None
  | NotFoundResult => Some (mkError true "not found")
  | AlreadyExistsResult => Some (mkError false "already exists")
  | Fault => Some (mkError false "store failure")
  end.

(** *** The reconciler, the store behind its client, and the process *)

Record World : Type := mkWorld {
  (* the object store *)
  namespaces : gmap string (gmap string string);
  roles : gmap (string * string) Role;
  clusterRoles : gmap string ClusterRole;
  clusterRoleBindings : gmap string ClusterRoleBinding;
  serviceAccounts : gmap (string * string) ServiceAccount;
  clusterArgoCDs : gmap string ClusterArgoCD;
  (* fields of ReconcileClusterArgoCD; [None] is a nil map *)
  ManagedSourceNamespaces : option (gmap string string);
  ManagedApplicationSetSourceNamespaces : option (gmap string string);
  ManagedNotificationsSourceNamespaces : option (gmap string string);
  LabelSelector : string;
  (* r.LocalUsers.TokenRenewalTimers; [None] when either is nil *)
  TokenRenewalTimers : option (gmap string unit);
  (* the package variable *)
  ActiveClusterInstanceMap : gmap string string;
  (* which calls fail: position in the trace and call *)
  faults : nat -> Call -> bool;
  trace : list Event
}.

(** Field updates. *)

Definition set_namespaces (v : gmap string (gmap string string)) (w : World) : World :=
  mkWorld v (roles w) (clusterRoles w) (clusterRoleBindings w)
    (serviceAccounts w) (clusterArgoCDs w) (ManagedSourceNamespaces w)
    (ManagedApplicationSetSourceNamespaces w)
    (ManagedNotificationsSourceNamespaces w) (LabelSelector w)
    (TokenRenewalTimers w) (ActiveClusterInstanceMap w) (faults w) (trace w).

Definition set_roles (v : gmap (string * string) Role) (w : World) : World :=
  mkWorld (namespaces w) v (clusterRoles w) (clusterRoleBindings w)
    (serviceAccounts w) (clusterArgoCDs w) (ManagedSourceNamespaces w)
    (ManagedApplicationSetSourceNamespaces w)
    (ManagedNotificationsSourceNamespaces w) (LabelSelector w)
    (TokenRenewalTimers w) (ActiveClusterInstanceMap w) (faults w) (trace w).

Definition set_clusterRoles (v : gmap string ClusterRole) (w : World) : World :=
  mkWorld (namespaces w) (roles w) v (clusterRoleBindings w)
    (serviceAccounts w) (clusterArgoCDs w) (ManagedSourceNamespaces w)
    (ManagedApplicationSetSourceNamespaces w)
    (ManagedNotificationsSourceNamespaces w) (LabelSelector w)
    (TokenRenewalTimers w) (ActiveClusterInstanceMap w) (faults w) (trace w).

Definition set_clusterRoleBindings (v : gmap string ClusterRoleBinding) (w : World) : World :=
  mkWorld (namespaces w) (roles w) (clusterRoles w) v (serviceAccounts w)
    (clusterArgoCDs w) (ManagedSourceNamespaces w)
    (ManagedApplicationSetSourceNamespaces w)
    (ManagedNotificationsSourceNamespaces w) (LabelSelector w)
    (TokenRenewalTimers w) (ActiveClusterInstanceMap w) (faults w) (trace w).

Definition set_serviceAccounts (v : gmap (string * string) ServiceAccount) (w : World) : World :=
  mkWorld (namespaces w) (roles w) (clusterRoles w) (clusterRoleBindings w) v
    (clusterArgoCDs w) (ManagedSourceNamespaces w)
    (ManagedApplicationSetSourceNamespaces w)
    (ManagedNotificationsSourceNamespaces w) (LabelSelector w)
    (TokenRenewalTimers w) (ActiveClusterInstanceMap w) (faults w) (trace w).

Definition set_clusterArgoCDs (v : gmap string ClusterArgoCD) (w : World) : World :=
  mkWorld (namespaces w) (roles w) (clusterRoles w) (clusterRoleBindings w)
    (serviceAccounts w) v (ManagedSourceNamespaces w)
    (ManagedApplicationSetSourceNamespaces w)
    (ManagedNotificationsSourceNamespaces w) (LabelSelector w)
    (TokenRenewalTimers w) (ActiveClusterInstanceMap w) (faults w) (trace w).

Definition set_ManagedSourceNamespaces (v : option (gmap string string)) (w : World) : World :=
  mkWorld (namespaces w) (roles w) (clusterRoles w) (clusterRoleBindings w)
    (serviceAccounts w) (clusterArgoCDs w) v
    (ManagedApplicationSetSourceNamespaces w)
    (ManagedNotificationsSourceNamespaces w) (LabelSelector w)
    (TokenRenewalTimers w) (ActiveClusterInstanceMap w) (faults w) (trace w).

Definition set_ManagedApplicationSetSourceNamespaces (v : option (gmap string string)) (w : World) : World :=
  mkWorld (namespaces w) (roles w) (clusterRoles w) (clusterRoleBindings w)
    (serviceAccounts w) (clusterArgoCDs w) (ManagedSourceNamespaces w) v
    (ManagedNotificationsSourceNamespaces w) (LabelSelector w)
    (TokenRenewalTimers w) (ActiveClusterInstanceMap w) (faults w) (trace w).

Definition set_ManagedNotificationsSourceNamespaces (v : option (gmap string string)) (w : World) : World :=
  mkWorld (namespaces w) (roles w) (clusterRoles w) (clusterRoleBindings w)
    (serviceAccounts w) (clusterArgoCDs w) (ManagedSourceNamespaces w)
    (ManagedApplicationSetSourceNamespaces w) v (LabelSelector w)
    (TokenRenewalTimers w) (ActiveClusterInstanceMap w) (faults w) (trace w).

Definition set_TokenRenewalTimers (v : option (gmap string unit)) (w : World) : World :=
  mkWorld (namespaces w) (roles w) (clusterRoles w) (clusterRoleBindings w)
    (serviceAccounts w) (clusterArgoCDs w) (ManagedSourceNamespaces w)
    (ManagedApplicationSetSourceNamespaces w)
    (ManagedNotificationsSourceNamespaces w) (LabelSelector w) v
    (ActiveClusterInstanceMap w) (faults w) (trace w).

Definition set_ActiveClusterInstanceMap (v : gmap string string) (w : World) : World :=
  mkWorld (namespaces w) (roles w) (clusterRoles w) (clusterRoleBindings w)
    (serviceAccounts w) (clusterArgoCDs w) (ManagedSourceNamespaces w)
    (ManagedApplicationSetSourceNamespaces w)
    (ManagedNotificationsSourceNamespaces w) (LabelSelector w)
    (TokenRenewalTimers w) v (faults w) (trace w).

Definition set_trace (v : list Event) (w : World) : World :=
  mkWorld (namespaces w) (roles w) (clusterRoles w) (clusterRoleBindings w)
    (serviceAccounts w) (clusterArgoCDs w) (ManagedSourceNamespaces w)
    (ManagedApplicationSetSourceNamespaces w)
    (ManagedNotificationsSourceNamespaces w) (LabelSelector w)
    (TokenRenewalTimers w) (ActiveClusterInstanceMap w) (faults w) v.

Definition set_faults (v : nat -> Call -> bool) (w : World) : World :=
  mkWorld (namespaces w) (roles w) (clusterRoles w) (clusterRoleBindings w)
    (serviceAccounts w) (clusterArgoCDs w) (ManagedSourceNamespaces w)
    (ManagedApplicationSetSourceNamespaces w)
    (ManagedNotificationsSourceNamespaces w) (LabelSelector w)
    (TokenRenewalTimers w) (ActiveClusterInstanceMap w) v (trace w).

(** *** Computations of the controller *)

Definition M (A : Type) : Type := World -> A * World.

Definition ret {A} (a : A) : M A := fun w => (a, w).

Definition bind {A B} (m : M A) (k : A -> M B) : M B :=
  fun w => let (a, w') := m w in k a w'.

Notation "'let*' x ':=' m 'in' k" := (bind m (fun x => k))
  (at level 10, x name, m at level 100, k at level 200).
Notation "m '>>' k" := (bind m (fun _ => k))
  (at level 100, k at level 200, right associativity).

Definition get {A} (f : World -> A) : M A := fun w => (f w, w).

Definition modify (f : World -> World) : M unit := fun w => (tt, f w).

Definition emit (e : Event) : M unit :=
  modify (fun w => set_trace (trace w ++ [e]) w).

(** [log.Info(msg, ...)]; the key and value pairs are left out. *)
Definition logInfo (msg : string) : M unit := emit (ELog msg).

(** [log.Error(err, msg, ...)]. *)
Definition logError (msg : string) : M unit := emit (ELogError msg).

(** *** The client *)

(** A call first asks the oracle, at the current length of the trace,
    whether it fails; when it does not, the store answers. *)
Definition clientGet {A} (c : Call) (lookup : World -> option A)
    : M (error + A) :=
  fun w =>
    if faults w (length (trace w)) c
    then (inl (mkError false "store failure"), (emit (ECall c Fault) w).2)
    else match lookup w with
         | Some a => (inr a, (emit (ECall c Ok) w).2)
         | None => (inl (mkError true "not found"),
                    (emit (ECall c NotFoundResult) w).2)
         end.

Definition clientList {A} (c : Call) (items : World -> list A)
    : M (error + list A) :=
  fun w =>
    if faults w (length (trace w)) c
    then (inl (mkError false "store failure"), (emit (ECall c Fault) w).2)
    else (inr (items w), (emit (ECall c Ok) w).2).

(** A write: [result] is what the store answers when the oracle lets the
    call through, [store] the new content when the answer is [Ok]. *)
Definition clientWrite (c : Call) (result : World -> CallResult)
    (store : World -> World) : M (option error) :=
  fun w =>
    if faults w (length (trace w)) c
    then (errorOf Fault, (emit (ECall c Fault) w).2)
    else match result w with
         | Ok => (None, (emit (ECall c Ok) (store w)).2)
         | r => (errorOf r, (emit (ECall c r) w).2)
         end.

Definition onAbsent {K A} `{Countable K} (m : gmap K A) (k : K) : CallResult :=
  match m !! k with
  | Some _ => AlreadyExistsResult
  | None => Ok
  end.

Definition onPresent {K A} `{Countable K} (m : gmap K A) (k : K) : CallResult :=
  match m !! k with
  | Some _ => Ok
  | None => NotFoundResult
  end.

(** Objects of a map whose labels carry [labelKey] with [labelValue]
    ([client.MatchingLabels] and [labels.SelectorFromSet]). *)
Definition matching {K A} `{Countable K} (labelsOf : A -> gmap string string)
    (labelKey labelValue : string) (m : gmap K A) : list (K * A) :=
  map_to_list
    (filter (fun kv => labelsOf kv.2 !! labelKey = Some labelValue) m).

Definition getNamespace (name : string) : M (error + gmap string string) :=
  clientGet (mkCall Get KNamespace "" name) (fun w => namespaces w !! name).

Definition updateNamespace (name : string) (labels : gmap string string)
    : M (option error) :=
  clientWrite (mkCall Update KNamespace "" name)
    (fun w => onPresent (namespaces w) name)
    (fun w => set_namespaces (<[name := labels]> (namespaces w)) w).

Definition listNamespaces (labelKey labelValue : string)
    : M (error + list (string * gmap string string)) :=
  clientList (mkCall (List labelKey labelValue) KNamespace "" "")
    (fun w => matching id labelKey labelValue (namespaces w)).

Definition getRole (namespace name : string) : M (error + Role) :=
  clientGet (mkCall Get KRole namespace name)
    (fun w => roles w !! (namespace, name)).

Definition createRole (namespace name : string) (role : Role)
    : M (option error) :=
  clientWrite (mkCall Create KRole namespace name)
    (fun w => onAbsent (roles w) (namespace, name))
    (fun w => set_roles (<[(namespace, name) := role]> (roles w)) w).

Definition updateRole (namespace name : string) (role : Role)
    : M (option error) :=
  clientWrite (mkCall Update KRole namespace name)
    (fun w => onPresent (roles w) (namespace, name))
    (fun w => set_roles (<[(namespace, name) := role]> (roles w)) w).

Definition getClusterRole (name : string) : M (error + ClusterRole) :=
  clientGet (mkCall Get KClusterRole "" name) (fun w => clusterRoles w !! name).

Definition createClusterRole (name : string) (obj : ClusterRole)
    : M (option error) :=
  clientWrite (mkCall Create KClusterRole "" name)
    (fun w => onAbsent (clusterRoles w) name)
    (fun w => set_clusterRoles (<[name := obj]> (clusterRoles w)) w).

Definition updateClusterRole (name : string) (obj : ClusterRole)
    : M (option error) :=
  clientWrite (mkCall Update KClusterRole "" name)
    (fun w => onPresent (clusterRoles w) name)
    (fun w => set_clusterRoles (<[name := obj]> (clusterRoles w)) w).

Definition deleteClusterRole (name : string) : M (option error) :=
  clientWrite (mkCall Delete KClusterRole "" name)
    (fun w => onPresent (clusterRoles w) name)
    (fun w => set_clusterRoles (delete name (clusterRoles w)) w).

Definition listClusterRoles (labelKey labelValue : string)
    : M (error + list (string * ClusterRole)) :=
  clientList (mkCall (List labelKey labelValue) KClusterRole "" "")
    (fun w => matching crLabels labelKey labelValue (clusterRoles w)).

Definition getClusterRoleBinding (name : string)
    : M (error + ClusterRoleBinding) :=
  clientGet (mkCall Get KClusterRoleBinding "" name)
    (fun w => clusterRoleBindings w !! name).

Definition createClusterRoleBinding (name : string) (obj : ClusterRoleBinding)
    : M (option error) :=
  clientWrite (mkCall Create KClusterRoleBinding "" name)
    (fun w => onAbsent (clusterRoleBindings w) name)
    (fun w => set_clusterRoleBindings (<[name := obj]> (clusterRoleBindings w)) w).

Definition updateClusterRoleBinding (name : string) (obj : ClusterRoleBinding)
    : M (option error) :=
  clientWrite (mkCall Update KClusterRoleBinding "" name)
    (fun w => onPresent (clusterRoleBindings w) name)
    (fun w => set_clusterRoleBindings (<[name := obj]> (clusterRoleBindings w)) w).

Definition deleteClusterRoleBinding (name : string) : M (option error) :=
  clientWrite (mkCall Delete KClusterRoleBinding "" name)
    (fun w => onPresent (clusterRoleBindings w) name)
    (fun w => set_clusterRoleBindings (delete name (clusterRoleBindings w)) w).

Definition listClusterRoleBindings (labelKey labelValue : string)
    : M (error + list (string * ClusterRoleBinding)) :=
  clientList (mkCall (List labelKey labelValue) KClusterRoleBinding "" "")
    (fun w => matching crbLabels labelKey labelValue (clusterRoleBindings w)).

Definition getServiceAccount (namespace name : string)
    : M (error + ServiceAccount) :=
  clientGet (mkCall Get KServiceAccount namespace name)
    (fun w => serviceAccounts w !! (namespace, name)).

Definition createServiceAccount (namespace name : string) (obj : ServiceAccount)
    : M (option error) :=
  clientWrite (mkCall Create KServiceAccount namespace name)
    (fun w => onAbsent (serviceAccounts w) (namespace, name))
    (fun w => set_serviceAccounts
                (<[(namespace, name) := obj]> (serviceAccounts w)) w).

Definition updateServiceAccount (namespace name : string) (obj : ServiceAccount)
    : M (option error) :=
  clientWrite (mkCall Update KServiceAccount namespace name)
    (fun w => onPresent (serviceAccounts w) (namespace, name))
    (fun w => set_serviceAccounts
                (<[(namespace, name) := obj]> (serviceAccounts w)) w).

Definition getClusterArgoCD (name : string) : M (error + ClusterArgoCD) :=
  clientGet (mkCall Get KClusterArgoCD "" name)
    (fun w => clusterArgoCDs w !! name).

(** The API server removes an object that is marked for deletion as soon
    as an update leaves it without finalizers. *)
Definition storeClusterArgoCD (obj : ClusterArgoCD)
    (m : gmap string ClusterArgoCD) : gmap string ClusterArgoCD :=
  match DeletionTimestamp obj, Finalizers obj with
  | Some _, [] => delete (Name obj) m
  | _, _ => <[Name obj := obj]> m
  end.

Definition updateClusterArgoCD (obj : ClusterArgoCD) : M (option error) :=
  clientWrite (mkCall Update KClusterArgoCD "" (Name obj))
    (fun w => onPresent (clusterArgoCDs w) (Name obj))
    (fun w => set_clusterArgoCDs (storeClusterArgoCD obj (clusterArgoCDs w)) w).

(** *** The three ways the sources pass an error on *)

(** [if err := f(); err != nil { return err }], then the rest. *)
Definition orReturn (f rest : M (option error)) : M (option error) :=
  let* err := f in
  match err with
  | Some err => ret (Some err)
  | None => rest
  end.

(** [if err := f(); err != nil { return fmt.Errorf(prefix + ": %w", err) }],
    then the rest. *)
Definition orWrap (prefix : string) (f rest : M (option error))
    : M (option error) :=
  let* err := f in
  match err with
  | Some err => ret (Some (Errorf prefix err))
  | None => rest
  end.

(** [if err := f(); err != nil { log.Info(err.Error()); return err }],
    then the rest. *)
Definition orLogReturn (f rest : M (option error)) : M (option error) :=
  let* err := f in
  match err with
  | Some err => logInfo (errText err) >> ret (Some err)
  | None => rest
  end.

(** *** What the sources take from outside the repository *)

(** The constants of package [common], which is not among the sources. *)
Record Common : Type := mkCommon {
  ArgoCDManagedByClusterArgoCDLabel : string;
  ArgoCDApplicationSetManagedByClusterArgoCDLabel : string;
  ArgoCDNotificationsManagedByClusterArgoCDLabel : string;
  ArgoCDKeyName : string;
  ArgoCDKeyPartOf : string;
  ArgoCDKeyManagedBy : string;
  ArgoCDAppName : string;
  ArgoCDServerComponent : string;
  ArgoCDApplicationControllerComponent : string;
  ArgoCDApplicationSetControllerComponent : string
}.

Section Controller.

Variable common : Common.

(** [labels.Parse] of apimachinery followed by [Selector.Matches]: a
    selector text either fails to parse or denotes a test on label
    sets. *)
Variable labelsParse : string -> option (gmap string string -> bool).

(** *** util.go *)

Definition ArgoCDDefaultNamespace : string := "argocd".
Definition ArgoCDRepoServerComponent : string := "repo-server".
Definition ArgoCDNotificationsControllerComponent : string :=
  "notifications-controller".

Definition getClusterArgoCDManagedByLabel (clusterArgoCD : ClusterArgoCD) : string :=
  Name clusterArgoCD.

Definition getClusterArgoCDManagedByLabelKey : string :=
  ArgoCDManagedByClusterArgoCDLabel common.

Definition getApplicationSetManagedByLabelKey : string :=
  ArgoCDApplicationSetManagedByClusterArgoCDLabel common.

Definition getNotificationsManagedByLabelKey : string :=
  ArgoCDNotificationsManagedByClusterArgoCDLabel common.

Definition generateResourceName (componentName : string)
    (clusterArgoCD : ClusterArgoCD) (targetNamespace : string) : string :=
  Name clusterArgoCD +:+ "-" +:+ targetNamespace +:+ "-" +:+ componentName.

Definition generateClusterRoleName (componentName : string)
    (clusterArgoCD : ClusterArgoCD) : string :=
  Name clusterArgoCD +:+ "-" +:+ componentName.

Definition getTargetNamespace (clusterArgoCD : ClusterArgoCD) : string :=
  if negb (String.eqb (ControlPlaneNamespace (Spec clusterArgoCD)) "")
  then ControlPlaneNamespace (Spec clusterArgoCD)
  else ArgoCDDefaultNamespace.

Definition getServiceAccountName (componentName : string)
    (clusterArgoCD : ClusterArgoCD) : string :=
  Name clusterArgoCD +:+ "-" +:+ componentName.

(** *** role.go *)

Definition getLabelsForClusterArgoCD (clusterArgoCD : ClusterArgoCD)
    : gmap string string :=
  <[ArgoCDKeyManagedBy common := ArgoCDAppName common]>
    (<[ArgoCDKeyPartOf common := ArgoCDAppName common]>
       (<[ArgoCDKeyName common := Name clusterArgoCD]> ∅)).

Definition getAnnotationsForClusterArgoCD (clusterArgoCD : ClusterArgoCD)
    : gmap string string := ∅.

Definition getApplicationControllerPolicyRules : list PolicyRule :=
  [ mkPolicyRule ["*"] ["*"] ["get"; "list"; "watch"];
    mkPolicyRule [""] ["events"] ["create"; "patch"] ].

Definition getServerPolicyRules : list PolicyRule :=
  [ mkPolicyRule ["*"] ["*"] ["get"; "list"; "watch"];
    mkPolicyRule [""] ["secrets"; "configmaps"] ["get"; "list"; "watch"] ].

(** [newClusterRole]: the name it gives the object, and the object. *)
Definition newClusterRole (name : string) (rules : list PolicyRule)
    (clusterArgoCD : ClusterArgoCD) : string * ClusterRole :=
  (generateClusterRoleName name clusterArgoCD,
   mkClusterRole (getLabelsForClusterArgoCD clusterArgoCD)
     (getAnnotationsForClusterArgoCD clusterArgoCD) rules).

Definition clusterRoleNeedsUpdate (existing desired : ClusterRole) : bool :=
  negb (length (crRules existing) =? length (crRules desired))%nat.

Definition reconcileClusterRole (componentName : string)
    (policyRules : list PolicyRule) (clusterArgoCD : ClusterArgoCD)
    : M (option error) :=
  let '(name, clusterRole) := newClusterRole componentName policyRules clusterArgoCD in
  let* r := getClusterRole name in
  match r with
  | inl err =>
      if negb (IsNotFound err) then
        ret (Some (Errorf ("failed to get ClusterRole " +:+ name) err))
      else
        logInfo "creating ClusterRole" >>
        let* err := createClusterRole name clusterRole in
        match err with
        | Some err =>
            ret (Some (Errorf ("failed to create ClusterRole " +:+ name) err))
        | None => ret None
        end
  | inr existingClusterRole =>
      if negb (clusterRoleNeedsUpdate existingClusterRole clusterRole) then
        ret None
      else
        logInfo "updating ClusterRole" >>
        let existingClusterRole :=
          mkClusterRole (crLabels clusterRole) (crAnnotations clusterRole)
            (crRules clusterRole) in
        let* err := updateClusterRole name existingClusterRole in
        match err with
        | Some err =>
            ret (Some (Errorf ("failed to update ClusterRole " +:+ name) err))
        | None => ret None
        end
  end.

Definition reconcileClusterRoles (clusterArgoCD : ClusterArgoCD)
    : M (option error) :=
  logInfo "reconciling ClusterRoles for ClusterArgoCD" >>
  orReturn (reconcileClusterRole (ArgoCDApplicationControllerComponent common)
              getApplicationControllerPolicyRules clusterArgoCD)
  (orReturn (reconcileClusterRole (ArgoCDServerComponent common)
               getServerPolicyRules clusterArgoCD)
  (ret None)).

Definition RoleRef_eqb (x y : RoleRef) : bool :=
  String.eqb (refAPIGroup x) (refAPIGroup y)
  && String.eqb (refKind x) (refKind y)
  && String.eqb (refName x) (refName y).

Definition clusterRoleBindingNeedsUpdate (existing desired : ClusterRoleBinding)
    : bool :=
  if negb (RoleRef_eqb (crbRoleRef existing) (crbRoleRef desired)) then true
  else if negb (length (crbSubjects existing) =? length (crbSubjects desired))%nat
  then true
  else false.

Definition reconcileClusterRoleBinding (componentName targetNamespace : string)
    (clusterArgoCD : ClusterArgoCD) : M (option error) :=
  let clusterRoleBindingName := generateClusterRoleName componentName clusterArgoCD in
  let clusterRoleName := generateClusterRoleName componentName clusterArgoCD in
  let serviceAccountName := getServiceAccountName componentName clusterArgoCD in
  let desiredClusterRoleBinding :=
    mkClusterRoleBinding (getLabelsForClusterArgoCD clusterArgoCD)
      (getAnnotationsForClusterArgoCD clusterArgoCD)
      (mkRoleRef "rbac.authorization.k8s.io" "ClusterRole" clusterRoleName)
      [mkSubject "ServiceAccount" serviceAccountName targetNamespace] in
  let* r := getClusterRoleBinding clusterRoleBindingName in
  match r with
  | inl err =>
      if negb (IsNotFound err) then
        ret (Some (Errorf ("failed to get ClusterRoleBinding "
                             +:+ clusterRoleBindingName) err))
      else
        logInfo "creating ClusterRoleBinding" >>
        let* err := createClusterRoleBinding clusterRoleBindingName
                      desiredClusterRoleBinding in
        match err with
        | Some err =>
            ret (Some (Errorf ("failed to create ClusterRoleBinding "
                                 +:+ clusterRoleBindingName) err))
        | None => ret None
        end
  | inr existingClusterRoleBinding =>
      if negb (clusterRoleBindingNeedsUpdate existingClusterRoleBinding
                 desiredClusterRoleBinding) then
        ret None
      else
        logInfo "updating ClusterRoleBinding" >>
        let* err := updateClusterRoleBinding clusterRoleBindingName
                      desiredClusterRoleBinding in
        match err with
        | Some err =>
            ret (Some (Errorf ("failed to update ClusterRoleBinding "
                                 +:+ clusterRoleBindingName) err))
        | None => ret None
        end
  end.

(** *** controllers/shared/service.go: service accounts *)

(** [for k, v := range desired { if existing[k] != v { return true } }] *)
Definition someValueDiffers (existing desired : gmap string string) : bool :=
  existsb (fun kv => negb (String.eqb (Go.index existing kv.1) kv.2))
    (map_to_list desired).

Definition serviceAccountNeedsUpdate (existing desired : ServiceAccount) : bool :=
  if negb (size (saLabels existing) =? size (saLabels desired))%nat then true
  else if someValueDiffers (saLabels existing) (saLabels desired) then true
  else if negb (size (saAnnotations existing) =? size (saAnnotations desired))%nat
  then true
  else if someValueDiffers (saAnnotations existing) (saAnnotations desired)
  then true
  else false.

Definition reconcileServiceAccount (componentName targetNamespace : string)
    (clusterArgoCD : ClusterArgoCD) : M (option error) :=
  let serviceAccountName := getServiceAccountName componentName clusterArgoCD in
  let desiredServiceAccount :=
    mkServiceAccount (getLabelsForClusterArgoCD clusterArgoCD)
      (getAnnotationsForClusterArgoCD clusterArgoCD) in
  let* r := getServiceAccount targetNamespace serviceAccountName in
  match r with
  | inl err =>
      if negb (IsNotFound err) then
        ret (Some (Errorf ("failed to get ServiceAccount " +:+ targetNamespace
                             +:+ "/" +:+ serviceAccountName) err))
      else
        logInfo "creating ServiceAccount" >>
        let* err := createServiceAccount targetNamespace serviceAccountName
                      desiredServiceAccount in
        match err with
        | Some err =>
            ret (Some (Errorf ("failed to create ServiceAccount "
                                 +:+ targetNamespace +:+ "/"
                                 +:+ serviceAccountName) err))
        | None => ret None
        end
  | inr existingServiceAccount =>
      if negb (serviceAccountNeedsUpdate existingServiceAccount
                 desiredServiceAccount) then
        ret None
      else
        logInfo "updating ServiceAccount" >>
        let* err := updateServiceAccount targetNamespace serviceAccountName
                      desiredServiceAccount in
        match err with
        | Some err =>
            ret (Some (Errorf ("failed to update ServiceAccount "
                                 +:+ targetNamespace +:+ "/"
                                 +:+ serviceAccountName) err))
        | None => ret None
        end
  end.

(** [enabled := true; if Spec.ApplicationSet.Enabled != nil { enabled = *... }]
    under [Spec.ApplicationSet != nil]. *)
Definition applicationSetEnabled (clusterArgoCD : ClusterArgoCD) : bool :=
  match ApplicationSet (Spec clusterArgoCD) with
  | Some appSet => default true (asEnabled appSet)
  | None => false
  end.

Definition reconcileServiceAccounts (clusterArgoCD : ClusterArgoCD)
    : M (option error) :=
  logInfo "reconciling ServiceAccounts for ClusterArgoCD" >>
  let targetNamespace := getTargetNamespace clusterArgoCD in
  orReturn (reconcileServiceAccount
              (ArgoCDApplicationControllerComponent common)
              targetNamespace clusterArgoCD)
  (orReturn (reconcileServiceAccount (ArgoCDServerComponent common)
               targetNamespace clusterArgoCD)
  (orReturn (reconcileServiceAccount ArgoCDRepoServerComponent
               targetNamespace clusterArgoCD)
  (orReturn (if applicationSetEnabled clusterArgoCD
             then reconcileServiceAccount
                    (ArgoCDApplicationSetControllerComponent common)
                    targetNamespace clusterArgoCD
             else ret None)
  (orReturn (if nEnabled (Notifications (Spec clusterArgoCD))
             then reconcileServiceAccount
                    ArgoCDNotificationsControllerComponent
                    targetNamespace clusterArgoCD
             else ret None)
  (ret None))))).

(** *** service.go, deployment.go, statefulset.go

    The reconcilers of the workloads of the control plane are log lines
    around a TODO; each returns [nil]. *)

Definition reconcileServerService : M (option error) :=
  logInfo "reconciling Server service" >>
  logInfo "Server service reconciliation not yet fully implemented" >>
  ret None.

Definition reconcileRepoServerService : M (option error) :=
  logInfo "reconciling Repo Server service" >>
  logInfo "Repo Server service reconciliation not yet fully implemented" >>
  ret None.

Definition reconcileApplicationControllerMetricsService : M (option error) :=
  logInfo "reconciling Application Controller metrics service" >>
  logInfo "Application Controller metrics service reconciliation not yet fully implemented" >>
  ret None.

Definition reconcileRedisService : M (option error) :=
  logInfo "reconciling Redis service" >>
  logInfo "Redis service reconciliation not yet fully implemented" >>
  ret None.

Definition reconcileServices (clusterArgoCD : ClusterArgoCD) : M (option error) :=
  logInfo "reconciling Services for ClusterArgoCD" >>
  orReturn reconcileServerService
  (orReturn reconcileRepoServerService
  (orReturn reconcileApplicationControllerMetricsService
  (orReturn reconcileRedisService
  (ret None)))).

Definition reconcileServerDeployment : M (option error) :=
  logInfo "reconciling Server deployment" >>
  logInfo "Server deployment reconciliation not yet fully implemented" >>
  ret None.

Definition reconcileRepoServerDeployment : M (option error) :=
  logInfo "reconciling Repo Server deployment" >>
  logInfo "Repo Server deployment reconciliation not yet fully implemented" >>
  ret None.

Definition reconcileApplicationControllerDeployment : M (option error) :=
  logInfo "reconciling Application Controller deployment" >>
  logInfo "Application Controller deployment reconciliation not yet fully implemented" >>
  ret None.

Definition reconcileApplicationSetDeployment : M (option error) :=
  logInfo "reconciling ApplicationSet Controller deployment" >>
  logInfo "ApplicationSet Controller deployment reconciliation not yet fully implemented" >>
  ret None.

Definition reconcileNotificationsDeployment : M (option error) :=
  logInfo "reconciling Notifications Controller deployment" >>
  logInfo "Notifications Controller deployment reconciliation not yet fully implemented" >>
  ret None.

Definition reconcileDeployments (clusterArgoCD : ClusterArgoCD) : M (option error) :=
  logInfo "reconciling Deployments for ClusterArgoCD" >>
  orReturn reconcileServerDeployment
  (orReturn reconcileRepoServerDeployment
  (orReturn reconcileApplicationControllerDeployment
  (orReturn (if applicationSetEnabled clusterArgoCD
             then reconcileApplicationSetDeployment else ret None)
  (orReturn (if nEnabled (Notifications (Spec clusterArgoCD))
             then reconcileNotificationsDeployment else ret None)
  (ret None))))).

Definition reconcileRedisStatefulSet (clusterArgoCD : ClusterArgoCD)
    : M (option error) :=
  logInfo "reconciling Redis StatefulSet" >>
  if HAEnabled (Spec clusterArgoCD) then
    logInfo "Skipping standalone Redis StatefulSet - HA is enabled" >>
    ret None
  else
    logInfo "Redis StatefulSet reconciliation not yet fully implemented" >>
    ret None.

Definition reconcileRedisHAStatefulSet : M (option error) :=
  logInfo "reconciling Redis HA StatefulSet" >>
  logInfo "Redis HA StatefulSet reconciliation not yet fully implemented" >>
  ret None.

Definition reconcileStatefulSets (clusterArgoCD : ClusterArgoCD) : M (option error) :=
  logInfo "reconciling StatefulSets for ClusterArgoCD" >>
  orReturn (reconcileRedisStatefulSet clusterArgoCD)
  (orReturn (if HAEnabled (Spec clusterArgoCD)
             then reconcileRedisHAStatefulSet else ret None)
  (ret None)).

(** *** reconcile_resources.go *)

Definition reconcileClusterRoleBindings (clusterArgoCD : ClusterArgoCD)
    : M (option error) :=
  logInfo "reconciling ClusterRoleBindings for ClusterArgoCD" >>
  let targetNamespace := getTargetNamespace clusterArgoCD in
  orReturn (reconcileClusterRoleBinding
              (ArgoCDApplicationControllerComponent common)
              targetNamespace clusterArgoCD)
  (orReturn (reconcileClusterRoleBinding (ArgoCDServerComponent common)
               targetNamespace clusterArgoCD)
  (ret None)).

Definition reconcileTargetNamespaceResources (clusterArgoCD : ClusterArgoCD)
    : M (option error) :=
  logInfo "reconciling Services" >>
  orReturn (reconcileServices clusterArgoCD)
  (logInfo "reconciling Deployments" >>
   orReturn (reconcileDeployments clusterArgoCD)
   (logInfo "reconciling StatefulSets" >>
    orReturn (reconcileStatefulSets clusterArgoCD)
    (ret None))).

Definition reconcileApplicationSetIntegration : M (option error) :=
  logInfo "integrating ApplicationSet controller with ClusterArgoCD" >>
  logInfo "ApplicationSet integration completed" >>
  ret None.

Definition reconcileNotificationsIntegration : M (option error) :=
  logInfo "integrating Notifications controller with ClusterArgoCD" >>
  logInfo "Notifications integration completed" >>
  ret None.

Definition reconcileArgoCDAgent : M (option error) :=
  logInfo "reconciling ArgoCD Agent for ClusterArgoCD" >>
  logInfo "ArgoCD Agent reconciliation not yet fully implemented" >>
  ret None.

Definition setPhase (phase : string) (status : ArgoCDStatus) : ArgoCDStatus :=
  mkStatus phase (RepoTLSChecksum status) (RedisTLSChecksum status).

(** [reconcileResources]; the [*ArgoCDStatus] it writes to is returned
    next to the error. *)
Definition reconcileResources (clusterArgoCD : ClusterArgoCD)
    (status : ArgoCDStatus) : M (option error * ArgoCDStatus) :=
  let* err :=
    logInfo "reconciling ClusterRoles" >>
    orLogReturn (reconcileClusterRoles clusterArgoCD)
    (logInfo "reconciling ClusterRoleBindings" >>
     orLogReturn (reconcileClusterRoleBindings clusterArgoCD)
     (logInfo "reconciling ServiceAccounts" >>
      orLogReturn (reconcileServiceAccounts clusterArgoCD)
      (logInfo "reconciling target namespace resources" >>
       orLogReturn (reconcileTargetNamespaceResources clusterArgoCD)
       (orReturn (if applicationSetEnabled clusterArgoCD
                  then logInfo "reconciling ApplicationSet controller integration" >>
                       reconcileApplicationSetIntegration
                  else ret None)
       (orReturn (if nEnabled (Notifications (Spec clusterArgoCD))
                  then logInfo "reconciling Notifications controller integration" >>
                       reconcileNotificationsIntegration
                  else ret None)
       (orReturn (if ArgoCDAgent (Spec clusterArgoCD)
                  then logInfo "reconciling ArgoCD Agent" >>
                       reconcileArgoCDAgent
                  else ret None)
       (ret None))))))) in
  match err with
  | Some err => ret (Some err, status)
  | None => ret (None, setPhase "Available" status)
  end.

(** *** sourcenamespace.go *)

Definition getServerSourceNamespacePolicyRules : list PolicyRule :=
  [ mkPolicyRule ["argoproj.io"] ["applications"]
      ["get"; "list"; "watch"; "create"; "update"; "patch"; "delete"];
    mkPolicyRule ["argoproj.io"] ["applicationsets"]
      ["get"; "list"; "watch"; "create"; "update"; "patch"; "delete"];
    mkPolicyRule ["argoproj.io"] ["appprojects"]
      ["get"; "list"; "watch"; "create"; "update"; "patch"; "delete"] ].

Definition createRoleInSourceNamespace (namespace : string)
    (clusterArgoCD : ClusterArgoCD) : M (option error) :=
  let roleName :=
    generateResourceName (ArgoCDServerComponent common) clusterArgoCD namespace in
  let role :=
    mkRole (getLabelsForClusterArgoCD clusterArgoCD)
      getServerSourceNamespacePolicyRules in
  let* r := getRole namespace roleName in
  match r with
  | inl err =>
      if negb (IsNotFound err) then ret (Some err)
      else
        logInfo "creating role in source namespace" >>
        createRole namespace roleName role
  | inr existingRole =>
      let existingRole := mkRole (roleLabels existingRole) (roleRules role) in
      updateRole namespace roleName existingRole
  end.

(** [m[k] = v] on a field that [reconcileSourceNamespaces] has made
    non-nil. *)
Definition track (k v : string) (m : option (gmap string string))
    : option (gmap string string) :=
  Some (<[k := v]> (default ∅ m)).

(** The loop of [reconcileApplicationSourceNamespaces]. *)
Fixpoint applicationSourceNamespacesLoop (clusterArgoCD : ClusterArgoCD)
    (sourceNamespaces : list string) : M (option error) :=
  match sourceNamespaces with
  | [] => ret None
  | namespace :: rest =>
      let managedByLabel := getClusterArgoCDManagedByLabel clusterArgoCD in
      let* r := getNamespace namespace in
      match r with
      | inl err =>
          if IsNotFound err then
            logInfo "source namespace not found" >>
            applicationSourceNamespacesLoop clusterArgoCD rest
          else
            ret (Some (Errorf ("failed to get namespace " +:+ namespace) err))
      | inr nsLabels =>
          let labelKey := getClusterArgoCDManagedByLabelKey in
          orWrap ("failed to update namespace " +:+ namespace +:+ " labels")
            (if negb (String.eqb (Go.index nsLabels labelKey) managedByLabel)
             then
               logInfo "adding managed-by label to namespace" >>
               updateNamespace namespace (<[labelKey := managedByLabel]> nsLabels)
             else ret None)
          (modify (fun w =>
             set_ManagedSourceNamespaces
               (track namespace (Name clusterArgoCD)
                  (ManagedSourceNamespaces w)) w) >>
           orWrap ("failed to create role in namespace " +:+ namespace)
             (createRoleInSourceNamespace namespace clusterArgoCD)
             (applicationSourceNamespacesLoop clusterArgoCD rest))
      end
  end.

Definition reconcileApplicationSourceNamespaces (clusterArgoCD : ClusterArgoCD)
    : M (option error) :=
  if (length (SourceNamespaces (Spec clusterArgoCD)) =? 0)%nat then ret None
  else
    applicationSourceNamespacesLoop clusterArgoCD
      (SourceNamespaces (Spec clusterArgoCD)).

(** The loops of [reconcileApplicationSetSourceNamespaces] and of
    [reconcileNotificationsSourceNamespaces] are the same text up to the
    label key, the log lines and the field that tracks the namespace. *)
Fixpoint labelSourceNamespacesLoop (labelKey notFoundMsg addingMsg : string)
    (trackIn : string -> string -> World -> World)
    (clusterArgoCD : ClusterArgoCD) (sourceNamespaces : list string)
    : M (option error) :=
  match sourceNamespaces with
  | [] => ret None
  | namespace :: rest =>
      let managedByLabel := getClusterArgoCDManagedByLabel clusterArgoCD in
      let* r := getNamespace namespace in
      match r with
      | inl err =>
          if IsNotFound err then
            logInfo notFoundMsg >>
            labelSourceNamespacesLoop labelKey notFoundMsg addingMsg trackIn
              clusterArgoCD rest
          else
            ret (Some (Errorf ("failed to get namespace " +:+ namespace) err))
      | inr nsLabels =>
          orWrap ("failed to update namespace " +:+ namespace +:+ " labels")
            (if negb (String.eqb (Go.index nsLabels labelKey) managedByLabel)
             then
               logInfo addingMsg >>
               updateNamespace namespace (<[labelKey := managedByLabel]> nsLabels)
             else ret None)
          (modify (trackIn namespace (Name clusterArgoCD)) >>
           labelSourceNamespacesLoop labelKey notFoundMsg addingMsg trackIn
             clusterArgoCD rest)
      end
  end.

Definition reconcileApplicationSetSourceNamespaces (clusterArgoCD : ClusterArgoCD)
    : M (option error) :=
  match ApplicationSet (Spec clusterArgoCD) with
  | None => ret None
  | Some appSet =>
      if (length (asSourceNamespaces appSet) =? 0)%nat then ret None
      else
        labelSourceNamespacesLoop getApplicationSetManagedByLabelKey
          "applicationset source namespace not found"
          "adding applicationset managed-by label to namespace"
          (fun namespace name w =>
             set_ManagedApplicationSetSourceNamespaces
               (track namespace name (ManagedApplicationSetSourceNamespaces w)) w)
          clusterArgoCD (asSourceNamespaces appSet)
  end.

Definition reconcileNotificationsSourceNamespaces (clusterArgoCD : ClusterArgoCD)
    : M (option error) :=
  let notifications := Notifications (Spec clusterArgoCD) in
  if negb (nEnabled notifications)
     || (length (nSourceNamespaces notifications) =? 0)%nat
  then ret None
  else
    labelSourceNamespacesLoop getNotificationsManagedByLabelKey
      "notifications source namespace not found"
      "adding notifications managed-by label to namespace"
      (fun namespace name w =>
         set_ManagedNotificationsSourceNamespaces
           (track namespace name (ManagedNotificationsSourceNamespaces w)) w)
      clusterArgoCD (nSourceNamespaces notifications).

(** [currentSourceNamespaces] of [cleanupUnmanagedSourceNamespaces]. *)
Definition currentSourceNamespaces (clusterArgoCD : ClusterArgoCD) : gset string :=
  list_to_set (SourceNamespaces (Spec clusterArgoCD))
  ∪ match ApplicationSet (Spec clusterArgoCD) with
    | Some appSet => list_to_set (asSourceNamespaces appSet)
    | None => ∅
    end
  ∪ (if nEnabled (Notifications (Spec clusterArgoCD))
     then list_to_set (nSourceNamespaces (Notifications (Spec clusterArgoCD)))
     else ∅).

(** The loop over [namespaceList.Items]: a failed update is logged and
    the loop goes on. *)
Fixpoint removeLabelsLoop (labelKey : string) (current : gset string)
    (items : list (string * gmap string string)) : M unit :=
  match items with
  | [] => ret tt
  | (name, nsLabels) :: rest =>
      (if negb (bool_decide (name ∈ current)) then
         logInfo "removing managed-by label from namespace" >>
         let* err := updateNamespace name (delete labelKey nsLabels) in
         match err with
         | Some err => logError "failed to remove label from namespace"
         | None => ret tt
         end
       else ret tt) >>
      removeLabelsLoop labelKey current rest
  end.

Definition cleanupUnmanagedSourceNamespaces (clusterArgoCD : ClusterArgoCD)
    : M (option error) :=
  let managedByLabel := getClusterArgoCDManagedByLabel clusterArgoCD in
  let labelKey := getClusterArgoCDManagedByLabelKey in
  let* r := listNamespaces labelKey managedByLabel in
  match r with
  | inl err => ret (Some (Errorf "failed to list managed namespaces" err))
  | inr items =>
      removeLabelsLoop labelKey (currentSourceNamespaces clusterArgoCD) items >>
      ret None
  end.

(** [make] of the three tracking maps that are nil. *)
Definition initMaps (w : World) : World :=
  set_ManagedNotificationsSourceNamespaces
    (Some (default ∅ (ManagedNotificationsSourceNamespaces w)))
    (set_ManagedApplicationSetSourceNamespaces
       (Some (default ∅ (ManagedApplicationSetSourceNamespaces w)))
       (set_ManagedSourceNamespaces
          (Some (default ∅ (ManagedSourceNamespaces w))) w)).

Definition reconcileSourceNamespaces (clusterArgoCD : ClusterArgoCD)
    : M (option error) :=
  logInfo "reconciling source namespaces for ClusterArgoCD" >>
  modify initMaps >>
  orWrap "failed to reconcile application source namespaces"
    (reconcileApplicationSourceNamespaces clusterArgoCD)
  (orWrap "failed to reconcile applicationset source namespaces"
     (reconcileApplicationSetSourceNamespaces clusterArgoCD)
  (orWrap "failed to reconcile notifications source namespaces"
     (reconcileNotificationsSourceNamespaces clusterArgoCD)
  (orWrap "failed to cleanup unmanaged source namespaces"
     (cleanupUnmanagedSourceNamespaces clusterArgoCD)
  (ret None)))).

(** *** clusterargocd_types.go and finalizer.go *)

Definition ArgoCDDeletionFinalizer : string := "argoproj.io/finalizer".

Definition IsDeletionFinalizerPresent (clusterArgoCD : ClusterArgoCD) : bool :=
  existsb (fun finalizer => String.eqb finalizer "argoproj.io/finalizer")
    (Finalizers clusterArgoCD).

Definition setFinalizers (finalizers : list string)
    (clusterArgoCD : ClusterArgoCD) : ClusterArgoCD :=
  mkClusterArgoCD (Name clusterArgoCD) (Labels clusterArgoCD) finalizers
    (DeletionTimestamp clusterArgoCD) (Spec clusterArgoCD) (Status clusterArgoCD).

(** [addDeletionFinalizer] and [removeDeletionFinalizer] change the
    object they are given; they return it next to the error. *)
Definition addDeletionFinalizer (clusterArgoCD : ClusterArgoCD)
    : M (option error * ClusterArgoCD) :=
  logInfo "adding deletion finalizer" >>
  let clusterArgoCD :=
    setFinalizers (Finalizers clusterArgoCD ++ [ArgoCDDeletionFinalizer])
      clusterArgoCD in
  let* err := updateClusterArgoCD clusterArgoCD in
  match err with
  | Some err =>
      ret (Some (Errorf ("failed to add deletion finalizer to ClusterArgoCD "
                           +:+ Name clusterArgoCD) err), clusterArgoCD)
  | None => ret (None, clusterArgoCD)
  end.

Definition removeDeletionFinalizer (clusterArgoCD : ClusterArgoCD)
    : M (option error * ClusterArgoCD) :=
  logInfo "removing deletion finalizer" >>
  let finalizers :=
    filter (fun finalizer => finalizer <> ArgoCDDeletionFinalizer)
      (Finalizers clusterArgoCD) in
  let clusterArgoCD := setFinalizers finalizers clusterArgoCD in
  let* err := updateClusterArgoCD clusterArgoCD in
  match err with
  | Some err =>
      ret (Some (Errorf ("failed to remove deletion finalizer from ClusterArgoCD "
                           +:+ Name clusterArgoCD) err), clusterArgoCD)
  | None => ret (None, clusterArgoCD)
  end.

(** The loop over [clusterRoleList.Items]. *)
Fixpoint deleteClusterRolesLoop (items : list (string * ClusterRole))
    : M (option error) :=
  match items with
  | [] => ret None
  | (name, _) :: rest =>
      logInfo "deleting ClusterRole" >>
      let* err := deleteClusterRole name in
      match err with
      | Some err =>
          if negb (IsNotFound err) then
            logError "failed to delete ClusterRole" >> ret (Some err)
          else deleteClusterRolesLoop rest
      | None => deleteClusterRolesLoop rest
      end
  end.

(** The loop over [clusterRoleBindingList.Items]. *)
Fixpoint deleteClusterRoleBindingsLoop (items : list (string * ClusterRoleBinding))
    : M (option error) :=
  match items with
  | [] => ret None
  | (name, _) :: rest =>
      logInfo "deleting ClusterRoleBinding" >>
      let* err := deleteClusterRoleBinding name in
      match err with
      | Some err =>
          if negb (IsNotFound err) then
            logError "failed to delete ClusterRoleBinding" >> ret (Some err)
          else deleteClusterRoleBindingsLoop rest
      | None => deleteClusterRoleBindingsLoop rest
      end
  end.

Definition deleteClusterResources (clusterArgoCD : ClusterArgoCD)
    : M (option error) :=
  logInfo "deleting cluster resources for ClusterArgoCD" >>
  let* r := listClusterRoles (ArgoCDKeyName common) (Name clusterArgoCD) in
  match r with
  | inl err =>
      logError "failed to list ClusterRoles for deletion" >> ret (Some err)
  | inr clusterRoleList =>
      orReturn (deleteClusterRolesLoop clusterRoleList)
      (let* r := listClusterRoleBindings (ArgoCDKeyName common)
                   (Name clusterArgoCD) in
       match r with
       | inl err =>
           logError "failed to list ClusterRoleBindings for deletion" >>
           ret (Some err)
       | inr clusterRoleBindingList =>
           orReturn (deleteClusterRoleBindingsLoop clusterRoleBindingList)
           (logInfo "successfully deleted all cluster resources" >>
            ret None)
       end)
  end.

(** The [emptyClusterArgoCD] literal: the name, an empty list of source
    namespaces, every other field at its zero value. *)
Definition emptyClusterArgoCD (name : string) : ClusterArgoCD :=
  mkClusterArgoCD name ∅ [] None
    (mkSpec "" [] None (mkNotificationsSpec false [] None) false false)
    (mkStatus "" "" "").

Definition cleanupAllSourceNamespaces (clusterArgoCD : ClusterArgoCD)
    : M (option error) :=
  logInfo "cleaning up all source namespaces" >>
  orWrap "failed to cleanup source namespaces"
    (cleanupUnmanagedSourceNamespaces (emptyClusterArgoCD (Name clusterArgoCD)))
    (ret None).

(** [len(key) > len(name) && key[:len(name)] == name] *)
Definition timerKeyOf (clusterArgoCDName key : string) : bool :=
  (String.length clusterArgoCDName <? String.length key)%nat
  && String.prefix clusterArgoCDName key.

Definition cleanupClusterInstanceTokenTimers (clusterArgoCDName : string)
    : M unit :=
  let* timers := get TokenRenewalTimers in
  match timers with
  | None => ret tt
  | Some timers =>
      logInfo "cleaning up token renewal timers" >>
      let keysToDelete :=
        filter (fun key => timerKeyOf clusterArgoCDName key = true)
          (map_to_list timers).*1 in
      modify (set_TokenRenewalTimers
                (Some (foldr delete timers keysToDelete)))
  end.

(** *** clusterargocd_controller.go *)

(** Bookkeeping of [ActiveClusterInstanceMap] at the start of a pass. The
    Prometheus counters updated next to it are not modelled. *)
Definition trackActiveInstance (name newPhase : string)
    (active : gmap string string) : gmap string string :=
  match active !! name with
  | None => if negb (String.eqb newPhase "") then <[name := newPhase]> active
            else active
  | Some oldPhase =>
      if negb (String.eqb oldPhase newPhase) then <[name := newPhase]> active
      else active
  end.

(** The block under [// Handle deletion], lines 181 to 211. *)
Definition handleDeletion (requestName : string) (clusterArgoCD : ClusterArgoCD)
    (argoCDStatus : ArgoCDStatus)
    : M (option error * ClusterArgoCD * ArgoCDStatus) :=
  let argoCDStatus := setPhase "Unknown" argoCDStatus in
  modify (fun w => set_ActiveClusterInstanceMap
                     (delete requestName (ActiveClusterInstanceMap w)) w) >>
  cleanupClusterInstanceTokenTimers requestName >>
  if IsDeletionFinalizerPresent clusterArgoCD then
    let* err := deleteClusterResources clusterArgoCD in
    match err with
    | Some err =>
        ret (Some (Errorf "failed to delete ClusterResources" err),
             clusterArgoCD, argoCDStatus)
    | None =>
        let* err := cleanupAllSourceNamespaces clusterArgoCD in
        match err with
        | Some err =>
            ret (Some (Errorf "failed to cleanup source namespaces" err),
                 clusterArgoCD, argoCDStatus)
        | None =>
            let* r := removeDeletionFinalizer clusterArgoCD in
            match r with
            | (Some err, clusterArgoCD) =>
                ret (Some err, clusterArgoCD, argoCDStatus)
            | (None, clusterArgoCD) =>
                ret (None, clusterArgoCD, argoCDStatus)
            end
        end
    end
  else ret (None, clusterArgoCD, argoCDStatus).

(** [internalReconcile] from line 138 on, once the instance has been
    read. *)
Definition reconcileInstance (requestName : string)
    (clusterArgoCD : ClusterArgoCD)
    : M (option error * ClusterArgoCD * ArgoCDStatus) :=
  let argoCDStatus :=
    mkStatus "" (RepoTLSChecksum (Status clusterArgoCD))
      (RedisTLSChecksum (Status clusterArgoCD)) in
  (match nReplicas (Notifications (Spec clusterArgoCD)) with
   | Some replicas =>
       if (1 <? replicas)%Z then
         logInfo "WARNING: Argo CD Notification controller does not support multiple replicas. Notification replicas cannot be greater than 1."
       else ret tt
   | None => ret tt
   end) >>
  let* selectorText := get LabelSelector in
  match labelsParse selectorText with
  | None =>
      logError "error parsing the labelSelector" >>
      ret (Some (mkError false "error parsing the labelSelector"),
           clusterArgoCD, argoCDStatus)
  | Some labelSelector =>
      if negb (labelSelector (Labels clusterArgoCD)) then
        logError "the ClusterArgoCD instance does not match the label selector and skipping for reconciliation" >>
        ret (Some (mkError false "the ClusterArgoCD instance does not match the label selector and skipping for reconciliation"),
             clusterArgoCD, argoCDStatus)
      else
        let newPhase := Phase (Status clusterArgoCD) in
        modify (fun w => set_ActiveClusterInstanceMap
                           (trackActiveInstance requestName newPhase
                              (ActiveClusterInstanceMap w)) w) >>
        match DeletionTimestamp clusterArgoCD with
        | Some _ => handleDeletion requestName clusterArgoCD argoCDStatus
        | None =>
            let* r :=
              if negb (IsDeletionFinalizerPresent clusterArgoCD)
              then addDeletionFinalizer clusterArgoCD
              else ret (None, clusterArgoCD) in
            match r with
            | (Some err, clusterArgoCD) =>
                ret (Some err, clusterArgoCD, argoCDStatus)
            | (None, clusterArgoCD) =>
                logInfo "reconciling source namespaces" >>
                let* err := reconcileSourceNamespaces clusterArgoCD in
                match err with
                | Some err => ret (Some err, clusterArgoCD, argoCDStatus)
                | None =>
                    logInfo "reconciling ClusterArgoCD resources" >>
                    let* r := reconcileResources clusterArgoCD argoCDStatus in
                    match r with
                    | (Some err, argoCDStatus) =>
                        ret (Some err, clusterArgoCD, argoCDStatus)
                    | (None, argoCDStatus) =>
                        ret (None, clusterArgoCD, argoCDStatus)
                    end
                end
            end
        end
  end.

(** [internalReconcile]; the [ctrl.Result] is always the empty result and
    is left out. *)
Definition internalReconcile (requestName : string)
    : M (option error * ClusterArgoCD * ArgoCDStatus) :=
  let argoCDStatus := mkStatus "" "" "" in
  logInfo "Reconciling ClusterArgoCD" >>
  let* r := getClusterArgoCD requestName in
  match r with
  | inl err =>
      let clusterArgoCD := emptyClusterArgoCD "" in
      if IsNotFound err then ret (None, clusterArgoCD, argoCDStatus)
      else ret (Some err, clusterArgoCD, argoCDStatus)
  | inr clusterArgoCD => reconcileInstance requestName clusterArgoCD
  end.

End Controller.

(** *** A cluster for the examples *)

(** Values for the constants of package [common]. *)
Definition exampleCommon : Common :=
  mkCommon "argocd.argoproj.io/managed-by-cluster-argocd"
    "argocd.argoproj.io/applicationset-managed-by-cluster-argocd"
    "argocd.argoproj.io/notifications-managed-by-cluster-argocd"
    "app.kubernetes.io/name" "app.kubernetes.io/part-of"
    "app.kubernetes.io/managed-by" "argocd"
    "argocd-server" "argocd-application-controller"
    "argocd-applicationset-controller".

(** The empty selector text selects everything; no other text is used. *)
Definition exampleParse (text : string) : option (gmap string string -> bool) :=
  if String.eqb text "" then Some (fun _ => true) else None.

Definition noFaults : nat -> Call -> bool := fun _ _ => false.

(** A store holding the given namespaces and instances and nothing else,
    behind a reconciler that has just started. *)
Definition startWorld (nss : gmap string (gmap string string))
    (instances : gmap string ClusterArgoCD)
    (timers : option (gmap string unit))
    (oracle : nat -> Call -> bool) : World :=
  mkWorld nss ∅ ∅ ∅ ∅ instances None None None "" timers ∅ oracle [].

Definition exampleSpec (sourceNamespaces appSetNamespaces : list string)
    : ClusterArgoCDSpec :=
  mkSpec "" sourceNamespaces
    (match appSetNamespaces with
     | [] => None
     | _ => Some (mkApplicationSetSpec None appSetNamespaces)
     end)
    (mkNotificationsSpec false [] None) false false.

Definition exampleInstance (name : string) (finalizers : list string)
    (deletion : option string) (spec : ClusterArgoCDSpec) : ClusterArgoCD :=
  mkClusterArgoCD name ∅ finalizers deletion spec (mkStatus "" "" "").

(** The calls of a trace, and those that write. *)
Definition callsOf (evs : list Event) : list (Call * CallResult) :=
  omap (fun e => match e with ECall c r => Some (c, r) | _ => None end) evs.

Definition isWrite (c : Call) : bool :=
  match verb c with
  | Create | Update | Delete => true
  | Get | List _ _ => false
  end.

Definition writesOf (evs : list Event) : list (Call * CallResult) :=
  filter (fun cr => isWrite cr.1 = true) (callsOf evs).

(** The API server marks an instance for deletion on a delete request
    and keeps it while it has finalizers. *)
Definition requestDeletion (name : string) (w : World) : World :=
  set_clusterArgoCDs
    (alter (fun obj =>
              mkClusterArgoCD (Name obj) (Labels obj) (Finalizers obj)
                (Some "now") (Spec obj) (Status obj))
       name (clusterArgoCDs w)) w.

(** *** Vocabulary of the properties *)

(** An oracle under which no call fails. *)
Definition quiet (oracle : nat -> Call -> bool) : Prop :=
  forall n c, oracle n c = false.

(** A call that the oracle made fail. *)
Definition injected (e : Event) : bool :=
  match e with
  | ECall _ Fault => true
  | _ => false
  end.

(** A change of the world that touches neither the trace, nor the oracle,
    nor the configuration of the reconciler. *)
Definition silent (f : World -> World) : Prop :=
  forall w, trace (f w) = trace w
            /\ faults (f w) = faults w
            /\ LabelSelector (f w) = LabelSelector w.

(** A computation only adds events to the trace, leaves the oracle and
    the configuration alone, and records a failure of the store's own
    only where the oracle asks for one; the events it adds satisfy [P]
    together with its result. *)
Definition Emits {A} (m : M A) (P : A -> list Event -> Prop) : Prop :=
  forall w, exists evs,
    trace (m w).2 = trace w ++ evs
    /\ faults (m w).2 = faults w
    /\ LabelSelector (m w).2 = LabelSelector w
    /\ (quiet (faults w) -> Forall (fun e => injected e = false) evs)
    /\ P (m w).1 evs.

(** A computation leaves a part of the world as it was. *)
Definition Keeps {A B} (f : World -> B) (m : M A) : Prop :=
  forall w, f (m w).2 = f w.

(** What a read adds to the trace, by its result. *)
Definition readShape {A} (c : Call) (r : error + A) (evs : list Event) : Prop :=
  match r with
  | inl err =>
      (IsNotFound err = false /\ evs = [ECall c Fault])
      \/ (IsNotFound err = true /\ evs = [ECall c NotFoundResult])
  | inr _ => evs = [ECall c Ok]
  end.

(** A call that went through, or that found nothing where the sources
    expect that nothing may be there: on a read and on a delete. *)
Definition callSucceeded (c : Call) (r : CallResult) : bool :=
  match r with
  | Ok => true
  | NotFoundResult =>
      match verb c with
      | Get | Delete => true
      | _ => false
      end
  | AlreadyExistsResult | Fault => false
  end.

Definition succeeded (e : Event) : bool :=
  match e with
  | ECall c r => callSucceeded c r
  | _ => true
  end.

Definition isCall (e : Event) : bool :=
  match e with
  | ECall _ _ => true
  | _ => false
  end.

(** Shape of a pass that stops at its first failed call: without an
    error every call succeeded; with an error the calls before the failed
    one succeeded and no call follows it. *)
Definition FailFast (err : option error) (evs : list Event) : Prop :=
  match err with
  | None => Forall (fun e => succeeded e = true) evs
  | Some _ =>
      exists pre c r post,
        evs = pre ++ ECall c r :: post
        /\ Forall (fun e => succeeded e = true) pre
        /\ callSucceeded c r = false
        /\ Forall (fun e => isCall e = false) post
  end.

(** The four steps of the deletion cascade. *)
Inductive Step : Type :=
| StepClaims
| StepClusterObjects
| StepTimers
| StepFinalizer.

Global Instance Step_eq_dec : EqDecision Step.
Proof. solve_decision. Defined.

(** The step an event belongs to: the line that opens a step, and the
    calls on the kind of object the step works on. *)
Definition stepOf (e : Event) : option Step :=
  match e with
  | ELog msg =>
      if String.eqb msg "cleaning up token renewal timers" then Some StepTimers
      else if String.eqb msg "deleting cluster resources for ClusterArgoCD"
      then Some StepClusterObjects
      else if String.eqb msg "cleaning up all source namespaces"
      then Some StepClaims
      else if String.eqb msg "removing deletion finalizer"
      then Some StepFinalizer
      else None
  | ELogError _ => None
  | ECall c _ =>
      match kind c, verb c with
      | KClusterRole, _ | KClusterRoleBinding, _ => Some StepClusterObjects
      | KNamespace, _ => Some StepClaims
      | KClusterArgoCD, Update => Some StepFinalizer
      | _, _ => None
      end
  end.

Definition stepsOf (evs : list Event) : list Step := omap stepOf evs.


(** The order of the sources: timers, cluster objects, claims,
    finalizer. *)
Definition codeRank (s : Step) : nat :=
  match s with
  | StepTimers => 1
  | StepClusterObjects => 2
  | StepClaims => 3
  | StepFinalizer => 4
  end.

(** No step of a lower rank comes after a step of a higher rank. *)
Fixpoint rankedFrom (rank : Step -> nat) (lo : nat) (l : list Step) : bool :=
  match l with
  | [] => true
  | s :: l' => (lo <=? rank s)%nat && rankedFrom rank (rank s) l'
  end.


(** A failed call other than the removal of a label from a namespace. *)
Definition abortingFailure (e : Event) : bool :=
  match e with
  | ECall c r =>
      negb (callSucceeded c r)
      && negb (match kind c, verb c with
               | KNamespace, Update => true
               | _, _ => false
               end)
  | _ => false
  end.

(** *** Scenarios *)

(** One pass of the controller on the example cluster. *)
Definition pass (name : string) (w : World)
    : (option error * ClusterArgoCD * ArgoCDStatus) * World :=
  internalReconcile exampleCommon exampleParse name w.

Definition passError (name : string) (w : World) : option error :=
  (pass name w).1.1.1.

Definition afterPass (name : string) (w : World) : World :=
  (pass name w).2.

(** The events of a pass. *)
Definition passEvents (name : string) (w : World) : list Event :=
  drop (length (trace w)) (trace (afterPass name w)).

Definition labelOf (w : World) (namespace labelKey : string) : option string :=
  namespaces w !! namespace ≫= fun labels => labels !! labelKey.

(** Scenario B of the specification, with the namespace in the list of
    application source namespaces: [ns1] carries the claim of instance
    [a], and instance [b] lists it. *)
Definition claimedByOther : World :=
  startWorld
    {[ "ns1" := {[ "argocd.argoproj.io/managed-by-cluster-argocd" := "a" ]} ]}
    {[ "b" := exampleInstance "b" [ArgoCDDeletionFinalizer] None
                (exampleSpec ["ns1"] []) ]}
    None noFaults.

(** Scenario B as the specification words it: [ns1] carries the claim
    of instance [a], and instance [b] lists it for application sets
    only. *)
Definition claimedByOtherAppSet : World :=
  startWorld
    {[ "ns1" := {[ "argocd.argoproj.io/managed-by-cluster-argocd" := "a" ]} ]}
    {[ "b" := exampleInstance "b" [ArgoCDDeletionFinalizer] None
                (exampleSpec [] ["ns1"]) ]}
    None noFaults.

(** [ns1] carries no claim and instance [b] lists it for application sets
    only. *)
Definition appSetOnly : World :=
  startWorld {[ "ns1" := ∅ ]}
    {[ "b" := exampleInstance "b" [ArgoCDDeletionFinalizer] None
                (exampleSpec [] ["ns1"]) ]}
    None noFaults.

(** Scenario C: instance [b] lists three namespaces for applications and
    the first of them for application sets too. *)
Definition threeNamespaces (timers : option (gmap string unit))
    (oracle : nat -> Call -> bool) : World :=
  startWorld {[ "ns1" := ∅; "ns2" := ∅; "ns3" := ∅ ]}
    {[ "b" := exampleInstance "b" [ArgoCDDeletionFinalizer] None
                (exampleSpec ["ns1"; "ns2"; "ns3"] ["ns1"]) ]}
    timers oracle.

(** The same cluster once [b] has been reconciled and its deletion has
    been requested. *)
Definition threeNamespacesDeleting : World :=
  requestDeletion "b" (afterPass "b" (threeNamespaces None noFaults)).


(** The store fails every update of the namespace [ns1]. *)
Definition updateOfNs1Fails : nat -> Call -> bool :=
  fun _ c =>
    match verb c, kind c with
    | Update, KNamespace => String.eqb (callName c) "ns1"
    | _, _ => false
    end.

(** The store fails every read of a ClusterRole. *)
Definition clusterRoleReadFails : nat -> Call -> bool :=
  fun _ c =>
    match verb c, kind c with
    | Get, KClusterRole => true
    | _, _ => false
    end.


(** An event that belongs to step [s] or to no step. *)
Definition inStep (s : Step) (e : Event) : bool :=
  match stepOf e with
  | None => true
  | Some s' => bool_decide (s' = s)
  end.

(** A step of the cascade that can fail: its events belong to the step;
    when it returns no error, none of its calls failed but, possibly,
    removals of a label; and it returns no error unless the oracle made
    one of its calls fail. *)
Definition CascadeStep (s : Step) (err : option error) (evs : list Event)
    : Prop :=
  Forall (fun e => inStep s e = true) evs
  /\ (err = None -> Forall (fun e => abortingFailure e = false) evs)
  /\ (Forall (fun e => injected e = false) evs -> err = None).

(** Events of the release of the claims, none of which aborts. *)
Definition claimsOnly (evs : list Event) : Prop :=
  Forall (fun e => inStep StepClaims e = true) evs
  /\ Forall (fun e => abortingFailure e = false) evs.

(** An error that is passed on with log lines only. *)
Definition failedQuietly (r : option error) (evs : list Event) : Prop :=
  is_Some r /\ Forall (fun e => isCall e = false) evs.

(** The same, where the log lines open no step of the cascade. *)
Definition failedAside (r : option error) (evs : list Event) : Prop :=
  is_Some r
  /\ Forall (fun e => isCall e = false /\ stepOf e = None) evs.

End Cluster.
(** ** controllers/clusterargocd: the objects a pass wants in the store *)

Module ClusterStore.
Import Cluster.

Section Desired.
Variable common : Common.

(** The [desiredClusterRoleBinding] literal of
    [reconcileClusterRoleBinding]. *)
Definition desiredClusterRoleBinding (componentName targetNamespace : string)
    (clusterArgoCD : ClusterArgoCD) : ClusterRoleBinding :=
  mkClusterRoleBinding (getLabelsForClusterArgoCD common clusterArgoCD)
    (getAnnotationsForClusterArgoCD clusterArgoCD)
    (mkRoleRef "rbac.authorization.k8s.io" "ClusterRole"
       (generateClusterRoleName componentName clusterArgoCD))
    [mkSubject "ServiceAccount"
       (getServiceAccountName componentName clusterArgoCD) targetNamespace].

(** The [desiredServiceAccount] literal of [reconcileServiceAccount]; it
    is the same for every component. *)
Definition desiredServiceAccount (clusterArgoCD : ClusterArgoCD)
    : ServiceAccount :=
  mkServiceAccount (getLabelsForClusterArgoCD common clusterArgoCD)
    (getAnnotationsForClusterArgoCD clusterArgoCD).

(** The store holds, under the name of the component, a ClusterRole with
    [n] rules: [clusterRoleNeedsUpdate] looks at nothing else. *)
Definition settledClusterRole (componentName : string) (n : nat)
    (clusterArgoCD : ClusterArgoCD) (w : World) : Prop :=
  exists existing,
    clusterRoles w !! generateClusterRoleName componentName clusterArgoCD
      = Some existing
    /\ length (crRules existing) = n.

Definition settledClusterRoleBinding (componentName targetNamespace : string)
    (clusterArgoCD : ClusterArgoCD) (w : World) : Prop :=
  exists existing,
    clusterRoleBindings w !! generateClusterRoleName componentName clusterArgoCD
      = Some existing
    /\ clusterRoleBindingNeedsUpdate existing
         (desiredClusterRoleBinding componentName targetNamespace clusterArgoCD)
       = false.

Definition settledServiceAccount (componentName targetNamespace : string)
    (clusterArgoCD : ClusterArgoCD) (w : World) : Prop :=
  exists existing,
    serviceAccounts w
      !! (targetNamespace, getServiceAccountName componentName clusterArgoCD)
      = Some existing
    /\ serviceAccountNeedsUpdate existing (desiredServiceAccount clusterArgoCD)
       = false.

(** The components [reconcileServiceAccounts] gives a ServiceAccount,
    last first. *)
Definition serviceAccountComponents (clusterArgoCD : ClusterArgoCD)
    : list string :=
  (if nEnabled (Notifications (Spec clusterArgoCD))
   then [ArgoCDNotificationsControllerComponent] else [])
  ++ (if applicationSetEnabled clusterArgoCD
      then [ArgoCDApplicationSetControllerComponent common] else [])
  ++ [ArgoCDRepoServerComponent; ArgoCDServerComponent common;
      ArgoCDApplicationControllerComponent common].

(** Every object that [reconcileResources] looks after is in the store
    and passes for up to date. *)
Definition Settled (clusterArgoCD : ClusterArgoCD) (w : World) : Prop :=
  Forall (fun componentName =>
            settledClusterRole componentName 2 clusterArgoCD w)
    [ArgoCDServerComponent common; ArgoCDApplicationControllerComponent common]
  /\ Forall (fun componentName =>
               settledClusterRoleBinding componentName
                 (getTargetNamespace clusterArgoCD) clusterArgoCD w)
       [ArgoCDServerComponent common;
        ArgoCDApplicationControllerComponent common]
  /\ Forall (fun componentName =>
               settledServiceAccount componentName
                 (getTargetNamespace clusterArgoCD) clusterArgoCD w)
       (serviceAccountComponents clusterArgoCD).

End Desired.

(** A run that returns no error, makes no write and leaves the world as
    it was but for the trace. *)
Definition ReadOnlyAt (m : M (option error)) (w : World) : Prop :=
  exists evs,
    m w = (None, set_trace (trace w ++ evs) w) /\ writesOf evs = [].

(** From a world where [P] holds and no call fails, a run returns no
    error and ends in a world where [Q] holds. *)
Definition Settles (m : M (option error)) (P Q : World -> Prop) : Prop :=
  forall w, quiet (faults w) -> P w ->
    exists w', m w = (None, w') /\ quiet (faults w') /\ Q w'.

(** A property of the store, which no line of the trace changes. *)
Definition TraceBlind (P : World -> Prop) : Prop :=
  forall w t, P w -> P (set_trace t w).

End ClusterStore.


(** * Properties of pkg/component/util.go *)

Section AddKubernetesData.
Import Util.

Lemma addKubernetesDataStep_lookup key value source k :
  addKubernetesDataStep key value source !! k =
    match source !! k with
    | Some v => Some v
    | None =>
        if decide (key = k)
        then (if glob.MatchStringInList patterns k then Some value else None)
        else None
    end.
Proof.
  unfold addKubernetesDataStep.
  destruct (decide (key = k)) as [->|Hne].
  - destruct (glob.MatchStringInList patterns k);
      destruct (source !! k) eqn:E; rewrite ?E; try done.
    by rewrite lookup_insert_eq.
  - destruct (glob.MatchStringInList patterns key); [|by destruct (source !! k)].
    destruct (source !! key); [by destruct (source !! k)|].
    rewrite lookup_insert_ne by done. by destruct (source !! k).
Qed.

(** *** The patterns as a test for a substring *)

Lemma matchChars_star_any (text : list ascii) :
  glob.matchChars ["*"%char] text = true.
Proof. induction text as [|c text IH]; [done|]. cbn in *. by rewrite IH. Qed.

(** A pattern that ends in [*] after literal characters matches the
    texts that start with these characters. *)
Lemma matchChars_literal_star (lit : list ascii) :
  Forall (fun c => c <> "*"%char) lit ->
  forall text : string,
    glob.matchChars (lit ++ ["*"%char]) (list_ascii_of_string text)
    = String.prefix (string_of_list_ascii lit) text.
Proof.
  induction 1 as [|c lit Hc _ IH]; intros text.
  - cbn [app string_of_list_ascii]. rewrite matchChars_star_any.
    by destruct text.
  - cbn [app string_of_list_ascii glob.matchChars].
    rewrite (proj2 (Ascii.eqb_neq c "*") Hc).
    destruct text as [|d text]; [done|].
    cbn [list_ascii_of_string String.prefix]. rewrite IH.
    destruct (ascii_dec c d) as [->|Hne].
    + by rewrite Ascii.eqb_refl.
    + by rewrite (proj2 (Ascii.eqb_neq c d) Hne).
Qed.

(** A leading [*] lets the rest of the pattern start anywhere. *)
Lemma matchChars_star (pattern text : list ascii) :
  glob.matchChars ("*"%char :: pattern) text
  = glob.matchChars pattern text
    || match text with
       | [] => false
       | _ :: text' => glob.matchChars ("*"%char :: pattern) text'
       end.
Proof. by destruct text. Qed.

Lemma matchChars_contains (lit : list ascii) (text : string) :
  Forall (fun c => c <> "*"%char) lit ->
  glob.matchChars ("*"%char :: lit ++ ["*"%char]) (list_ascii_of_string text)
  = Go.Contains text (string_of_list_ascii lit).
Proof.
  intros Hlit. induction text as [|c text IH].
  - rewrite matchChars_star, (matchChars_literal_star lit Hlit ""). done.
  - rewrite matchChars_star. cbn [list_ascii_of_string] in *.
    change (c :: list_ascii_of_string text)
      with (list_ascii_of_string (String c text)).
    rewrite (matchChars_literal_star lit Hlit (String c text)).
    cbn [list_ascii_of_string]. rewrite IH. done.
Qed.

Lemma list_ascii_of_string_app (a b : string) :
  list_ascii_of_string (a +:+ b)
  = list_ascii_of_string a ++ list_ascii_of_string b.
Proof.
  induction a as [|c a IH]; [done|].
  change (c :: list_ascii_of_string (a +:+ b)
          = c :: list_ascii_of_string a ++ list_ascii_of_string b).
  by rewrite IH.
Qed.

Ltac literal := repeat (constructor; [discriminate|]); constructor.

(** The patterns of [addKubernetesData] select the keys that hold a
    reserved domain, wherever in the key it stands. *)
Lemma MatchStringInList_patterns (key : string) :
  glob.MatchStringInList patterns key = containsReserved key.
Proof.
  assert (forall domain : string,
            Forall (fun c => c <> "*"%char) (list_ascii_of_string domain) ->
            Go.Contains ("*" +:+ domain +:+ "*") domain = true ->
            String.eqb key ("*" +:+ domain +:+ "*")
            || glob.Match ("*" +:+ domain +:+ "*") key
            = Go.Contains key domain) as Hone.
  { intros domain Hlit Hself. unfold glob.Match.
    assert (list_ascii_of_string ("*" +:+ domain +:+ "*")
            = "*"%char :: list_ascii_of_string domain ++ ["*"%char]) as ->.
    { by rewrite !list_ascii_of_string_app. }
    rewrite (matchChars_contains _ key Hlit), string_of_list_ascii_of_string.
    destruct (String.eqb_spec key ("*" +:+ domain +:+ "*")) as [->|_]; [|done].
    by rewrite Hself. }
  unfold glob.MatchStringInList, patterns, containsReserved, reserved.
  cbn [existsb].
  rewrite <- (Hone "kubernetes.io"), <- (Hone "k8s.io"), <- (Hone "openshift.io");
    first [done | literal].
Qed.

(** C10. The claim fails for a key that holds a reserved domain after
    its prefix: the prefix of [example.com/kubernetes.io-owner] is
    [example.com], which holds no reserved domain, and the key starts
    with none; the merge copies the key all the same. *)
Lemma addKubernetesData_copies_key_without_reserved_prefix :
  labelPrefix "example.com/kubernetes.io-owner" = "example.com"
  /\ containsReserved "example.com" = false
  /\ startsWithReserved "example.com/kubernetes.io-owner" = false
  /\ addKubernetesData ∅ {[ "example.com/kubernetes.io-owner" := "ops" ]}
       !! "example.com/kubernetes.io-owner" = Some "ops".
Proof. vm_compute. by repeat split. Qed.

(** C10 (amended). After the merge, a key of the desired map keeps its
    desired value; a key absent from the desired map is copied from the
    live map exactly when it holds one of the reserved domains
    (kubernetes.io, k8s.io, openshift.io) anywhere in it; no other key
    appears. *)
Theorem addKubernetesData_merge (source live : gmap string string) (key : string) :
  addKubernetesData source live !! key =
    match source !! key with
    | Some v => Some v
    | None => if containsReserved key then live !! key else None
    end.
Proof.
  rewrite <- MatchStringInList_patterns. unfold addKubernetesData.
  apply (map_fold_weak_ind (fun r m =>
    r !! key = match source !! key with
               | Some v => Some v
               | None => if glob.MatchStringInList patterns key
                         then m !! key else None
               end)).
  - rewrite lookup_empty. destruct (source !! key); [done|].
    by destruct (glob.MatchStringInList patterns key).
  - intros i x m r Hi IH. rewrite addKubernetesDataStep_lookup, IH.
    destruct (source !! key); [done|].
    destruct (decide (i = key)) as [->|Hne].
    + rewrite lookup_insert_eq, Hi.
      by destruct (glob.MatchStringInList patterns key).
    + rewrite lookup_insert_ne by done.
      destruct (glob.MatchStringInList patterns key); [|done].
      by destruct (m !! key).
Qed.

End AddKubernetesData.

Section AppendUniqueArgs.
Import Util.



(** The loops look one element ahead, so lists are taken two elements
    at a time. *)
Lemma list_ind2 {A} (P : list A -> Prop) :
  P [] -> (forall x, P [x]) ->
  (forall x y l, P l -> P (y :: l) -> P (x :: y :: l)) ->
  forall l, P l.
Proof.
  intros H0 H1 H2 l. cut (P l /\ forall x, P (x :: l)); [tauto|].
  induction l as [|y l [IHa IHb]]; split; auto.
Qed.

Lemma cmdLoop_tokens l : forall st,
  cmdLoop l st = fold_left cmdStep (tokens l) st.
Proof.
  induction l as [|x|x y l IH1 IH2] using list_ind2; intros st.
  - done.
  - simpl. by destruct (Go.HasPrefix x "--").
  - change (cmdLoop (x :: y :: l) st) with
      (if Go.HasPrefix x "--" then
         if negb (Go.HasPrefix y "--") then cmdLoop l (cmdFlag x y st)
         else cmdLoop (y :: l) (cmdFlag x "" st)
       else cmdLoop (y :: l) (plainArg x st)).
    change (tokens (x :: y :: l)) with
      (if Go.HasPrefix x "--" then
         if negb (Go.HasPrefix y "--") then Flag x y :: tokens l
         else Flag x "" :: tokens (y :: l)
       else Plain x :: tokens (y :: l)).
    destruct (Go.HasPrefix x "--"); [destruct (negb (Go.HasPrefix y "--"))|];
      simpl fold_left; by rewrite ?IH1, ?IH2.
Qed.

Lemma extraLoop_tokens l : forall st,
  extraLoop l st = fold_left extraStep (tokens l) st.
Proof.
  induction l as [|x|x y l IH1 IH2] using list_ind2; intros st.
  - done.
  - simpl. by destruct (Go.HasPrefix x "--").
  - change (extraLoop (x :: y :: l) st) with
      (if Go.HasPrefix x "--" then
         if negb (Go.HasPrefix y "--") then extraLoop l (extraFlag x y st)
         else extraLoop (y :: l) (extraFlag x "" st)
       else extraLoop (y :: l) (plainArg x st)).
    change (tokens (x :: y :: l)) with
      (if Go.HasPrefix x "--" then
         if negb (Go.HasPrefix y "--") then Flag x y :: tokens l
         else Flag x "" :: tokens (y :: l)
       else Plain x :: tokens (y :: l)).
    destruct (Go.HasPrefix x "--"); [destruct (negb (Go.HasPrefix y "--"))|];
      simpl fold_left; by rewrite ?IH1, ?IH2.
Qed.

Lemma appendUniqueArgs_fold cmd extraArgs :
  appendUniqueArgs cmd extraArgs =
    result (fold_left extraStep (tokens extraArgs)
              (fold_left cmdStep (tokens cmd) initArgState)).
Proof.
  unfold appendUniqueArgs. by rewrite extraLoop_tokens, cmdLoop_tokens.
Qed.


Lemma tokens_wf l : Forall wfToken (tokens l).
Proof.
  induction l as [|x|x y l IH1 IH2] using list_ind2.
  - constructor.
  - simpl. destruct (Go.HasPrefix x "--") eqn:E; repeat constructor; done.
  - change (tokens (x :: y :: l)) with
      (if Go.HasPrefix x "--" then
         if negb (Go.HasPrefix y "--") then Flag x y :: tokens l
         else Flag x "" :: tokens (y :: l)
       else Plain x :: tokens (y :: l)).
    destruct (Go.HasPrefix x "--") eqn:Ex;
      [destruct (Go.HasPrefix y "--") eqn:Ey|]; simpl;
      constructor; simpl; auto.
Qed.

(** *** Counting occurrences *)

Lemma prefix_ne f v :
  Go.HasPrefix f "--" = true -> Go.HasPrefix v "--" = false -> f <> v.
Proof. intros Hf Hv ->. congruence. Qed.

Lemma occurrences_nil x : occurrences x [] = 0.
Proof. done. Qed.

Lemma occurrences_cons x y l :
  occurrences x (y :: l) =
    (if decide (y = x) then 1 else 0) + occurrences x l.
Proof.
  unfold occurrences. rewrite filter_cons.
  by destruct (decide (y = x)).
Qed.

Lemma occurrences_app x l1 l2 :
  occurrences x (l1 ++ l2) = occurrences x l1 + occurrences x l2.
Proof. unfold occurrences. by rewrite filter_app, length_app. Qed.

Lemma occurrences_add x flag val l :
  val <> x ->
  occurrences x (add flag val l) =
    occurrences x l + (if decide (flag = x) then 1 else 0).
Proof.
  intros Hv. unfold add. rewrite !occurrences_app, occurrences_cons.
  rewrite occurrences_nil.
  destruct (String.eqb val ""); [rewrite occurrences_nil; lia|].
  rewrite occurrences_cons, occurrences_nil.
  destruct (decide (val = x)); [done|]. lia.
Qed.









(** *** The first loop *)

Lemma cmdStep_absent f t st :
  Go.HasPrefix f "--" = true -> wfToken t -> flagOf t <> Some f ->
  Absent f st -> Absent f (cmdStep st t).
Proof.
  intros Hf Hwf Hne (Hn & Hr & Ho). destruct t as [g v|a]; simpl in *.
  - destruct Hwf as [Hg Hv]. assert (g <> f) by congruence.
    repeat split; simpl.
    + rewrite not_elem_of_union, not_elem_of_singleton. auto.
    + unfold markRepeated. by rewrite lookup_insert_ne.
    + rewrite occurrences_add, Ho by (apply not_eq_sym; by apply prefix_ne).
      by destruct (decide (g = f)).
  - repeat split; simpl; try done.
    rewrite occurrences_app, Ho, occurrences_cons.
    destruct (decide (a = f)) as [->|]; [congruence|done].
Qed.



Lemma omap_flagOf_cons f t ts :
  occurrences f (omap flagOf (t :: ts)) =
    (if decide (flagOf t = Some f) then 1 else 0)
    + occurrences f (omap flagOf ts).
Proof.
  simpl. destruct (flagOf t) as [g|] eqn:E.
  - rewrite occurrences_cons.
    destruct (decide (g = f)) as [Hg|Hg];
      destruct (decide (Some g = Some f)) as [Hs|Hs]; try done.
    + destruct Hs. by f_equal.
    + destruct Hg. by injection Hs.
  - by destruct (decide (None = Some f)).
Qed.

Lemma cmd_fold_absent f ts : forall st,
  Go.HasPrefix f "--" = true -> Forall wfToken ts ->
  occurrences f (omap flagOf ts) = 0 ->
  Absent f st -> Absent f (fold_left cmdStep ts st).
Proof.
  induction ts as [|t ts IH]; intros st Hf Hwf Hocc Hst; [done|].
  rewrite omap_flagOf_cons in Hocc. inversion_clear Hwf.
  destruct (decide (flagOf t = Some f)); [lia|].
  simpl. apply IH; auto using cmdStep_absent.
Qed.



Lemma initArgState_absent f : Absent f initArgState.
Proof. repeat split; simpl; [apply not_elem_of_empty|done..]. Qed.

(** *** The second loop *)









Lemma flagsOf_prefix f l :
  0 < occurrences f (flagsOf l) -> Go.HasPrefix f "--" = true.
Proof.
  unfold flagsOf. pose proof (tokens_wf l) as Hwf.
  induction Hwf as [|t ts Ht _ IH]; [rewrite occurrences_nil; lia|].
  rewrite omap_flagOf_cons.
  destruct (decide (flagOf t = Some f)) as [E|]; [|done].
  intros _. destruct t as [g v|a]; [|done].
  simpl in E. injection E as ->. by destruct Ht.
Qed.




End AppendUniqueArgs.

(** * Properties of controllers/shared/redis.go *)

Section RedisDeployment.
Import Redis.

Context {ArgsT EnvT ResourcesT SecurityContextT PodSecurityContextT
         NodeSelectorT TolerationsT : Type}.
Context `{!EqDecision ArgsT, !EqDecision EnvT, !EqDecision ResourcesT,
          !EqDecision SecurityContextT, !EqDecision PodSecurityContextT,
          !EqDecision NodeSelectorT, !EqDecision TolerationsT}.

Abbreviation ContainerT := (Container ArgsT EnvT ResourcesT SecurityContextT).
Abbreviation DeploymentT :=
  (Deployment ArgsT EnvT ResourcesT SecurityContextT PodSecurityContextT
     NodeSelectorT TolerationsT).
Abbreviation diffT :=
  (diff ArgsT EnvT ResourcesT SecurityContextT PodSecurityContextT
     NodeSelectorT TolerationsT).

Lemma string_append_assoc (a b c : string) :
  (a +:+ b) +:+ c = a +:+ (b +:+ c).
Proof.
  induction a as [|x a IH]; [done|].
  change (String x ((a +:+ b) +:+ c) = String x (a +:+ b +:+ c)).
  by rewrite IH.
Qed.

Lemma concat_snoc sep (ns : list string) (n : string) :
  String.concat sep (ns ++ [n]) =
    match ns with
    | [] => n
    | _ => String.concat sep ns +:+ sep +:+ n
    end.
Proof.
  induction ns as [|x xs IH]; [done|].
  destruct xs as [|y xs]; [done|].
  change (String.concat sep ((x :: y :: xs) ++ [n]))
    with (x +:+ sep +:+ String.concat sep ((y :: xs) ++ [n])).
  rewrite IH.
  change (String.concat sep (x :: y :: xs))
    with (x +:+ sep +:+ String.concat sep (y :: xs)).
  by rewrite !string_append_assoc.
Qed.

Lemma noteChange_noted (b : bool) field (d : diffT) (patched : DeploymentT) ns :
  Noted d ns ->
  Noted (if b then noteChange field d patched else d)
        (ns ++ (if b then [field] else [])).
Proof.
  intros [Hc He]. destruct b; [|by rewrite app_nil_r].
  split; simpl.
  - rewrite bool_decide_eq_false_2; [done|]. by destruct ns.
  - rewrite concat_snoc, Hc, He. destruct ns as [|x xs]; [done|].
    rewrite bool_decide_eq_false_2 by done. simpl negb. cbv iota.
    by rewrite string_append_assoc.
Qed.

Lemma updateNodePlacementForDeployment_noted (deploy : DeploymentT) (d : diffT) ns :
  Noted d ns ->
  Noted (updateNodePlacementForDeployment deploy d)
    (ns ++ (if negb (DeepEqual (NodeSelector (existingDeploy d)) (NodeSelector deploy))
            then ["node selector"] else [])
        ++ (if negb (DeepEqual (Tolerations (existingDeploy d)) (Tolerations deploy))
            then ["tolerations"] else [])).
Proof.
  intros Hd. unfold updateNodePlacementForDeployment.
  rewrite app_assoc.
  set (d1 := if negb (DeepEqual (NodeSelector (existingDeploy d)) (NodeSelector deploy))
             then _ else d).
  assert (Tolerations (existingDeploy d1) = Tolerations (existingDeploy d)) as Ht.
  { subst d1. by destruct (negb _). }
  rewrite <- Ht. apply noteChange_noted. subst d1. by apply noteChange_noted.
Qed.

Lemma changedFields_snoc (redisImage imagePullPolicy : string)
    (deploy existing : DeploymentT) (dc ec : ContainerT) :
  changedFields redisImage imagePullPolicy deploy existing dc ec =
    ((((((((if negb (String.eqb (Image ec) redisImage)
            then ["container image"] else [])
      ++ (if negb (String.eqb (ImagePullPolicy ec) (getImagePullPolicy imagePullPolicy))
          then ["image pull policy"] else []))
      ++ ((if negb (DeepEqual (NodeSelector existing) (NodeSelector deploy))
           then ["node selector"] else [])
          ++ (if negb (DeepEqual (Tolerations existing) (Tolerations deploy))
              then ["tolerations"] else [])))
      ++ (if negb (DeepEqual (Args dc) (Args ec))
          then ["container args"] else []))
      ++ (if negb (DeepEqual (Env ec) (Env dc))
          then ["container env"] else []))
      ++ (if negb (DeepEqual (Resources dc) (Resources ec))
          then ["container resources"] else []))
      ++ (if negb (DeepEqual (SecurityContext dc) (SecurityContext ec))
          then ["container security context"] else []))
      ++ (if negb (DeepEqual (PodSecurityContext deploy) (PodSecurityContext existing))
          then ["pod security context"] else []))
      ++ (if negb (DeepEqual (ServiceAccountName deploy) (ServiceAccountName existing))
          then ["serviceAccountName"] else []).
Proof.
  unfold changedFields.
  generalize (negb (DeepEqual (ServiceAccountName deploy) (ServiceAccountName existing))).
  generalize (negb (DeepEqual (PodSecurityContext deploy) (PodSecurityContext existing))).
  generalize (negb (DeepEqual (SecurityContext dc) (SecurityContext ec))).
  generalize (negb (DeepEqual (Resources dc) (Resources ec))).
  generalize (negb (DeepEqual (Env ec) (Env dc))).
  generalize (negb (DeepEqual (Args dc) (Args ec))).
  generalize (negb (DeepEqual (Tolerations existing) (Tolerations deploy))).
  generalize (negb (DeepEqual (NodeSelector existing) (NodeSelector deploy))).
  generalize (negb (String.eqb (ImagePullPolicy ec) (getImagePullPolicy imagePullPolicy))).
  generalize (negb (String.eqb (Image ec) redisImage)).
  intros b1 b2 b3 b4 b5 b6 b7 b8 b9 b10.
  cbn [omap list_omap].
  destruct b1, b2, b3, b4, b5; cbn [app];
    destruct b6, b7, b8, b9, b10; reflexivity.
Qed.

(** The image and pull-policy patches leave the node placement alone. *)
Lemma setContainer0_placement (f : ContainerT -> ContainerT) (d : DeploymentT) :
  NodeSelector (setContainer0 f d) = NodeSelector d
  /\ Tolerations (setContainer0 f d) = Tolerations d.
Proof. unfold setContainer0. by destruct (Containers d). Qed.

Lemma checkUpdate_noted (redisImage imagePullPolicy now : string)
    (deploy existing : DeploymentT) (dc ec : ContainerT) :
  (Image ec <> redisImage -> TemplateLabels existing <> None) ->
  exists d,
    checkUpdate redisImage imagePullPolicy now deploy existing dc ec = Some d
    /\ Noted d (changedFields redisImage imagePullPolicy deploy existing dc ec).
Proof.
  intros Hlabels. rewrite changedFields_snoc. unfold checkUpdate.
  set (b1 := negb (String.eqb (Image ec) redisImage)).
  set (step1 := if b1 then _ else _).
  assert (exists d1, step1 = Some d1
            /\ Noted d1 (if b1 then ["container image"] else [])
            /\ NodeSelector (existingDeploy d1) = NodeSelector existing
            /\ Tolerations (existingDeploy d1) = Tolerations existing)
    as (d1 & -> & Hd1 & Hn1 & Ht1).
  { subst step1 b1. destruct (String.eqb_spec (Image ec) redisImage) as [E|E];
      simpl negb; cbv iota.
    - eexists. split; [done|]. by repeat split.
    - destruct (TemplateLabels existing) as [labels|] eqn:El;
        [|by destruct (Hlabels E)].
      eexists. split; [done|]. split.
      { split; [|done]. by rewrite bool_decide_eq_false_2. }
      cbn [existingDeploy setTemplateLabels NodeSelector Tolerations].
      apply setContainer0_placement. }
  eexists. split; [done|].
  repeat apply noteChange_noted.
  set (d2 := if negb (String.eqb (ImagePullPolicy ec) _) then _ else d1).
  assert (NodeSelector (existingDeploy d2) = NodeSelector existing
          /\ Tolerations (existingDeploy d2) = Tolerations existing)
    as [Hn2 Ht2].
  { subst d2.
    destruct (negb (String.eqb (ImagePullPolicy ec) _)); [|by split]. simpl.
    destruct (setContainer0_placement
                (setImagePullPolicy (getImagePullPolicy imagePullPolicy))
                (existingDeploy d1)) as [-> ->]. done. }
  rewrite <- Hn2, <- Ht2.
  apply updateNodePlacementForDeployment_noted.
  subst d2. by apply noteChange_noted.
Qed.

End RedisDeployment.

(** Three fields differ and the store sees one update. *)
Example ReconcileRedisDeployment_three_fields :
  exists patched,
    Redis.ReconcileRedisDeployment true false false "redis:7" "" "now"
      Redis.desiredRedis (Redis.Found Redis.liveRedis) =
    Redis.Returned
      [Redis.LogResourceUpdate "container image, tolerations, container args";
       Redis.ClientUpdate patched]
    /\ Redis.Containers patched =
         [Redis.mkContainer "redis:7" "Always" "--save --appendonly" "env"
            "resources" "restricted"]
    /\ Redis.Tolerations patched = "tolerations-2".
Proof. eexists. vm_compute. repeat split. Qed.

(** An object that already matches is left alone. *)
Example ReconcileRedisDeployment_no_change :
  Redis.ReconcileRedisDeployment true false false "redis:7" "" "now"
    Redis.desiredRedis (Redis.Found Redis.desiredRedis) = Redis.Returned [].
Proof. reflexivity. Qed.

(** * Properties of controllers/clusterargocd *)

Section ClusterScenarios.
Import Cluster.

(** C1. The namespace [ns1] carries the claim of instance [a]; a pass on
    instance [b], which lists [ns1] among its application source
    namespaces, ends without error, writes the name of [b] over the label
    and creates a Role of [b] in [ns1]. When [b] lists [ns1] for
    application sets only, the label of [a] stays and no Role is created,
    but the pass still updates [ns1] to add the application-set label of
    [b]. *)
Theorem claim_of_other_instance_overwritten :
  labelOf claimedByOther "ns1" "argocd.argoproj.io/managed-by-cluster-argocd"
    = Some "a"
  /\ passError "b" claimedByOther = None
  /\ labelOf (afterPass "b" claimedByOther) "ns1"
       "argocd.argoproj.io/managed-by-cluster-argocd" = Some "b"
  /\ roles claimedByOther !! ("ns1", "b-ns1-argocd-server") = None
  /\ is_Some (roles (afterPass "b" claimedByOther)
                !! ("ns1", "b-ns1-argocd-server"))
  /\ passError "b" claimedByOtherAppSet = None
  /\ labelOf (afterPass "b" claimedByOtherAppSet) "ns1"
       "argocd.argoproj.io/managed-by-cluster-argocd" = Some "a"
  /\ roles (afterPass "b" claimedByOtherAppSet) = ∅
  /\ labelOf (afterPass "b" claimedByOtherAppSet) "ns1"
       "argocd.argoproj.io/applicationset-managed-by-cluster-argocd"
       = Some "b".
Proof. vm_compute. repeat split; eauto. Qed.

(** C2. Instance [b] lists [ns1] for application sets only; the pass
    labels [ns1] under the application-set key although [ns1] carries no
    application claim, of [b] or of anyone. *)
Theorem appset_claim_without_apps_claim :
  passError "b" appSetOnly = None
  /\ labelOf (afterPass "b" appSetOnly) "ns1"
       "argocd.argoproj.io/applicationset-managed-by-cluster-argocd" = Some "b"
  /\ labelOf (afterPass "b" appSetOnly) "ns1"
       "argocd.argoproj.io/managed-by-cluster-argocd" = None.
Proof. vm_compute. repeat split. Qed.

(** C4. Instance [b] holds the claims of three namespaces, with a Role in
    each, and is being deleted. The cascade ends without error and the
    instance leaves the store; the application labels are gone, but the
    three Roles are still there and so is the application-set label. *)
Theorem cascade_leaves_roles_and_appset_label :
  (forall ns, ns ∈ ["ns1"; "ns2"; "ns3"] ->
     labelOf threeNamespacesDeleting ns
       "argocd.argoproj.io/managed-by-cluster-argocd" = Some "b")
  /\ passError "b" threeNamespacesDeleting = None
  /\ clusterArgoCDs (afterPass "b" threeNamespacesDeleting) !! "b" = None
  /\ (forall ns, ns ∈ ["ns1"; "ns2"; "ns3"] ->
        labelOf (afterPass "b" threeNamespacesDeleting) ns
          "argocd.argoproj.io/managed-by-cluster-argocd" = None)
  /\ (forall ns, ns ∈ ["ns1"; "ns2"; "ns3"] ->
        is_Some (roles (afterPass "b" threeNamespacesDeleting)
                   !! (ns, "b-" +:+ ns +:+ "-argocd-server")))
  /\ labelOf (afterPass "b" threeNamespacesDeleting) "ns1"
       "argocd.argoproj.io/applicationset-managed-by-cluster-argocd"
       = Some "b".
Proof.
  split; [|split; [|split; [|split; [|split]]]].
  - intros ns Hns. repeat (apply elem_of_cons in Hns as [->|Hns]);
      [by vm_compute..|by apply elem_of_nil in Hns].
  - by vm_compute.
  - by vm_compute.
  - intros ns Hns. repeat (apply elem_of_cons in Hns as [->|Hns]);
      [by vm_compute..|by apply elem_of_nil in Hns].
  - intros ns Hns. repeat (apply elem_of_cons in Hns as [->|Hns]);
      [vm_compute; eauto..|by apply elem_of_nil in Hns].
  - by vm_compute.
Qed.

(** C6. A second pass on [b], right after a first one that ended without
    error and with nothing changed in between, ends without error too and
    updates the Role of every source namespace. *)
Theorem second_pass_updates_roles :
  passError "b" (threeNamespaces None noFaults) = None
  /\ passError "b" (afterPass "b" (threeNamespaces None noFaults)) = None
  /\ writesOf (passEvents "b" (afterPass "b" (threeNamespaces None noFaults)))
     = [ (mkCall Update KRole "ns1" "b-ns1-argocd-server", Ok);
         (mkCall Update KRole "ns2" "b-ns2-argocd-server", Ok);
         (mkCall Update KRole "ns3" "b-ns3-argocd-server", Ok) ].
Proof. by vm_compute. Qed.

End ClusterScenarios.

Section ClusterController.
Import Cluster.

Variable common : Common.
Variable labelsParse : string -> option (gmap string string -> bool).

(** *** Composition of computations *)

Lemma Emits_ret {A} (a : A) (P : A -> list Event -> Prop) :
  P a [] -> Emits (ret a) P.
Proof. intros HP w. exists []. by rewrite app_nil_r. Qed.

Lemma Emits_bind {A B} (m : M A) (k : A -> M B)
    (P : A -> list Event -> Prop) (Q : A -> B -> list Event -> Prop)
    (R : B -> list Event -> Prop) :
  Emits m P -> (forall a, Emits (k a) (Q a)) ->
  (forall a b e1 e2, P a e1 -> Q a b e2 -> R b (e1 ++ e2)) ->
  Emits (bind m k) R.
Proof.
  intros Hm Hk HR w. unfold bind.
  destruct (Hm w) as (e1 & Ht1 & Hf1 & Hl1 & Hq1 & HP).
  destruct (m w) as [a w1]. simpl in *.
  destruct (Hk a w1) as (e2 & Ht2 & Hf2 & Hl2 & Hq2 & HQ).
  exists (e1 ++ e2). rewrite Ht2, Ht1, app_assoc, Hf2, Hl2.
  repeat split; eauto.
  intros Hq. apply Forall_app. split; [by apply Hq1|].
  apply Hq2. by rewrite Hf1.
Qed.

Lemma Emits_weaken {A} (m : M A) (P Q : A -> list Event -> Prop) :
  Emits m P -> (forall a evs, P a evs -> Q a evs) -> Emits m Q.
Proof.
  intros Hm HPQ w. destruct (Hm w) as (evs & ? & ? & ? & ? & ?).
  exists evs. eauto 10.
Qed.

Lemma Emits_emit (e : Event) :
  injected e = false -> Emits (emit e) (fun _ evs => evs = [e]).
Proof. intros He w. exists [e]. repeat split. intros _. by constructor. Qed.

Lemma Emits_logInfo (msg : string) : Emits (logInfo msg) (fun _ evs => evs = [ELog msg]).
Proof. by apply Emits_emit. Qed.

Lemma Emits_logError (msg : string) :
  Emits (logError msg) (fun _ evs => evs = [ELogError msg]).
Proof. by apply Emits_emit. Qed.

Lemma Emits_modify (f : World -> World) :
  silent f -> Emits (modify f) (fun _ evs => evs = []).
Proof.
  intros Hf w. exists []. simpl. destruct (Hf w) as (-> & -> & ->).
  by rewrite app_nil_r.
Qed.

Lemma Emits_get {A} (f : World -> A) : Emits (get f) (fun _ evs => evs = []).
Proof. intros w. exists []. by rewrite app_nil_r. Qed.

Lemma clientGet_emits {A} (c : Call) (lookup : World -> option A) :
  Emits (clientGet c lookup) (readShape c).
Proof.
  intros w. unfold clientGet.
  destruct (faults w (length (trace w)) c) eqn:E.
  - eexists. repeat split; [|by left]. intros Hq. by rewrite Hq in E.
  - destruct (lookup w); eexists; repeat split;
      try (intros _; by repeat constructor); by right.
Qed.

Lemma clientList_emits {A} (c : Call) (items : World -> list A) :
  Emits (clientList c items)
    (fun r evs => match r with
                  | inl err => IsNotFound err = false /\ evs = [ECall c Fault]
                  | inr _ => evs = [ECall c Ok]
                  end).
Proof.
  intros w. unfold clientList.
  destruct (faults w (length (trace w)) c) eqn:E.
  - eexists. repeat split. intros Hq. by rewrite Hq in E.
  - eexists. repeat split. intros _. by repeat constructor.
Qed.

Lemma clientWrite_emits (c : Call) (result : World -> CallResult)
    (store : World -> World) (allowed : CallResult -> Prop) :
  silent store -> (forall w, result w <> Fault /\ allowed (result w)) ->
  Emits (clientWrite c result store)
    (fun err evs => exists r, evs = [ECall c r] /\ err = errorOf r
                              /\ (r = Fault \/ allowed r)).
Proof.
  intros Hs Hr w. unfold clientWrite.
  destruct (faults w (length (trace w)) c) eqn:E.
  - eexists. repeat split; [|eexists; eauto]. intros Hq. by rewrite Hq in E.
  - destruct (Hr w) as [Hrw Ha]. destruct (Hs w) as (Ht & Hf & Hl).
    destruct (result w) eqn:Er; try done; eexists; simpl;
      rewrite ?Ht, ?Hf, ?Hl;
      (repeat split; [intros _; by repeat constructor|eexists; eauto]).
Qed.

Lemma onAbsent_no_fault {K A} `{Countable K} (m : gmap K A) (k : K) :
  onAbsent m k <> Fault.
Proof. unfold onAbsent. by destruct (m !! k). Qed.

Lemma onPresent_no_fault {K A} `{Countable K} (m : gmap K A) (k : K) :
  onPresent m k <> Fault.
Proof. unfold onPresent. by destruct (m !! k). Qed.

(** *** Passes that stop at the first failed call *)

Lemma FailFast_app (err : option error) (e1 e2 : list Event) :
  Forall (fun e => succeeded e = true) e1 ->
  FailFast err e2 -> FailFast err (e1 ++ e2).
Proof.
  intros H1. destruct err as [e|]; simpl.
  - intros (pre & c & r & post & -> & Hpre & Hc & Hpost).
    exists (e1 ++ pre), c, r, post.
    rewrite <- app_assoc. repeat split; try done. by apply Forall_app.
  - intros H2. by apply Forall_app.
Qed.

Lemma FailFast_cons (err : option error) (e : Event) (evs : list Event) :
  succeeded e = true -> FailFast err evs -> FailFast err (e :: evs).
Proof.
  intros He. apply (FailFast_app err [e]). by constructor.
Qed.

Lemma FailFast_failed (err : error) (c : Call) (r : CallResult) :
  callSucceeded c r = false -> FailFast (Some err) [ECall c r].
Proof. intros Hc. exists [], c, r, []. by repeat split. Qed.

Lemma FailFast_then_logs (err err' : error) (evs post : list Event) :
  FailFast (Some err) evs ->
  Forall (fun e => isCall e = false) post ->
  FailFast (Some err') (evs ++ post).
Proof.
  intros (pre & c & r & post0 & -> & Hpre & Hc & Hpost0) Hpost.
  exists pre, c, r, (post0 ++ post).
  rewrite <- app_assoc. repeat split; try done. by apply Forall_app.
Qed.

(** The three ways of passing an error on keep the shape. *)
Lemma FailFast_orElse (f rest : M (option error))
    (onErr : error -> M (option error)) :
  Emits f FailFast ->
  (forall err, Emits (onErr err)
                 (fun r evs => is_Some r /\ Forall (fun e => isCall e = false) evs)) ->
  Emits rest FailFast ->
  Emits (let* err := f in
         match err with
         | Some err => onErr err
         | None => rest
         end) FailFast.
Proof.
  intros Hf Herr Hrest.
  apply (Emits_bind f _ FailFast
           (fun a b e2 => match a with
                          | Some _ => is_Some b
                                      /\ Forall (fun e => isCall e = false) e2
                          | None => FailFast b e2
                          end)).
  - done.
  - intros [err|]; [apply Herr|apply Hrest].
  - intros [err|] b e1 e2 H1 H2.
    + destruct H2 as [[err' ->] Hlogs]. by apply (FailFast_then_logs err).
    + by apply FailFast_app.
Qed.

Lemma FailFast_orReturn (f rest : M (option error)) :
  Emits f FailFast -> Emits rest FailFast -> Emits (orReturn f rest) FailFast.
Proof.
  intros Hf Hrest. apply FailFast_orElse; [done| |done].
  intros err. by apply Emits_ret.
Qed.

Lemma FailFast_orWrap (prefix : string) (f rest : M (option error)) :
  Emits f FailFast -> Emits rest FailFast -> Emits (orWrap prefix f rest) FailFast.
Proof.
  intros Hf Hrest. apply FailFast_orElse; [done| |done].
  intros err. by apply Emits_ret.
Qed.

Lemma FailFast_orLogReturn (f rest : M (option error)) :
  Emits f FailFast -> Emits rest FailFast ->
  Emits (orLogReturn f rest) FailFast.
Proof.
  intros Hf Hrest. apply FailFast_orElse; [done| |done].
  intros err. eapply Emits_bind; [apply Emits_logInfo| |].
  - intros u. apply (Emits_ret _ (fun r evs => r = Some err /\ evs = [])).
    done.
  - intros u b e1 e2 -> [-> ->]. split; [done|]. by repeat constructor.
Qed.

Lemma FailFast_log (msg : string) (m : M (option error)) :
  Emits m FailFast -> Emits (logInfo msg >> m) FailFast.
Proof.
  intros Hm. eapply Emits_bind; [apply Emits_logInfo|intros u; apply Hm|].
  intros u b e1 e2 -> H2. by apply FailFast_cons.
Qed.

Lemma FailFast_ret_None : Emits (ret None) FailFast.
Proof. apply Emits_ret. constructor. Qed.

Lemma FailFast_if (b : bool) (m1 m2 : M (option error)) :
  Emits m1 FailFast -> Emits m2 FailFast ->
  Emits (if b then m1 else m2) FailFast.
Proof. by destruct b. Qed.

Lemma failedQuietly_ret (err : error) : Emits (ret (Some err)) failedQuietly.
Proof. apply Emits_ret. split; [done|constructor]. Qed.

Lemma FailFast_get {A} (c : Call) (lookup : World -> option A)
    (k : error + A -> M (option error)) :
  verb c = Get ->
  (forall err, IsNotFound err = false -> Emits (k (inl err)) failedQuietly) ->
  (forall err, IsNotFound err = true -> Emits (k (inl err)) FailFast) ->
  (forall a, Emits (k (inr a)) FailFast) ->
  Emits (let* r := clientGet c lookup in k r) FailFast.
Proof.
  intros Hc Hfault Hnotfound Hfound.
  apply (Emits_bind _ _ (readShape c)
           (fun r b e2 => forall e1, readShape c r e1 -> FailFast b (e1 ++ e2)));
    [apply clientGet_emits| |by eauto].
  intros [err|a].
  - destruct (IsNotFound err) eqn:E.
    + eapply Emits_weaken; [by apply Hnotfound|].
      intros b evs Hb e1 [[? _]|[_ ->]]; [congruence|].
      apply FailFast_cons; [|done]. simpl. by rewrite Hc.
    + eapply Emits_weaken; [by apply Hfault|].
      intros b evs [[err' ->] Hlogs] e1 [[_ ->]|[? _]]; [|congruence].
      apply (FailFast_then_logs err); [|done].
      by apply FailFast_failed.
  - eapply Emits_weaken; [by apply Hfound|].
    intros b evs Hb e1 ->. by apply FailFast_cons.
Qed.

Lemma FailFast_write (c : Call) (result : World -> CallResult)
    (store : World -> World) (k : option error -> M (option error)) :
  verb c = Create \/ verb c = Update ->
  silent store -> (forall w, result w <> Fault /\ True) ->
  (forall err, Emits (k (Some err)) failedQuietly) ->
  Emits (k None) FailFast ->
  Emits (let* err := clientWrite c result store in k err) FailFast.
Proof.
  intros Hc Hs Hres Herr Hok.
  apply (Emits_bind _ _
           (fun err evs => exists r, evs = [ECall c r] /\ err = errorOf r
                                     /\ (r = Fault \/ True))
           (fun err b e2 => forall e1 r, e1 = [ECall c r] -> err = errorOf r ->
                                         FailFast b (e1 ++ e2)));
    [by apply clientWrite_emits
    |
    |by intros a b e1 e2 (r & -> & -> & _) H; eapply H].
  intros [err|].
  - eapply Emits_weaken; [by apply Herr|].
    intros b evs [[err' ->] Hlogs] e1 r -> Hr.
    apply (FailFast_then_logs err); [|done]. apply FailFast_failed.
    destruct r; simpl in *; try done. by destruct Hc as [-> | ->].
  - eapply Emits_weaken; [by apply Hok|].
    intros b evs Hb e1 r -> Hr. apply FailFast_cons; [|done].
    by destruct r.
Qed.

Lemma reconcileClusterRole_FailFast componentName policyRules clusterArgoCD :
  Emits (reconcileClusterRole common componentName policyRules clusterArgoCD)
    FailFast.
Proof.
  unfold reconcileClusterRole. simpl.
  apply FailFast_get; [done|..].
  - intros err ->. apply failedQuietly_ret.
  - intros err ->. simpl. apply FailFast_log.
    apply FailFast_write;
      [by left|done|intros w; split; [apply onAbsent_no_fault|done]|..].
    + intros e. apply failedQuietly_ret.
    + apply FailFast_ret_None.
  - intros existing. destruct (negb _); [apply FailFast_ret_None|].
    apply FailFast_log.
    apply FailFast_write;
      [by right|done|intros w; split; [apply onPresent_no_fault|done]|..].
    + intros e. apply failedQuietly_ret.
    + apply FailFast_ret_None.
Qed.

Lemma reconcileClusterRoleBinding_FailFast componentName targetNamespace clusterArgoCD :
  Emits (reconcileClusterRoleBinding common componentName targetNamespace
           clusterArgoCD) FailFast.
Proof.
  unfold reconcileClusterRoleBinding.
  apply FailFast_get; [done|..].
  - intros err ->. apply failedQuietly_ret.
  - intros err ->. simpl. apply FailFast_log.
    apply FailFast_write;
      [by left|done|intros w; split; [apply onAbsent_no_fault|done]|..].
    + intros e. apply failedQuietly_ret.
    + apply FailFast_ret_None.
  - intros existing. destruct (negb _); [apply FailFast_ret_None|].
    apply FailFast_log.
    apply FailFast_write;
      [by right|done|intros w; split; [apply onPresent_no_fault|done]|..].
    + intros e. apply failedQuietly_ret.
    + apply FailFast_ret_None.
Qed.

Lemma reconcileServiceAccount_FailFast componentName targetNamespace clusterArgoCD :
  Emits (reconcileServiceAccount common componentName targetNamespace
           clusterArgoCD) FailFast.
Proof.
  unfold reconcileServiceAccount.
  apply FailFast_get; [done|..].
  - intros err ->. apply failedQuietly_ret.
  - intros err ->. simpl. apply FailFast_log.
    apply FailFast_write;
      [by left|done|intros w; split; [apply onAbsent_no_fault|done]|..].
    + intros e. apply failedQuietly_ret.
    + apply FailFast_ret_None.
  - intros existing. destruct (negb _); [apply FailFast_ret_None|].
    apply FailFast_log.
    apply FailFast_write;
      [by right|done|intros w; split; [apply onPresent_no_fault|done]|..].
    + intros e. apply failedQuietly_ret.
    + apply FailFast_ret_None.
Qed.

Ltac failfast :=
  repeat first
    [ apply FailFast_ret_None
    | apply FailFast_log
    | apply FailFast_orReturn
    | apply FailFast_orLogReturn
    | apply FailFast_orWrap
    | apply FailFast_if
    | apply reconcileClusterRole_FailFast
    | apply reconcileClusterRoleBinding_FailFast
    | apply reconcileServiceAccount_FailFast ].

Lemma reconcileClusterRoles_FailFast clusterArgoCD :
  Emits (reconcileClusterRoles common clusterArgoCD) FailFast.
Proof. unfold reconcileClusterRoles. failfast. Qed.

Lemma reconcileClusterRoleBindings_FailFast clusterArgoCD :
  Emits (reconcileClusterRoleBindings common clusterArgoCD) FailFast.
Proof. unfold reconcileClusterRoleBindings. failfast. Qed.

Lemma reconcileServiceAccounts_FailFast clusterArgoCD :
  Emits (reconcileServiceAccounts common clusterArgoCD) FailFast.
Proof. unfold reconcileServiceAccounts. failfast. Qed.

Lemma reconcileTargetNamespaceResources_FailFast clusterArgoCD :
  Emits (reconcileTargetNamespaceResources clusterArgoCD) FailFast.
Proof.
  unfold reconcileTargetNamespaceResources, reconcileServices,
    reconcileDeployments, reconcileStatefulSets, reconcileServerService,
    reconcileRepoServerService, reconcileApplicationControllerMetricsService,
    reconcileRedisService, reconcileServerDeployment,
    reconcileRepoServerDeployment, reconcileApplicationControllerDeployment,
    reconcileApplicationSetDeployment, reconcileNotificationsDeployment,
    reconcileRedisStatefulSet, reconcileRedisHAStatefulSet.
  failfast.
Qed.

(** C7 (amended). A pass over the child resources stops at its first
    failed call, a failed read included: every call before it succeeded,
    no call follows it, hence no later resource is reconciled, and the
    pass returns an error. A pass without a failed call returns no error
    and sets the phase to Available. *)
Theorem reconcileResources_stops_at_first_failure
    (clusterArgoCD : ClusterArgoCD) (status : ArgoCDStatus) (w : World) :
  exists evs,
    trace (reconcileResources common clusterArgoCD status w).2 = trace w ++ evs
    /\ FailFast (reconcileResources common clusterArgoCD status w).1.1 evs
    /\ ((reconcileResources common clusterArgoCD status w).1.1 = None ->
        Phase (reconcileResources common clusterArgoCD status w).1.2
          = "Available").
Proof.
  assert (Emits (reconcileResources common clusterArgoCD status)
            (fun r evs => FailFast r.1 evs
                          /\ (r.1 = None -> Phase r.2 = "Available"))) as H.
  2: { destruct (H w) as (evs & Ht & _ & _ & _ & HP1 & HP2). by exists evs. }
  unfold reconcileResources.
  eapply Emits_bind with (P := FailFast)
    (Q := fun err r e2 => r.1 = err /\ e2 = []
                          /\ (err = None -> Phase r.2 = "Available")).
  - failfast.
  - intros [err|]; apply Emits_ret; by repeat split.
  - intros err r e1 e2 H1 (<- & -> & Hphase). by rewrite app_nil_r.
Qed.

(** *** Parts of the world a computation leaves alone *)

Lemma Keeps_ret {A B} (f : World -> B) (a : A) : Keeps f (ret a).
Proof. done. Qed.

Lemma Keeps_bind {A B C} (f : World -> C) (m : M A) (k : A -> M B) :
  Keeps f m -> (forall a, Keeps f (k a)) -> Keeps f (bind m k).
Proof.
  intros Hm Hk w. unfold bind. specialize (Hm w).
  destruct (m w) as [a w1]. simpl in *. by rewrite Hk.
Qed.

Lemma Keeps_instances_emit (e : Event) : Keeps clusterArgoCDs (emit e).
Proof. done. Qed.

Lemma Keeps_instances_get {A} (f : World -> A) : Keeps clusterArgoCDs (get f).
Proof. done. Qed.

Lemma Keeps_instances_modify (f : World -> World) :
  (forall w, clusterArgoCDs (f w) = clusterArgoCDs w) ->
  Keeps clusterArgoCDs (modify f).
Proof. intros Hf w. apply Hf. Qed.

Lemma Keeps_instances_clientList {A} (c : Call) (items : World -> list A) :
  Keeps clusterArgoCDs (clientList c items).
Proof. intros w. unfold clientList. by destruct (faults w _ c). Qed.

Lemma Keeps_instances_clientWrite (c : Call) (result : World -> CallResult)
    (store : World -> World) :
  (forall w, clusterArgoCDs (store w) = clusterArgoCDs w) ->
  Keeps clusterArgoCDs (clientWrite c result store).
Proof.
  intros Hs w. unfold clientWrite. destruct (faults w _ c); [done|].
  destruct (result w); simpl; by rewrite ?Hs.
Qed.

Ltac keeps_with tac :=
  repeat first
    [ assumption
    | tac
    | apply Keeps_ret
    | apply Keeps_instances_emit
    | apply Keeps_instances_get
    | apply Keeps_instances_clientList
    | (apply Keeps_instances_clientWrite; done)
    | (apply Keeps_instances_modify; done)
    | (apply Keeps_bind; [|intros ?])
    | match goal with
      | |- Keeps _ (match ?x with _ => _ end) => destruct x
      end ].

Ltac keeps := keeps_with fail.

Lemma deleteClusterRolesLoop_keeps items :
  Keeps clusterArgoCDs (deleteClusterRolesLoop items).
Proof. induction items as [|[name obj] items IH]; simpl; keeps. Qed.

Lemma deleteClusterRoleBindingsLoop_keeps items :
  Keeps clusterArgoCDs (deleteClusterRoleBindingsLoop items).
Proof. induction items as [|[name obj] items IH]; simpl; keeps. Qed.

Lemma deleteClusterResources_keeps clusterArgoCD :
  Keeps clusterArgoCDs (deleteClusterResources common clusterArgoCD).
Proof.
  unfold deleteClusterResources, orReturn.
  keeps_with ltac:(first [apply deleteClusterRolesLoop_keeps
                         |apply deleteClusterRoleBindingsLoop_keeps]).
Qed.

Lemma removeLabelsLoop_keeps labelKey current items :
  Keeps clusterArgoCDs (removeLabelsLoop labelKey current items).
Proof. induction items as [|[name obj] items IH]; simpl; keeps. Qed.

Lemma cleanupAllSourceNamespaces_keeps clusterArgoCD :
  Keeps clusterArgoCDs (cleanupAllSourceNamespaces common clusterArgoCD).
Proof.
  unfold cleanupAllSourceNamespaces, orWrap, cleanupUnmanagedSourceNamespaces.
  keeps_with ltac:(apply removeLabelsLoop_keeps).
Qed.

(** *** The steps of the cascade, one by one *)

Lemma CascadeStep_app s err e1 e2 :
  Forall (fun e => inStep s e = true) e1 ->
  Forall (fun e => abortingFailure e = false) e1 ->
  CascadeStep s err e2 -> CascadeStep s err (e1 ++ e2).
Proof.
  intros H1 H2 (Hs & Hn & Hq). repeat split.
  - by apply Forall_app.
  - intros ->. apply Forall_app. auto.
  - intros [_ H]%Forall_app. auto.
Qed.

Lemma Forall_one {A} (P : A -> Prop) (x : A) : P x -> Forall P [x].
Proof. intros. by repeat constructor. Qed.

Lemma CascadeStep_ret_None s : Emits (ret None) (CascadeStep s).
Proof. apply Emits_ret. repeat split; constructor. Qed.

Lemma CascadeStep_log s msg (m : M (option error)) :
  inStep s (ELog msg) = true ->
  Emits m (CascadeStep s) -> Emits (logInfo msg >> m) (CascadeStep s).
Proof.
  intros Hs Hm. eapply Emits_bind; [apply Emits_logInfo|intros u; apply Hm|].
  intros u b e1 e2 -> H2.
  apply CascadeStep_app; [by apply Forall_one..|done].
Qed.

Lemma failedAside_ret (err : error) : Emits (ret (Some err)) failedAside.
Proof. apply Emits_ret. split; [done|constructor]. Qed.

Lemma failedAside_logError msg (err : error) :
  Emits (logError msg >> ret (Some err)) failedAside.
Proof.
  eapply Emits_bind; [apply Emits_logError|intros u; apply failedAside_ret|].
  intros u b e1 e2 -> [Hb He2]. split; [done|]. by constructor.
Qed.

Lemma CascadeStep_orElse s (f rest : M (option error))
    (onErr : error -> M (option error)) :
  Emits f (CascadeStep s) ->
  (forall err, Emits (onErr err) failedAside) ->
  Emits rest (CascadeStep s) ->
  Emits (let* err := f in
         match err with
         | Some err => onErr err
         | None => rest
         end) (CascadeStep s).
Proof.
  intros Hf Herr Hrest.
  apply (Emits_bind f _ (CascadeStep s)
           (fun a b e2 => match a with
                          | Some _ => failedAside b e2
                          | None => CascadeStep s b e2
                          end)).
  - done.
  - intros [err|]; [apply Herr|apply Hrest].
  - intros [err|] b e1 e2 (Hs & Hn & Hq) H2.
    + destruct H2 as [[err' ->] Haside]. repeat split; [|done|].
      * apply Forall_app. split; [done|].
        eapply Forall_impl; [done|]. intros e [_ He]. unfold inStep.
        by rewrite He.
      * intros [H _]%Forall_app. by specialize (Hq H).
    + apply CascadeStep_app; auto.
Qed.

Lemma CascadeStep_orReturn s (f rest : M (option error)) :
  Emits f (CascadeStep s) -> Emits rest (CascadeStep s) ->
  Emits (orReturn f rest) (CascadeStep s).
Proof.
  intros. apply CascadeStep_orElse; [done| |done].
  intros err. apply failedAside_ret.
Qed.

Lemma CascadeStep_orWrap s prefix (f rest : M (option error)) :
  Emits f (CascadeStep s) -> Emits rest (CascadeStep s) ->
  Emits (orWrap prefix f rest) (CascadeStep s).
Proof.
  intros. apply CascadeStep_orElse; [done| |done].
  intros err. apply failedAside_ret.
Qed.

Lemma CascadeStep_list {A} s (c : Call) (items : World -> list A)
    (k : error + list A -> M (option error)) :
  inStep s (ECall c Ok) = true ->
  (forall err, Emits (k (inl err)) failedAside) ->
  (forall l, Emits (k (inr l)) (CascadeStep s)) ->
  Emits (let* r := clientList c items in k r) (CascadeStep s).
Proof.
  intros Hc Herr Hok.
  eapply (Emits_bind _ _ _
            (fun r b e2 => match r with
                           | inl _ => failedAside b e2
                           | inr _ => CascadeStep s b e2
                           end));
    [apply clientList_emits|intros [err|l]; [apply Herr|apply Hok]|].
  intros [err|l] b e1 e2 H1 H2.
  - destruct H1 as [_ ->]. destruct H2 as [[err' ->] Haside].
    repeat split; [|done|].
    + constructor; [done|]. eapply Forall_impl; [done|].
      intros e [_ He]. unfold inStep. by rewrite He.
    + intros H. by inversion H.
  - subst e1. apply CascadeStep_app; [by apply Forall_one..|done].
Qed.

(** One iteration of a delete loop: a delete that finds nothing is
    stepped over. *)
Lemma CascadeStep_delete {K A} `{Countable K} s (c : Call)
    (objects : World -> gmap K A) (key : K) (store : World -> World)
    (onErr : error -> M (option error)) (rest : M (option error)) :
  verb c = Delete -> inStep s (ECall c Ok) = true -> silent store ->
  (forall err, Emits (onErr err) failedAside) ->
  Emits rest (CascadeStep s) ->
  Emits (let* err := clientWrite c (fun w => onPresent (objects w) key) store in
         match err with
         | Some err => if negb (IsNotFound err) then onErr err else rest
         | None => rest
         end) (CascadeStep s).
Proof.
  intros Hv Hc Hs Herr Hrest.
  eapply (Emits_bind _ _ _
            (fun err b e2 =>
               match err with
               | Some err => if negb (IsNotFound err) then failedAside b e2
                             else CascadeStep s b e2
               | None => CascadeStep s b e2
               end)).
  - apply (clientWrite_emits _ _ _ (fun r => r <> AlreadyExistsResult));
      [done|]. intros w. unfold onPresent. by destruct (objects w !! key).
  - intros [err|]; [destruct (negb (IsNotFound err))|]; auto.
  - intros err b e1 e2 (r & -> & -> & Hr) H2.
    destruct r; simpl in *.
    + apply (CascadeStep_app s b [_]); [by apply Forall_one..|done].
    + apply (CascadeStep_app s b [_]); [by apply Forall_one| |done].
      apply Forall_one. simpl. by rewrite Hv.
    + by destruct Hr.
    + destruct H2 as [[err' ->] Haside]. repeat split; [|done|].
      * constructor; [done|]. eapply Forall_impl; [done|].
        intros e [_ He]. unfold inStep. by rewrite He.
      * intros H'. by inversion H'.
Qed.

Lemma deleteClusterRolesLoop_step items :
  Emits (deleteClusterRolesLoop items) (CascadeStep StepClusterObjects).
Proof.
  induction items as [|[name obj] items IH]; simpl.
  - apply CascadeStep_ret_None.
  - apply CascadeStep_log; [done|].
    apply (CascadeStep_delete _ _ clusterRoles); try done.
    intros err. apply failedAside_logError.
Qed.

Lemma deleteClusterRoleBindingsLoop_step items :
  Emits (deleteClusterRoleBindingsLoop items) (CascadeStep StepClusterObjects).
Proof.
  induction items as [|[name obj] items IH]; simpl.
  - apply CascadeStep_ret_None.
  - apply CascadeStep_log; [done|].
    apply (CascadeStep_delete _ _ clusterRoleBindings); try done.
    intros err. apply failedAside_logError.
Qed.

Lemma claimsOnly_nil : claimsOnly [].
Proof. split; constructor. Qed.

Lemma claimsOnly_cons e evs :
  inStep StepClaims e = true -> abortingFailure e = false ->
  claimsOnly evs -> claimsOnly (e :: evs).
Proof. intros ?? [??]. split; by constructor. Qed.

Lemma claimsOnly_app e1 e2 : claimsOnly e1 -> claimsOnly e2 -> claimsOnly (e1 ++ e2).
Proof. intros [??] [??]. split; by apply Forall_app. Qed.

Lemma removeLabel_step name labels :
  Emits (let* err := updateNamespace name labels in
         match err with
         | Some err => logError "failed to remove label from namespace"
         | None => ret tt
         end) (fun _ evs => claimsOnly evs).
Proof.
  apply (Emits_bind _ _
           (fun err evs => exists r,
              evs = [ECall (mkCall Update KNamespace "" name) r]
              /\ err = errorOf r /\ (r = Fault \/ True))
           (fun _ _ evs => claimsOnly evs)).
  - apply clientWrite_emits; [done|].
    intros w. split; [apply onPresent_no_fault|done].
  - intros [err|].
    + eapply Emits_weaken; [apply Emits_logError|].
      intros a evs ->. by apply claimsOnly_cons, claimsOnly_nil.
    + apply Emits_ret, claimsOnly_nil.
  - intros err b e1 e2 (r & -> & _) H2. apply claimsOnly_cons; try done.
    simpl. apply andb_false_r.
Qed.

Lemma removeLabelsLoop_step labelKey current items :
  Emits (removeLabelsLoop labelKey current items) (fun _ evs => claimsOnly evs).
Proof.
  induction items as [|[name nsLabels] items IH]; simpl.
  - apply Emits_ret, claimsOnly_nil.
  - apply (Emits_bind _ _ (fun _ evs => claimsOnly evs)
             (fun _ _ evs => claimsOnly evs)).
    + destruct (negb _); [|apply Emits_ret, claimsOnly_nil].
      apply (Emits_bind _ _ (fun _ evs => evs = [ELog "removing managed-by label from namespace"])
               (fun _ _ evs => claimsOnly evs)).
      * apply Emits_logInfo.
      * intros u. apply removeLabel_step.
      * intros u b e1 e2 -> H2. by apply claimsOnly_cons.
    + intros u. apply IH.
    + intros u b e1 e2. apply claimsOnly_app.
Qed.

Lemma cleanupUnmanagedSourceNamespaces_step clusterArgoCD :
  Emits (cleanupUnmanagedSourceNamespaces common clusterArgoCD)
    (CascadeStep StepClaims).
Proof.
  unfold cleanupUnmanagedSourceNamespaces.
  apply CascadeStep_list; [done|intros err; apply failedAside_ret|].
  intros items. eapply Emits_bind;
    [apply removeLabelsLoop_step
    |intros u; apply (Emits_ret _ (fun r evs => r = None /\ evs = [])); done
    |].
  intros u b e1 e2 [H1 H2] [-> ->]. rewrite app_nil_r.
  apply (CascadeStep_app StepClaims None e1 []) in H1;
    [by rewrite app_nil_r in H1|done|].
  repeat split; constructor.
Qed.

Lemma removeDeletionFinalizer_step clusterArgoCD :
  Emits (removeDeletionFinalizer clusterArgoCD)
    (fun r evs =>
       exists res,
         evs = [ELog "removing deletion finalizer";
                ECall (mkCall Update KClusterArgoCD "" (Name clusterArgoCD)) res]
         /\ (r.1 = None <-> res = Ok)).
Proof.
  unfold removeDeletionFinalizer.
  apply (Emits_bind _ _ (fun _ evs => evs = [ELog "removing deletion finalizer"])
           (fun _ r evs =>
              exists res,
                evs = [ECall (mkCall Update KClusterArgoCD ""
                                (Name clusterArgoCD)) res]
                /\ (r.1 = None <-> res = Ok))).
  - apply Emits_logInfo.
  - intros u.
    apply (Emits_bind _ _
             (fun err evs => exists r,
                evs = [ECall (mkCall Update KClusterArgoCD ""
                                (Name clusterArgoCD)) r]
                /\ err = errorOf r /\ (r = Fault \/ True))
             (fun err r evs => (r.1 = None <-> err = None) /\ evs = [])).
    + apply clientWrite_emits; [done|].
      intros w. split; [apply onPresent_no_fault|done].
    + intros [err|]; apply Emits_ret; by split.
    + intros err r e1 e2 (res & -> & -> & _) [Hr ->].
      exists res. split; [done|]. rewrite Hr. by destruct res.
  - intros u r e1 e2 -> (res & -> & Hr). by exists res.
Qed.

(** *** Order of the steps *)

Lemma rankedFrom_mono rank lo lo' l :
  lo' <= lo -> rankedFrom rank lo l = true -> rankedFrom rank lo' l = true.
Proof.
  destruct l as [|s l]; [done|]. simpl. intros Hlo.
  rewrite !andb_true_iff, !Nat.leb_le. intros [? ?]. split; [lia|done].
Qed.

Lemma stepsOf_app e1 e2 : stepsOf (e1 ++ e2) = stepsOf e1 ++ stepsOf e2.
Proof. unfold stepsOf. apply omap_app. Qed.

Lemma rankedFrom_block rank s lo e1 l :
  Forall (fun e => inStep s e = true) e1 ->
  lo <= rank s ->
  rankedFrom rank (rank s) l = true ->
  rankedFrom rank lo (stepsOf e1 ++ l) = true.
Proof.
  intros H1 Hlo Hl. revert lo Hlo.
  induction H1 as [|e e1 He _ IH]; intros lo Hlo.
  - simpl. eapply rankedFrom_mono; [|done]. done.
  - unfold stepsOf. simpl. unfold inStep in He.
    destruct (stepOf e) as [s'|]; [|by apply IH].
    apply bool_decide_eq_true in He as ->. simpl.
    rewrite andb_true_iff, Nat.leb_le. split; [done|]. by apply IH.
Qed.

Lemma inOrder_block rank s lo e1 e2 :
  Forall (fun e => inStep s e = true) e1 ->
  lo <= rank s ->
  rankedFrom rank (rank s) (stepsOf e2) = true ->
  rankedFrom rank lo (stepsOf (e1 ++ e2)) = true.
Proof. intros. rewrite stepsOf_app. by apply (rankedFrom_block rank s). Qed.

Lemma bind_run {A B} (m : M A) (k : A -> M B) (w : World) :
  bind m k w = k (m w).1 (m w).2.
Proof. unfold bind. by destruct (m w). Qed.

Lemma CascadeStep_opened s msg (m : M (option error)) :
  stepOf (ELog msg) = Some s ->
  Emits m (CascadeStep s) ->
  Emits (logInfo msg >> m)
    (fun r evs => CascadeStep s r evs /\ s ∈ stepsOf evs).
Proof.
  intros Hs Hm. eapply Emits_bind; [apply Emits_logInfo|intros u; apply Hm|].
  intros u b e1 e2 -> H2. split.
  - apply CascadeStep_app; [apply Forall_one|by apply Forall_one|done].
    unfold inStep. rewrite Hs. by apply bool_decide_eq_true.
  - unfold stepsOf. cbn [app omap list_omap]. rewrite Hs. apply elem_of_cons.
    by left.
Qed.

Lemma deleteClusterResources_opened clusterArgoCD :
  Emits (deleteClusterResources common clusterArgoCD)
    (fun r evs => CascadeStep StepClusterObjects r evs
                  /\ StepClusterObjects ∈ stepsOf evs).
Proof.
  unfold deleteClusterResources. apply CascadeStep_opened; [done|].
  apply CascadeStep_list; [done|intros err; apply failedAside_logError|].
  intros roleList. apply CascadeStep_orReturn;
    [apply deleteClusterRolesLoop_step|].
  apply CascadeStep_list; [done|intros err; apply failedAside_logError|].
  intros bindingList. apply CascadeStep_orReturn;
    [apply deleteClusterRoleBindingsLoop_step|].
  apply CascadeStep_log; [done|]. apply CascadeStep_ret_None.
Qed.

Lemma cleanupAllSourceNamespaces_opened clusterArgoCD :
  Emits (cleanupAllSourceNamespaces common clusterArgoCD)
    (fun r evs => CascadeStep StepClaims r evs /\ StepClaims ∈ stepsOf evs).
Proof.
  unfold cleanupAllSourceNamespaces. apply CascadeStep_opened; [done|].
  apply CascadeStep_orWrap;
    [apply cleanupUnmanagedSourceNamespaces_step|apply CascadeStep_ret_None].
Qed.

(** What [removeDeletionFinalizer] does to the stored instance. *)
Lemma removeDeletionFinalizer_store clusterArgoCD w :
  ((removeDeletionFinalizer clusterArgoCD w).1.1 = None ->
   clusterArgoCDs (removeDeletionFinalizer clusterArgoCD w).2 =
     storeClusterArgoCD (removeDeletionFinalizer clusterArgoCD w).1.2
       (clusterArgoCDs w))
  /\ (is_Some (removeDeletionFinalizer clusterArgoCD w).1.1 ->
      clusterArgoCDs (removeDeletionFinalizer clusterArgoCD w).2 =
        clusterArgoCDs w)
  /\ (quiet (faults w) -> is_Some (clusterArgoCDs w !! Name clusterArgoCD) ->
      (removeDeletionFinalizer clusterArgoCD w).1.1 = None)
  /\ (removeDeletionFinalizer clusterArgoCD w).1.2 =
       setFinalizers
         (filter (fun finalizer => finalizer <> ArgoCDDeletionFinalizer)
            (Finalizers clusterArgoCD)) clusterArgoCD.
Proof.
  unfold removeDeletionFinalizer, updateClusterArgoCD, clientWrite, logInfo,
    emit, modify, bind, ret, onPresent. simpl.
  destruct (faults w _ _) eqn:E; simpl.
  - repeat split; try done. intros Hq. by rewrite Hq in E.
  - destruct (clusterArgoCDs w !! Name clusterArgoCD) eqn:El; simpl;
      repeat split; try done; try (by intros [? ?]); by intros _ [? ?].
Qed.

Lemma cleanupClusterInstanceTokenTimers_run name w :
  trace (cleanupClusterInstanceTokenTimers name w).2 =
    trace w ++ match TokenRenewalTimers w with
               | Some _ => [ELog "cleaning up token renewal timers"]
               | None => []
               end
  /\ faults (cleanupClusterInstanceTokenTimers name w).2 = faults w
  /\ LabelSelector (cleanupClusterInstanceTokenTimers name w).2 = LabelSelector w
  /\ clusterArgoCDs (cleanupClusterInstanceTokenTimers name w).2 = clusterArgoCDs w.
Proof.
  unfold cleanupClusterInstanceTokenTimers, bind, get.
  destruct (TokenRenewalTimers w); simpl; [done|]. by rewrite app_nil_r.
Qed.

Lemma handleDeletion_spec name c st w :
  IsDeletionFinalizerPresent c = true ->
  exists evs,
    trace (handleDeletion common name c st w).2 = trace w ++ evs
    /\ faults (handleDeletion common name c st w).2 = faults w
    /\ LabelSelector (handleDeletion common name c st w).2 = LabelSelector w
    /\ rankedFrom codeRank 0 (stepsOf evs) = true
    /\ ((handleDeletion common name c st w).1.1.1 = None ->
        Forall (fun e => abortingFailure e = false) evs
        /\ StepClusterObjects ∈ stepsOf evs
        /\ StepClaims ∈ stepsOf evs
        /\ StepFinalizer ∈ stepsOf evs
        /\ (is_Some (TokenRenewalTimers w) -> StepTimers ∈ stepsOf evs)
        /\ clusterArgoCDs (handleDeletion common name c st w).2 =
             storeClusterArgoCD
               (setFinalizers
                  (filter (fun finalizer => finalizer <> ArgoCDDeletionFinalizer)
                     (Finalizers c)) c)
               (clusterArgoCDs w))
    /\ (is_Some (handleDeletion common name c st w).1.1.1 ->
        clusterArgoCDs (handleDeletion common name c st w).2 = clusterArgoCDs w)
    /\ (quiet (faults w) -> is_Some (clusterArgoCDs w !! Name c) ->
        (handleDeletion common name c st w).1.1.1 = None).
Proof.
  intros Hpresent. unfold handleDeletion. rewrite Hpresent. rewrite !bind_run.
  set (w0 := (modify _ w).2).
  destruct (cleanupClusterInstanceTokenTimers_run name w0)
    as (Ht1 & Hf1 & Hl1 & Hk1).
  change (trace w0) with (trace w) in Ht1.
  change (faults w0) with (faults w) in Hf1.
  change (LabelSelector w0) with (LabelSelector w) in Hl1.
  change (clusterArgoCDs w0) with (clusterArgoCDs w) in Hk1.
  change (TokenRenewalTimers w0) with (TokenRenewalTimers w) in Ht1.
  set (et := match TokenRenewalTimers w with
             | Some _ => [ELog "cleaning up token renewal timers"]
             | None => []
             end) in Ht1.
  assert (Forall (fun e => inStep StepTimers e = true) et
          /\ Forall (fun e => abortingFailure e = false) et
          /\ (is_Some (TokenRenewalTimers w) -> StepTimers ∈ stepsOf et))
    as (Het1 & Het2 & Het3).
  { subst et. destruct (TokenRenewalTimers w).
    - repeat split; [by apply Forall_one..|]. intros _. by apply list_elem_of_singleton.
    - repeat split; [constructor..|]. by intros [? ?]. }
  clearbody et.
  set (w1 := (cleanupClusterInstanceTokenTimers name w0).2) in *.
  clearbody w1. clear w0.
  destruct (deleteClusterResources_opened c w1)
    as (ec & Ht2 & Hf2 & Hl2 & Hq2 & (Hs2 & Hn2 & Hi2) & Hin2).
  pose proof (deleteClusterResources_keeps c w1) as Hk2.
  destruct (deleteClusterResources common c w1) as [r2 w2]. simpl in *.
  rewrite Ht1 in Ht2. rewrite Hf1 in Hf2, Hq2. rewrite Hl1 in Hl2.
  rewrite Hk1 in Hk2. clear Ht1 Hf1 Hl1 Hk1.
  destruct r2 as [err|].
  { exists (et ++ ec). simpl. rewrite app_assoc.
    repeat split; try done.
    - apply (inOrder_block codeRank StepTimers); [done|simpl; lia|].
      rewrite <- (app_nil_r ec).
      by apply (inOrder_block codeRank StepClusterObjects); [|simpl; lia|].
    - intros Hq _. by specialize (Hi2 (Hq2 Hq)). }
  rewrite bind_run.
  destruct (cleanupAllSourceNamespaces_opened c w2)
    as (en & Ht3 & Hf3 & Hl3 & Hq3 & (Hs3 & Hn3 & Hi3) & Hin3).
  pose proof (cleanupAllSourceNamespaces_keeps c w2) as Hk3.
  destruct (cleanupAllSourceNamespaces common c w2) as [r3 w3]. simpl in *.
  rewrite Ht2 in Ht3. rewrite Hf2 in Hf3, Hq3. rewrite Hl2 in Hl3.
  rewrite Hk2 in Hk3. clear Ht2 Hf2 Hl2 Hk2.
  destruct r3 as [err|].
  { exists (et ++ ec ++ en). simpl. rewrite !app_assoc.
    repeat split; try done.
    - rewrite <- !app_assoc.
      apply (inOrder_block codeRank StepTimers); [done|simpl; lia|].
      apply (inOrder_block codeRank StepClusterObjects); [done|simpl; lia|].
      rewrite <- (app_nil_r en).
      by apply (inOrder_block codeRank StepClaims); [|simpl; lia|].
    - intros Hq _. by specialize (Hi3 (Hq3 Hq)). }
  rewrite bind_run.
  destruct (removeDeletionFinalizer_step c w3)
    as (ef & Ht4 & Hf4 & Hl4 & Hq4 & res & -> & Hres).
  destruct (removeDeletionFinalizer_store c w3) as (Hst1 & Hst2 & Hst3 & Hst4).
  destruct (removeDeletionFinalizer c w3) as [[r4 c'] w4]. simpl in *.
  rewrite Ht3 in Ht4. rewrite Hf3 in Hf4, Hq4, Hst3. rewrite Hl3 in Hl4.
  rewrite Hk3 in Hst1, Hst2, Hst3. clear Ht3 Hf3 Hl3 Hk3. subst c'.
  eexists (et ++ ec ++ en ++ [_; _]).
  assert (rankedFrom codeRank 0
            (stepsOf (et ++ ec ++ en ++
               [ELog "removing deletion finalizer";
                ECall (mkCall Update KClusterArgoCD "" (Name c)) res])) = true)
    as Horder.
  { apply (inOrder_block codeRank StepTimers); [done|simpl; lia|].
    apply (inOrder_block codeRank StepClusterObjects); [done|simpl; lia|].
    by apply (inOrder_block codeRank StepClaims); [|simpl; lia|]. }
  destruct r4 as [err|]; simpl.
  - split; [by rewrite Ht4, <- !app_assoc|].
    do 3 (split; [done|]). split; [done|]. split; [by auto|done].
  - split; [by rewrite Ht4, <- !app_assoc|].
    do 3 (split; [done|]). split; [|split; [by intros [? ?]|done]].
    intros _. assert (res = Ok) as -> by (by apply Hres).
    rewrite !stepsOf_app, !elem_of_app.
    split.
    { repeat (apply Forall_app; split); auto.
      all: by repeat (constructor; [done|]). }
    split; [by auto|]. split; [by auto|]. split.
    { right. right. right. apply elem_of_cons. by left. }
    split; [by auto|]. by apply Hst1.
Qed.

(** ** A pass on an instance that is being deleted *)

Lemma stepsOf_nil_app pre evs :
  Forall (fun e => stepOf e = None) pre -> stepsOf (pre ++ evs) = stepsOf evs.
Proof.
  induction 1 as [|e pre He _ IH]; [done|].
  unfold stepsOf in *. cbn [app omap list_omap]. by rewrite He.
Qed.

Lemma reconcileInstance_deleting name c ts w :
  DeletionTimestamp c = Some ts ->
  IsDeletionFinalizerPresent c = true ->
  exists evs,
    trace (reconcileInstance common labelsParse name c w).2 = trace w ++ evs
    /\ faults (reconcileInstance common labelsParse name c w).2 = faults w
    /\ LabelSelector (reconcileInstance common labelsParse name c w).2 =
         LabelSelector w
    /\ rankedFrom codeRank 0 (stepsOf evs) = true
    /\ ((reconcileInstance common labelsParse name c w).1.1.1 = None ->
        Forall (fun e => abortingFailure e = false) evs
        /\ StepClusterObjects ∈ stepsOf evs
        /\ StepClaims ∈ stepsOf evs
        /\ StepFinalizer ∈ stepsOf evs
        /\ (is_Some (TokenRenewalTimers w) -> StepTimers ∈ stepsOf evs)
        /\ clusterArgoCDs (reconcileInstance common labelsParse name c w).2 =
             storeClusterArgoCD
               (setFinalizers
                  (filter (fun finalizer => finalizer <> ArgoCDDeletionFinalizer)
                     (Finalizers c)) c)
               (clusterArgoCDs w))
    /\ (is_Some (reconcileInstance common labelsParse name c w).1.1.1 ->
        clusterArgoCDs (reconcileInstance common labelsParse name c w).2 =
          clusterArgoCDs w)
    /\ (quiet (faults w) -> is_Some (clusterArgoCDs w !! Name c) ->
        forall select, labelsParse (LabelSelector w) = Some select ->
        select (Labels c) = true ->
        (reconcileInstance common labelsParse name c w).1.1.1 = None).
Proof.
  intros Hts Hpresent. unfold reconcileInstance. rewrite Hts.
  set (warn := match nReplicas (Notifications (Spec c)) with
               | Some replicas => if (1 <? replicas)%Z then logInfo _ else ret tt
               | None => ret tt
               end).
  assert (exists pre,
             trace (warn w).2 = trace w ++ pre
             /\ faults (warn w).2 = faults w
             /\ LabelSelector (warn w).2 = LabelSelector w
             /\ clusterArgoCDs (warn w).2 = clusterArgoCDs w
             /\ TokenRenewalTimers (warn w).2 = TokenRenewalTimers w
             /\ Forall (fun e => stepOf e = None) pre
             /\ Forall (fun e => abortingFailure e = false) pre)
    as (pre & Ht0 & Hf0 & Hl0 & Hk0 & Hm0 & Hs0 & Ha0).
  { subst warn. destruct (nReplicas _) as [replicas|];
      [destruct (1 <? replicas)%Z|].
    - eexists [_]. simpl. repeat split; by apply Forall_one.
    - exists []. simpl. rewrite app_nil_r. by repeat split.
    - exists []. simpl. rewrite app_nil_r. by repeat split. }
  rewrite bind_run. set (w0 := (warn w).2) in *. clearbody w0. clear warn.
  rewrite bind_run. unfold get. cbn [fst snd].
  rewrite Hl0.
  destruct (labelsParse (LabelSelector w)) as [select|] eqn:Hparse.
  2:{ exists (pre ++ [ELogError "error parsing the labelSelector"]).
      split; [simpl; by rewrite Ht0, <- app_assoc|].
      do 2 (split; [by simpl|]).
      split; [by rewrite stepsOf_nil_app|]. simpl.
      repeat split; try done.
      all: intros _ _ select Hsel; discriminate Hsel. }
  destruct (select (Labels c)) eqn:Hselect; cbn [negb].
  2:{ eexists (pre ++ [ELogError _]).
      split; [simpl; by rewrite Ht0, <- app_assoc|].
      do 2 (split; [by simpl|]).
      split; [by rewrite stepsOf_nil_app|]. simpl.
      repeat split; try done.
      all: intros _ _ select' Hsel Hsel'; congruence. }
  rewrite bind_run.
  set (w1 := (modify _ w0).2).
  destruct (handleDeletion_spec name c
              (mkStatus "" (RepoTLSChecksum (Status c))
                 (RedisTLSChecksum (Status c))) w1 Hpresent)
    as (evs & Ht & Hf & Hl & Horder & Hnone & Hsome & Hquiet).
  change (trace w1) with (trace w0) in Ht.
  change (faults w1) with (faults w0) in Hf, Hquiet.
  change (LabelSelector w1) with (LabelSelector w0) in Hl.
  change (clusterArgoCDs w1) with (clusterArgoCDs w0) in Hnone, Hsome, Hquiet.
  change (TokenRenewalTimers w1) with (TokenRenewalTimers w0) in Hnone.
  rewrite Hk0 in Hnone, Hsome, Hquiet. rewrite Hm0 in Hnone.
  rewrite Hf0 in Hf, Hquiet. rewrite Hl0 in Hl. rewrite Ht0 in Ht.
  exists (pre ++ evs). rewrite app_assoc, stepsOf_nil_app by done.
  repeat split; try done.
  - apply Forall_app. split; [done|]. by apply Hnone.
  - by apply Hnone.
  - by apply Hnone.
  - by apply Hnone.
  - by apply Hnone.
  - by apply Hnone.
  - intros Hq Hin _ _ _. by apply Hquiet.
Qed.

Lemma internalReconcile_deleting name c ts w :
  clusterArgoCDs w !! name = Some c ->
  DeletionTimestamp c = Some ts ->
  IsDeletionFinalizerPresent c = true ->
  exists evs,
    trace (internalReconcile common labelsParse name w).2 = trace w ++ evs
    /\ faults (internalReconcile common labelsParse name w).2 = faults w
    /\ LabelSelector (internalReconcile common labelsParse name w).2 =
         LabelSelector w
    /\ rankedFrom codeRank 0 (stepsOf evs) = true
    /\ ((internalReconcile common labelsParse name w).1.1.1 = None ->
        Forall (fun e => abortingFailure e = false) evs
        /\ StepClusterObjects ∈ stepsOf evs
        /\ StepClaims ∈ stepsOf evs
        /\ StepFinalizer ∈ stepsOf evs
        /\ (is_Some (TokenRenewalTimers w) -> StepTimers ∈ stepsOf evs)
        /\ clusterArgoCDs (internalReconcile common labelsParse name w).2 =
             storeClusterArgoCD
               (setFinalizers
                  (filter (fun finalizer => finalizer <> ArgoCDDeletionFinalizer)
                     (Finalizers c)) c)
               (clusterArgoCDs w))
    /\ (is_Some (internalReconcile common labelsParse name w).1.1.1 ->
        clusterArgoCDs (internalReconcile common labelsParse name w).2 =
          clusterArgoCDs w)
    /\ (quiet (faults w) -> Name c = name ->
        forall select, labelsParse (LabelSelector w) = Some select ->
        select (Labels c) = true ->
        (internalReconcile common labelsParse name w).1.1.1 = None).
Proof.
  intros Hlookup Hts Hpresent. unfold internalReconcile.
  rewrite !bind_run.
  set (w0 := (logInfo "Reconciling ClusterArgoCD" w).2).
  unfold getClusterArgoCD, clientGet.
  change (faults w0) with (faults w).
  change (clusterArgoCDs w0) with (clusterArgoCDs w).
  rewrite Hlookup.
  destruct (faults w (length (trace w0)) _) eqn:Hfault.
  { exists [ELog "Reconciling ClusterArgoCD";
             ECall (mkCall Get KClusterArgoCD "" name) Fault].
    simpl. rewrite <- app_assoc.
    repeat split; try done.
    intros Hq. by rewrite Hq in Hfault. }
  cbn [fst snd].
  set (w1 := (emit _ w0).2).
  destruct (reconcileInstance_deleting name c ts w1 Hts Hpresent)
    as (evs & Ht & Hf & Hl & Horder & Hnone & Hsome & Hquiet).
  change (trace w1)
    with ((trace w ++ [ELog "Reconciling ClusterArgoCD"])
            ++ [ECall (mkCall Get KClusterArgoCD "" name) Ok]) in Ht.
  change (faults w1) with (faults w) in Hf, Hquiet.
  change (LabelSelector w1) with (LabelSelector w) in Hl, Hquiet.
  change (clusterArgoCDs w1) with (clusterArgoCDs w) in Hnone, Hsome, Hquiet.
  change (TokenRenewalTimers w1) with (TokenRenewalTimers w) in Hnone.
  exists ([ELog "Reconciling ClusterArgoCD";
           ECall (mkCall Get KClusterArgoCD "" name) Ok] ++ evs).
  rewrite stepsOf_nil_app by (by repeat constructor).
  split; [by rewrite Ht, <- !app_assoc|].
  do 3 (split; [done|]).
  split.
  { intros Hr. destruct (Hnone Hr) as (? & ? & ? & ? & ? & ?).
    repeat split; try done.
    apply Forall_app. split; [by repeat constructor|done]. }
  split; [done|].
  intros Hq Hname. apply Hquiet; [done|]. rewrite Hname, Hlookup. by eexists.
Qed.

Lemma IsDeletionFinalizerPresent_removed c :
  IsDeletionFinalizerPresent
    (setFinalizers
       (filter (fun finalizer => finalizer <> ArgoCDDeletionFinalizer)
          (Finalizers c)) c) = false.
Proof.
  unfold IsDeletionFinalizerPresent, setFinalizers. cbn [Finalizers].
  induction (Finalizers c) as [|f fs IH]; [done|].
  rewrite filter_cons. destruct (decide (f <> ArgoCDDeletionFinalizer)) as [Hf|Hf];
    [|done].
  cbn [existsb]. rewrite IH, orb_false_r. by apply String.eqb_neq.
Qed.

Lemma internalReconcile_absent name w :
  quiet (faults w) ->
  clusterArgoCDs w !! name = None ->
  (internalReconcile common labelsParse name w).1.1.1 = None.
Proof.
  intros Hq Hlookup. unfold internalReconcile. rewrite !bind_run.
  set (w0 := (logInfo "Reconciling ClusterArgoCD" w).2).
  unfold getClusterArgoCD, clientGet.
  change (faults w0) with (faults w).
  change (clusterArgoCDs w0) with (clusterArgoCDs w).
  by rewrite Hq, Hlookup.
Qed.

Lemma internalReconcile_released name c ts select w :
  quiet (faults w) ->
  clusterArgoCDs w !! name = Some c ->
  DeletionTimestamp c = Some ts ->
  IsDeletionFinalizerPresent c = false ->
  labelsParse (LabelSelector w) = Some select ->
  select (Labels c) = true ->
  (internalReconcile common labelsParse name w).1.1.1 = None.
Proof.
  intros Hq Hlookup Hts Hpresent Hparse Hselect.
  unfold internalReconcile. rewrite !bind_run.
  set (w0 := (logInfo "Reconciling ClusterArgoCD" w).2).
  unfold getClusterArgoCD, clientGet.
  change (faults w0) with (faults w).
  change (clusterArgoCDs w0) with (clusterArgoCDs w).
  rewrite Hq, Hlookup. cbn [fst snd].
  set (w1 := (emit _ w0).2).
  unfold reconcileInstance. rewrite Hts.
  set (warn := match nReplicas (Notifications (Spec c)) with
               | Some replicas => if (1 <? replicas)%Z then logInfo _ else ret tt
               | None => ret tt
               end).
  assert (LabelSelector (warn w1).2 = LabelSelector w) as Hl0.
  { subst warn. by destruct (nReplicas _) as [replicas|];
      [destruct (1 <? replicas)%Z|]. }
  rewrite bind_run. set (w2 := (warn w1).2) in *. clearbody w2. clear warn.
  rewrite bind_run. unfold get. cbn [fst snd].
  rewrite Hl0, Hparse, Hselect. cbn [negb].
  rewrite bind_run. unfold handleDeletion. rewrite Hpresent.
  by rewrite !bind_run.
Qed.

Lemma internalReconcile_rerun name c ts select w :
  quiet (faults w) ->
  Name c = name ->
  DeletionTimestamp c = Some ts ->
  labelsParse (LabelSelector w) = Some select ->
  select (Labels c) = true ->
  (exists m,
      clusterArgoCDs w =
        storeClusterArgoCD
          (setFinalizers
             (filter (fun finalizer => finalizer <> ArgoCDDeletionFinalizer)
                (Finalizers c)) c) m) ->
  (internalReconcile common labelsParse name w).1.1.1 = None.
Proof.
  intros Hq Hname Hts Hparse Hselect [m Hm].
  pose proof (IsDeletionFinalizerPresent_removed c) as Hremoved.
  set (c' := setFinalizers _ c) in *.
  assert (Name c' = name) as Hname' by done.
  assert (DeletionTimestamp c' = Some ts) as Hts' by done.
  assert (Labels c' = Labels c) as Hlabels by done.
  unfold storeClusterArgoCD in Hm. rewrite Hts', Hname' in Hm.
  destruct (Finalizers c').
  - apply internalReconcile_absent; [done|]. rewrite Hm. apply lookup_delete_eq.
  - apply (internalReconcile_released name c' ts select); try done.
    rewrite Hm. apply lookup_insert_eq.
Qed.


(** C5 (amended). On a pass over an instance that is marked for deletion
    and holds the finalizer, a failed call other than the removal of a
    label from a namespace makes the pass return an error and leaves the
    stored instance, finalizer included, as it was; the failed removal of
    a label is only logged. When no call fails, the pass returns no
    error, whatever is left of the claims, cluster-scoped objects and
    timers, and so does a pass that is run again after it. *)
Theorem internalReconcile_cascade_abort name c ts w :
  clusterArgoCDs w !! name = Some c ->
  Name c = name ->
  DeletionTimestamp c = Some ts ->
  IsDeletionFinalizerPresent c = true ->
  exists evs,
    trace (internalReconcile common labelsParse name w).2 = trace w ++ evs
    /\ (Exists (fun e => abortingFailure e = true) evs ->
        is_Some (internalReconcile common labelsParse name w).1.1.1
        /\ clusterArgoCDs (internalReconcile common labelsParse name w).2
           = clusterArgoCDs w)
    /\ (quiet (faults w) ->
        forall select, labelsParse (LabelSelector w) = Some select ->
        select (Labels c) = true ->
        (internalReconcile common labelsParse name w).1.1.1 = None
        /\ (internalReconcile common labelsParse name
              (internalReconcile common labelsParse name w).2).1.1.1 = None).
Proof.
  intros Hlookup Hname Hts Hpresent.
  destruct (internalReconcile_deleting name c ts w Hlookup Hts Hpresent)
    as (evs & Ht & Hf & Hl & _ & Hnone & Hsome & Hquiet).
  exists evs. split; [done|]. split.
  - intros Hfailed.
    destruct ((internalReconcile common labelsParse name w).1.1.1)
      as [err|] eqn:Herr.
    + split; [by eexists|]. apply Hsome. by eexists.
    + destruct (Hnone eq_refl) as (Hall & _).
      apply Exists_exists in Hfailed as (e & He & Hfailed).
      rewrite Forall_forall in Hall. specialize (Hall e He). congruence.
  - intros Hq select Hparse Hselect.
    assert ((internalReconcile common labelsParse name w).1.1.1 = None)
      as Hfirst by by apply (Hquiet Hq Hname select).
    split; [done|].
    apply (internalReconcile_rerun name c ts select); try done.
    + by rewrite Hf.
    + by rewrite Hl.
    + eexists. by apply Hnone.
Qed.

End ClusterController.

Section ClusterCascadeScenarios.
Import Cluster.



Lemma internalReconcile_cascade_abort_witness :
  exists evs,
    trace (internalReconcile exampleCommon exampleParse "b"
             threeNamespacesDeleting).2 = trace threeNamespacesDeleting ++ evs
    /\ (Exists (fun e => abortingFailure e = true) evs ->
        is_Some (internalReconcile exampleCommon exampleParse "b"
                   threeNamespacesDeleting).1.1.1
        /\ clusterArgoCDs (internalReconcile exampleCommon exampleParse "b"
                             threeNamespacesDeleting).2
           = clusterArgoCDs threeNamespacesDeleting)
    /\ (quiet (faults threeNamespacesDeleting) ->
        forall select,
          exampleParse (LabelSelector threeNamespacesDeleting) = Some select ->
          select (Labels (exampleInstance "b" [ArgoCDDeletionFinalizer]
                            (Some "now")
                            (exampleSpec ["ns1"; "ns2"; "ns3"] ["ns1"]))) = true ->
          (internalReconcile exampleCommon exampleParse "b"
             threeNamespacesDeleting).1.1.1 = None
          /\ (internalReconcile exampleCommon exampleParse "b"
                (internalReconcile exampleCommon exampleParse "b"
                   threeNamespacesDeleting).2).1.1.1 = None).
Proof.
  apply (internalReconcile_cascade_abort exampleCommon exampleParse "b"
           (exampleInstance "b" [ArgoCDDeletionFinalizer] (Some "now")
              (exampleSpec ["ns1"; "ns2"; "ns3"] ["ns1"]))
           "now" threeNamespacesDeleting).
  - vm_compute. reflexivity.
  - reflexivity.
  - reflexivity.
  - reflexivity.
Defined.

(** C5. The store fails the update that removes the label of [b] from
    [ns1]. The pass that deletes [b] logs the failure and goes on: it
    returns no error, removes the finalizer, so that [b] leaves the
    store, and [ns1] still carries the claim of [b]. *)
Lemma failed_label_removal_is_not_an_error :
  filter (fun cr => callSucceeded cr.1 cr.2 = false)
    (callsOf (passEvents "b" (set_faults updateOfNs1Fails threeNamespacesDeleting)))
  = [ (mkCall Update KNamespace "" "ns1", Fault) ]
  /\ passError "b" (set_faults updateOfNs1Fails threeNamespacesDeleting) = None
  /\ is_Some (clusterArgoCDs threeNamespacesDeleting !! "b")
  /\ clusterArgoCDs
       (afterPass "b" (set_faults updateOfNs1Fails threeNamespacesDeleting))
       !! "b" = None
  /\ labelOf (afterPass "b" (set_faults updateOfNs1Fails threeNamespacesDeleting))
       "ns1" "argocd.argoproj.io/managed-by-cluster-argocd" = Some "b".
Proof. vm_compute. repeat split; eauto. Qed.

(** C7. The store fails the reads of ClusterRoles. The pass over the
    child resources of [b] returns the error of the first read and makes
    no other call: the second ClusterRole, the ClusterRoleBindings and
    the ServiceAccounts, which a pass without failure creates, are not
    looked at. *)
Lemma read_failure_ends_the_pass :
  (reconcileResources exampleCommon
     (exampleInstance "b" [] None (exampleSpec [] [])) (mkStatus "" "" "")
     (startWorld ∅ ∅ None clusterRoleReadFails)).1.1
  = Some (mkError false
            "failed to get ClusterRole b-argocd-application-controller: store failure")
  /\ callsOf
       (trace (reconcileResources exampleCommon
                 (exampleInstance "b" [] None (exampleSpec [] []))
                 (mkStatus "" "" "")
                 (startWorld ∅ ∅ None clusterRoleReadFails)).2)
     = [ (mkCall Get KClusterRole "" "b-argocd-application-controller", Fault) ]
  /\ (reconcileResources exampleCommon
        (exampleInstance "b" [] None (exampleSpec [] [])) (mkStatus "" "" "")
        (startWorld ∅ ∅ None noFaults)).1.1 = None
  /\ map (fun cr => kind cr.1)
       (callsOf
          (trace (reconcileResources exampleCommon
                    (exampleInstance "b" [] None (exampleSpec [] []))
                    (mkStatus "" "" "")
                    (startWorld ∅ ∅ None noFaults)).2))
     = replicate 4 KClusterRole ++ replicate 4 KClusterRoleBinding
         ++ replicate 6 KServiceAccount.
Proof. vm_compute. repeat split; eauto. Qed.

End ClusterCascadeScenarios.
(** * More of pkg/component/util.go *)

Section IdentifyDeploymentDifference.
Import Deployments.

Context {SecurityContextT ContainerRestT VolumesT SelectorT TolerationsT
         RestT : Type}.
Context `{!EqDecision SecurityContextT, !EqDecision ContainerRestT,
          !EqDecision VolumesT, !EqDecision SelectorT,
          !EqDecision TolerationsT}.

Local Abbreviation DeploymentT :=
  (Deployment SecurityContextT ContainerRestT VolumesT SelectorT TolerationsT
     RestT).

Ltac not_listed H :=
  repeat (apply elem_of_cons in H as [H|H]; [discriminate H|]);
  apply elem_of_nil in H.

Lemma negb_DeepEqual {A} `{!EqDecision A} (x y : A) :
  negb (DeepEqual x y) = false <-> x = y.
Proof.
  unfold DeepEqual. destruct (decide (x = y)).
  - by rewrite bool_decide_eq_true_2.
  - by rewrite bool_decide_eq_false_2.
Qed.

Lemma negb_eqb_iff (a b : string) : negb (String.eqb a b) = false <-> a = b.
Proof. by destruct (String.eqb_spec a b). Qed.

(** The function gets past its first eight tests exactly when the
    fields they read agree. *)
Lemma identifyDeploymentDifference_tail (x y : DeploymentT) :
  identifyDeploymentDifference x y
  = if decide (comparedFirst x = comparedFirst y) then
      match first (Containers x) with
      | Some cx =>
          if negb (DeepEqual (TemplateAnnotations x) (TemplateAnnotations y))
          then Some ".Spec.Template.Annotations"
          else Some ""
      | None => None
      end
    else identifyDeploymentDifference x y.
Proof.
  destruct (decide _) as [Heq|]; [|done].
  unfold comparedFirst in Heq.
  injection Heq as Hc Hv Hs Hl Htl Hsel Hns Ht.
  unfold identifyDeploymentDifference.
  rewrite (proj2 (negb_DeepEqual _ _) Hc), (proj2 (negb_DeepEqual _ _) Hv),
    (proj2 (negb_eqb_iff _ _) Hs), (proj2 (negb_DeepEqual _ _) Hl),
    (proj2 (negb_DeepEqual _ _) Htl), (proj2 (negb_DeepEqual _ _) Hsel),
    (proj2 (negb_DeepEqual _ _) Hns), (proj2 (negb_DeepEqual _ _) Ht).
  rewrite <- Hc. destruct (first (Containers x)) as [cx|]; [|done].
  by rewrite (proj2 (negb_DeepEqual (SecurityContext cx) _) eq_refl).
Qed.

Lemma identifyDeploymentDifference_head (x y : DeploymentT) :
  comparedFirst x <> comparedFirst y ->
  exists field,
    identifyDeploymentDifference x y = Some field
    /\ field ∈ [".Spec.Template.Spec.Containers"; ".Spec.Template.Spec.Volumes";
                "ServiceAccountName"; "Labels"; ".Spec.Template.Labels";
                ".Spec.Selector"; "Spec.Template.Spec.NodeSelector";
                "Spec.Template.Spec.Tolerations"].
Proof.
  intros Hne. unfold identifyDeploymentDifference.
  destruct (negb (DeepEqual (Containers x) _)) eqn:Hc;
    [eexists; split; [done|by repeat constructor]|].
  destruct (negb (DeepEqual (Volumes x) _)) eqn:Hv;
    [eexists; split; [done|by repeat constructor]|].
  destruct (negb (String.eqb (ServiceAccountName x) _)) eqn:Hs;
    [eexists; split; [done|by repeat constructor]|].
  destruct (negb (DeepEqual (Labels x) _)) eqn:Hl;
    [eexists; split; [done|by repeat constructor]|].
  destruct (negb (DeepEqual (TemplateLabels x) _)) eqn:Htl;
    [eexists; split; [done|by repeat constructor]|].
  destruct (negb (DeepEqual (Selector x) _)) eqn:Hsel;
    [eexists; split; [done|by repeat constructor]|].
  destruct (negb (DeepEqual (NodeSelector x) _)) eqn:Hns;
    [eexists; split; [done|by repeat constructor]|].
  destruct (negb (DeepEqual (Tolerations x) _)) eqn:Ht;
    [eexists; split; [done|by repeat constructor]|].
  destruct Hne. unfold comparedFirst.
  apply (proj1 (negb_DeepEqual _ _)) in Hc, Hv, Hl, Htl, Hsel, Hns, Ht.
  apply (proj1 (negb_eqb_iff _ _)) in Hs. congruence.
Qed.

(** X1. The test of the first container's security context is dead code:
    whatever the two deployments, the function never reports that
    field. A differing security context is reported as a difference of
    the containers. *)
Theorem identifyDeploymentDifference_never_SecurityContext (x y : DeploymentT) :
  identifyDeploymentDifference x y
  <> Some "Spec.Template.Spec..Containers[0].SecurityContext".
Proof.
  destruct (decide (comparedFirst x = comparedFirst y)) as [Heq|Hne].
  - rewrite identifyDeploymentDifference_tail, decide_True by done.
    destruct (first (Containers x)); [|done]. by destruct (negb _).
  - destruct (identifyDeploymentDifference_head x y Hne) as (field & -> & Hin).
    intros [= ->]. by not_listed Hin.
Qed.

(** X2. The function panics exactly when the two deployments agree on
    every field it compares before the security context and have no
    container: a nil or an empty container list on both sides is an
    index out of range, not the empty string. *)
Theorem identifyDeploymentDifference_panics (x y : DeploymentT) :
  identifyDeploymentDifference x y = None
  <-> comparedFirst x = comparedFirst y
      /\ (Containers x = None \/ Containers x = Some []).
Proof.
  destruct (decide (comparedFirst x = comparedFirst y)) as [Heq|Hne].
  - rewrite identifyDeploymentDifference_tail, decide_True by done.
    destruct (Containers x) as [[|cx cs]|]; cbn.
    + split; [|done]. intros _. split; [done|]. by right.
    + split; [by destruct (negb _)|]. by intros [_ [?|?]].
    + split; [|done]. intros _. split; [done|]. by left.
  - destruct (identifyDeploymentDifference_head x y Hne) as (field & -> & _).
    split; [done|]. by intros [? _].
Qed.

(** X3. The function returns the empty string exactly when the
    deployments agree on all the fields it compares and have a
    container; the fields it does not read may differ. *)
Theorem identifyDeploymentDifference_same (x y : DeploymentT) :
  identifyDeploymentDifference x y = Some ""
  <-> comparedFirst x = comparedFirst y
      /\ TemplateAnnotations x = TemplateAnnotations y
      /\ exists container rest, Containers x = Some (container :: rest).
Proof.
  destruct (decide (comparedFirst x = comparedFirst y)) as [Heq|Hne].
  - rewrite identifyDeploymentDifference_tail, decide_True by done.
    destruct (Containers x) as [[|cx cs]|]; cbn.
    + split; [done|]. by intros (_ & _ & ? & ? & ?).
    + destruct (negb (DeepEqual _ _)) eqn:Ha.
      * split; [done|]. intros (_ & Hann & _).
        apply (proj2 (negb_DeepEqual _ _)) in Hann. congruence.
      * apply (proj1 (negb_DeepEqual _ _)) in Ha. split; [|done].
        intros _. split_and!; try done. by exists cx, cs.
    + split; [done|]. by intros (_ & _ & ? & ? & ?).
  - destruct (identifyDeploymentDifference_head x y Hne) as (field & -> & Hin).
    split; [|by intros [? _]]. intros [= ->]. by not_listed Hin.
Qed.

End IdentifyDeploymentDifference.

Section AddKubernetesDataMerge.
Import Util.

(** The merged map in closed form: the desired map, and under it the
    live entries whose key matches a reserved pattern. *)
Lemma addKubernetesData_union (source live : gmap string string) :
  addKubernetesData source live
  = source ∪ filter (fun kv => glob.MatchStringInList patterns kv.1 = true) live.
Proof.
  unfold addKubernetesData.
  set (P := fun kv : string * string =>
              glob.MatchStringInList patterns kv.1 = true).
  apply (map_fold_weak_ind (fun r m => r = source ∪ filter P m)).
  - by rewrite map_filter_empty, (right_id_L ∅ (∪)).
  - intros i x m r Hi ->. apply map_eq. intros k.
    rewrite addKubernetesDataStep_lookup, !lookup_union.
    destruct (source !! k) as [v|] eqn:Hs.
    { by rewrite !union_Some_l. }
    rewrite !(left_id_L None (∪)).
    destruct (decide (i = k)) as [->|Hne].
    + rewrite map_lookup_filter_None_2; [|by left].
      destruct (glob.MatchStringInList patterns k) eqn:Hm.
      * symmetry. apply map_lookup_filter_Some. by rewrite lookup_insert_eq.
      * symmetry. apply map_lookup_filter_None. right. intros y _ Hp.
        unfold P in Hp. cbn [fst] in Hp. congruence.
    + destruct (filter P m !! k) as [y|] eqn:Hf.
      * apply map_lookup_filter_Some in Hf as [Hk Hp]. symmetry.
        apply map_lookup_filter_Some. by rewrite lookup_insert_ne.
      * symmetry. apply map_lookup_filter_None.
        apply map_lookup_filter_None in Hf as [Hk|Hp].
        -- left. by rewrite lookup_insert_ne.
        -- right. intros y. rewrite lookup_insert_ne by done. apply Hp.
Qed.

(** X4. The merge is stable: once the live map is the outcome of a merge,
    merging the same desired map with it gives the live map back, and
    merging the live map into the outcome once more adds nothing. *)
Theorem addKubernetesData_stable (source live : gmap string string) :
  addKubernetesData source (addKubernetesData source live)
  = addKubernetesData source live
  /\ addKubernetesData (addKubernetesData source live) live
     = addKubernetesData source live.
Proof.
  rewrite !addKubernetesData_union.
  set (P := fun kv : string * string =>
              glob.MatchStringInList patterns kv.1 = true).
  split; apply map_eq; intros k; rewrite !lookup_union.
  - destruct (source !! k) as [v|] eqn:Hs; [by rewrite !union_Some_l|].
    rewrite !(left_id_L None (∪)).
    destruct (filter P live !! k) as [y|] eqn:Hf.
    + apply map_lookup_filter_Some in Hf as [Hk Hp].
      apply map_lookup_filter_Some. split; [|done].
      rewrite lookup_union, Hs, (left_id_L None (∪)).
      by apply map_lookup_filter_Some.
    + apply map_lookup_filter_None.
      destruct (glob.MatchStringInList patterns k) eqn:Hm.
      * left. by rewrite lookup_union, Hs, Hf.
      * right. intros y _ Hp. unfold P in Hp. cbn [fst] in Hp. congruence.
  - destruct (source !! k) as [v|] eqn:Hs; [by rewrite !union_Some_l|].
    rewrite !(left_id_L None (∪)). by destruct (filter P live !! k).
Qed.

End AddKubernetesDataMerge.

Section AppendUniqueArgsBase.
Import Util.

(** The first loop copies [cmd]; the one thing it drops is an empty
    value after a flag. *)
Lemma cmdLoop_result cmd : forall st,
  "" ∉ cmd -> result (cmdLoop cmd st) = result st ++ cmd.
Proof.
  induction cmd as [|x|x y l IH1 IH2] using list_ind2; intros st Hcmd.
  - cbn. by rewrite app_nil_r.
  - cbn. by destruct (Go.HasPrefix x "--").
  - apply not_elem_of_cons in Hcmd as [Hx Hcmd].
    pose proof Hcmd as Hyl. apply not_elem_of_cons in Hcmd as [Hy Hl].
    change (cmdLoop (x :: y :: l) st) with
      (if Go.HasPrefix x "--" then
         if negb (Go.HasPrefix y "--") then cmdLoop l (cmdFlag x y st)
         else cmdLoop (y :: l) (cmdFlag x "" st)
       else cmdLoop (y :: l) (plainArg x st)).
    destruct (Go.HasPrefix x "--"); [destruct (negb (Go.HasPrefix y "--"))|].
    + rewrite IH1 by done. cbn [cmdFlag result]. unfold add.
      destruct (String.eqb_spec y "") as [->|_]; [done|].
      by rewrite <- !app_assoc.
    + rewrite IH2 by done. cbn [cmdFlag result]. unfold add. cbn.
      by rewrite <- !app_assoc.
    + rewrite IH2 by done. cbn. by rewrite <- !app_assoc.
Qed.

Lemma occurrences_zero (x : string) (l : list string) :
  occurrences x l = 0 <-> x ∉ l.
Proof.
  induction l as [|y l IH].
  - split; [intros _ ?%elem_of_nil|]; done.
  - rewrite occurrences_cons, not_elem_of_cons, <- IH.
    destruct (decide (y = x)) as [->|Hne].
    + split; [lia|]. by intros [? _].
    + split; [|by intros [_ ?]]. intros Hocc. split; [congruence|done].
Qed.

Lemma extraStep_sameNewFlag f t st st0 :
  (forall g, flagOf t = Some g -> sameNewFlag g st st0) ->
  sameNewFlag f st st0 ->
  sameNewFlag f (extraStep st t) (extraStep st0 t).
Proof.
  intros Ht Hf. destruct t as [g v|a]; [|done].
  destruct (Ht g eq_refl) as (Hn & Hn0 & Hr).
  destruct Hf as (Hfn & Hfn0 & Hfr).
  cbn [extraStep]. unfold extraFlag, isRepeated. rewrite <- Hr.
  destruct (match repeated st !! g with
            | Some vals => bool_decide (v ∈ vals)
            | None => false
            end); [done|].
  rewrite !bool_decide_eq_false_2 by done.
  split_and!; try done. cbn [repeated]. unfold markRepeated. rewrite <- Hr.
  destruct (decide (g = f)) as [->|Hne].
  - by rewrite !lookup_insert_eq.
  - by rewrite !lookup_insert_ne.
Qed.

Lemma extraStep_result base t st st0 :
  (forall g, flagOf t = Some g -> sameNewFlag g st st0) ->
  result st = base ++ result st0 ->
  result (extraStep st t) = base ++ result (extraStep st0 t).
Proof.
  intros Ht Hres. destruct t as [g v|a].
  - destruct (Ht g eq_refl) as (Hn & Hn0 & Hr).
    cbn [extraStep]. unfold extraFlag, isRepeated. rewrite <- Hr.
    destruct (match repeated st !! g with
              | Some vals => bool_decide (v ∈ vals)
              | None => false
              end); [done|].
    rewrite !bool_decide_eq_false_2 by done.
    cbn [result]. unfold add. by rewrite Hres, <- !app_assoc.
  - cbn. by rewrite Hres, <- !app_assoc.
Qed.

Lemma extra_fold_result base ts : forall st st0,
  (forall g, g ∈ omap flagOf ts -> sameNewFlag g st st0) ->
  result st = base ++ result st0 ->
  result (fold_left extraStep ts st)
  = base ++ result (fold_left extraStep ts st0).
Proof.
  induction ts as [|t ts IH]; intros st st0 Hts Hres; [done|].
  cbn [fold_left].
  assert (forall g, flagOf t = Some g -> sameNewFlag g st st0) as Ht.
  { intros g Hg. apply Hts. cbn. rewrite Hg. by left. }
  apply IH; [|by apply extraStep_result].
  intros g Hg. apply extraStep_sameNewFlag; [done|].
  apply Hts. cbn. destruct (flagOf t); [by right|done].
Qed.

(** X5. Extra arguments whose flags are all new to the command are added
    after it: the command stays in front as it is, and what follows it
    is what the extra arguments give on their own. The command must
    hold no empty string, which the first loop would drop after a
    flag. *)
Theorem appendUniqueArgs_new_flags (cmd extraArgs : list string) :
  "" ∉ cmd ->
  (forall f, f ∈ flagsOf extraArgs -> f ∉ flagsOf cmd) ->
  appendUniqueArgs cmd extraArgs = cmd ++ appendUniqueArgs [] extraArgs.
Proof.
  intros Hcmd Hnew. rewrite !appendUniqueArgs_fold.
  apply extra_fold_result.
  - intros g Hg.
    assert (Go.HasPrefix g "--" = true) as Hprefix.
    { apply (flagsOf_prefix g extraArgs).
      destruct (occurrences g (flagsOf extraArgs)) eqn:Hocc; [|lia].
      by apply occurrences_zero in Hocc. }
    destruct (cmd_fold_absent g (tokens cmd) initArgState Hprefix
                (tokens_wf cmd)) as (Hn & Hr & _).
    { apply occurrences_zero. by apply Hnew. }
    { apply initArgState_absent. }
    split_and!; [done|apply not_elem_of_empty|by rewrite Hr].
  - rewrite <- cmdLoop_tokens, cmdLoop_result by done. cbn.
    by rewrite app_nil_r.
Qed.

(** X6. With no extra arguments the command comes back unchanged,
    provided it holds no empty string. *)
Theorem appendUniqueArgs_no_extra (cmd : list string) :
  "" ∉ cmd -> appendUniqueArgs cmd [] = cmd.
Proof.
  intros Hcmd. unfold appendUniqueArgs. cbn [extraLoop].
  by rewrite cmdLoop_result.
Qed.

End AppendUniqueArgsBase.

(** Closes a decidable statement about concrete values. *)
Ltac decide_closed := apply (bool_decide_unpack _); vm_compute; exact I.

Lemma appendUniqueArgs_new_flags_witness :
  Util.appendUniqueArgs ["entrypoint.sh"; "--loglevel"; "info"]
    ["--repo"; "a"; "--repo"; "b"; "--repo"; "a"]
  = ["entrypoint.sh"; "--loglevel"; "info"]
    ++ Util.appendUniqueArgs [] ["--repo"; "a"; "--repo"; "b"; "--repo"; "a"].
Proof.
  apply appendUniqueArgs_new_flags.
  - decide_closed.
  - intros f Hf. vm_compute in Hf.
    repeat (apply elem_of_cons in Hf as [->|Hf]); try decide_closed.
    by apply elem_of_nil in Hf.
Defined.

Lemma appendUniqueArgs_no_extra_witness :
  Util.appendUniqueArgs ["entrypoint.sh"; "--loglevel"; "info"; "--insecure"] []
  = ["entrypoint.sh"; "--loglevel"; "info"; "--insecure"].
Proof. apply appendUniqueArgs_no_extra. decide_closed. Defined.

(** * More of controllers/shared/redis.go *)


Section RedisDeploymentEffects.
Import Redis RedisSteps.

Context {ArgsT EnvT ResourcesT SecurityContextT PodSecurityContextT
         NodeSelectorT TolerationsT : Type}.
Context `{!EqDecision ArgsT, !EqDecision EnvT, !EqDecision ResourcesT,
          !EqDecision SecurityContextT, !EqDecision PodSecurityContextT,
          !EqDecision NodeSelectorT, !EqDecision TolerationsT}.

Abbreviation ContainerT := (Container ArgsT EnvT ResourcesT SecurityContextT).
Abbreviation DeploymentT :=
  (Deployment ArgsT EnvT ResourcesT SecurityContextT PodSecurityContextT
     NodeSelectorT TolerationsT).
Abbreviation diffT :=
  (diff ArgsT EnvT ResourcesT SecurityContextT PodSecurityContextT
     NodeSelectorT TolerationsT).


(** Unfolds the outermost [let] of the left-hand side, and only it. *)
Ltac zeta_head :=
  lazymatch goal with
  | |- (let x := ?v in @?b x) = ?rhs =>
      let bx := eval cbv beta in (b v) in
      change (bx = rhs)
  end.

Lemma checkUpdate_steps (redisImage imagePullPolicy now : string)
    (deploy existing : DeploymentT) (dc ec : ContainerT) :
  checkUpdate redisImage imagePullPolicy now deploy existing dc ec
  = afterImage imagePullPolicy deploy dc ec existing
      <$> (if negb (String.eqb (Image ec) redisImage) then
             match TemplateLabels existing with
             | None => None
             | Some labels =>
                 Some (mkDiff
                         (setTemplateLabels
                            (Some (<["image.upgraded" := now]> labels))
                            (setContainer0 (setImage redisImage) existing))
                         true "container image")
             end
           else Some (mkDiff existing false "")).
Proof.
  cbv beta delta [checkUpdate]. do 6 zeta_head.
  destruct (negb (String.eqb (Image ec) redisImage)); [|reflexivity].
  destruct (TemplateLabels existing); reflexivity.
Qed.


Lemma existingDeploy_patchIf (b : bool) field (f : DeploymentT -> DeploymentT)
    (d : diffT) :
  existingDeploy (patchIf b field f d)
  = if b then f (existingDeploy d) else existingDeploy d.
Proof. by destruct b. Qed.

Lemma negb_DeepEqual_false {A} `{!EqDecision A} (x y : A) :
  negb (DeepEqual x y) = false -> x = y.
Proof.
  unfold DeepEqual. intros H. apply negb_false_iff in H.
  by apply bool_decide_eq_true in H.
Qed.

Lemma DeepEqual_refl {A} `{!EqDecision A} (x : A) : DeepEqual x x = true.
Proof. unfold DeepEqual. by apply bool_decide_eq_true. Qed.

Lemma negb_eqb_false (x y : string) : negb (String.eqb x y) = false -> x = y.
Proof. intros H. apply negb_false_iff in H. by apply String.eqb_eq. Qed.

(** A step whose test compares the desired value with the one the object
    in hand still carries brings the object to the shape [target]. *)
Lemma patchIf_shape (b : bool) field (f : DeploymentT -> DeploymentT)
    (d : diffT) (current target : DeploymentT) :
  existingDeploy d = current ->
  (b = true -> f current = target) ->
  (b = false -> current = target) ->
  existingDeploy (patchIf b field f d) = target.
Proof. intros <- Ht Hf. rewrite existingDeploy_patchIf. destruct b; auto. Qed.

Lemma updateNodePlacementForDeployment_shape (deploy : DeploymentT) (d : diffT)
    templateLabels containers ns tol psc san :
  existingDeploy d = mkDeployment templateLabels containers ns tol psc san ->
  existingDeploy (updateNodePlacementForDeployment deploy d)
  = mkDeployment templateLabels containers (NodeSelector deploy)
      (Tolerations deploy) psc san.
Proof.
  intros Hd. unfold updateNodePlacementForDeployment.
  fold (patchIf (negb (DeepEqual (NodeSelector (existingDeploy d))
                         (NodeSelector deploy)))
          "node selector" (setNodeSelector (NodeSelector deploy)) d).
  set (d1 := patchIf _ "node selector" _ d).
  assert (existingDeploy d1
          = mkDeployment templateLabels containers (NodeSelector deploy)
              tol psc san) as H1.
  { apply (patchIf_shape _ _ _ _ _ _ Hd); intros Hb; [done|].
    apply negb_DeepEqual_false in Hb. rewrite Hd in Hb. cbn in Hb. by subst. }
  clearbody d1.
  fold (patchIf (negb (DeepEqual (Tolerations (existingDeploy d1))
                         (Tolerations deploy)))
          "tolerations" (setTolerations (Tolerations deploy)) d1).
  apply (patchIf_shape _ _ _ _ _ _ H1); intros Hb; [done|].
  apply negb_DeepEqual_false in Hb. rewrite H1 in Hb. cbn in Hb. by subst.
Qed.

Lemma afterImage_shape imagePullPolicy (deploy existing : DeploymentT)
    (dc ec : ContainerT) (d : diffT) templateLabels image erest :
  existingDeploy d
  = mkDeployment templateLabels
      (mkContainer image (ImagePullPolicy ec) (Args ec) (Env ec) (Resources ec)
         (SecurityContext ec) :: erest)
      (NodeSelector existing) (Tolerations existing)
      (PodSecurityContext existing) (ServiceAccountName existing) ->
  existingDeploy (afterImage imagePullPolicy deploy dc ec existing d)
  = mkDeployment templateLabels
      (mkContainer image (getImagePullPolicy imagePullPolicy) (Args dc) (Env dc)
         (Resources dc) (SecurityContext dc) :: erest)
      (NodeSelector deploy) (Tolerations deploy)
      (PodSecurityContext deploy) (ServiceAccountName deploy).
Proof.
  intros H0. unfold afterImage.
  set (d1 := patchIf _ "image pull policy" _ d).
  assert (existingDeploy d1
          = mkDeployment templateLabels
              (mkContainer image (getImagePullPolicy imagePullPolicy) (Args ec)
                 (Env ec) (Resources ec) (SecurityContext ec) :: erest)
              (NodeSelector existing) (Tolerations existing)
              (PodSecurityContext existing) (ServiceAccountName existing)) as H1.
  { apply (patchIf_shape _ _ _ _ _ _ H0); intros Hb; [done|].
    by apply negb_eqb_false in Hb as <-. }
  clearbody d1. clear d H0.
  set (d2 := updateNodePlacementForDeployment deploy d1).
  pose proof (updateNodePlacementForDeployment_shape deploy d1 _ _ _ _ _ _ H1)
    as H2. fold d2 in H2. clearbody d2. clear d1 H1.
  set (d3 := patchIf _ "container args" _ d2).
  assert (existingDeploy d3
          = mkDeployment templateLabels
              (mkContainer image (getImagePullPolicy imagePullPolicy) (Args dc)
                 (Env ec) (Resources ec) (SecurityContext ec) :: erest)
              (NodeSelector deploy) (Tolerations deploy)
              (PodSecurityContext existing) (ServiceAccountName existing)) as H3.
  { apply (patchIf_shape _ _ _ _ _ _ H2); intros Hb; [done|].
    by apply negb_DeepEqual_false in Hb as <-. }
  clearbody d3. clear d2 H2.
  set (d4 := patchIf _ "container env" _ d3).
  assert (existingDeploy d4
          = mkDeployment templateLabels
              (mkContainer image (getImagePullPolicy imagePullPolicy) (Args dc)
                 (Env dc) (Resources ec) (SecurityContext ec) :: erest)
              (NodeSelector deploy) (Tolerations deploy)
              (PodSecurityContext existing) (ServiceAccountName existing)) as H4.
  { apply (patchIf_shape _ _ _ _ _ _ H3); intros Hb; [done|].
    by apply negb_DeepEqual_false in Hb as <-. }
  clearbody d4. clear d3 H3.
  set (d5 := patchIf _ "container resources" _ d4).
  assert (existingDeploy d5
          = mkDeployment templateLabels
              (mkContainer image (getImagePullPolicy imagePullPolicy) (Args dc)
                 (Env dc) (Resources dc) (SecurityContext ec) :: erest)
              (NodeSelector deploy) (Tolerations deploy)
              (PodSecurityContext existing) (ServiceAccountName existing)) as H5.
  { apply (patchIf_shape _ _ _ _ _ _ H4); intros Hb; [done|].
    by apply negb_DeepEqual_false in Hb as <-. }
  clearbody d5. clear d4 H4.
  set (d6 := patchIf _ "container security context" _ d5).
  assert (existingDeploy d6
          = mkDeployment templateLabels
              (mkContainer image (getImagePullPolicy imagePullPolicy) (Args dc)
                 (Env dc) (Resources dc) (SecurityContext dc) :: erest)
              (NodeSelector deploy) (Tolerations deploy)
              (PodSecurityContext existing) (ServiceAccountName existing)) as H6.
  { apply (patchIf_shape _ _ _ _ _ _ H5); intros Hb; [done|].
    by apply negb_DeepEqual_false in Hb as <-. }
  clearbody d6. clear d5 H5.
  set (d7 := patchIf _ "pod security context" _ d6).
  assert (existingDeploy d7
          = mkDeployment templateLabels
              (mkContainer image (getImagePullPolicy imagePullPolicy) (Args dc)
                 (Env dc) (Resources dc) (SecurityContext dc) :: erest)
              (NodeSelector deploy) (Tolerations deploy)
              (PodSecurityContext deploy) (ServiceAccountName existing)) as H7.
  { apply (patchIf_shape _ _ _ _ _ _ H6); intros Hb; [done|].
    by apply negb_DeepEqual_false in Hb as <-. }
  clearbody d7. clear d6 H6.
  apply (patchIf_shape _ _ _ _ _ _ H7); intros Hb; [done|].
  by apply negb_DeepEqual_false in Hb as <-.
Qed.


(** The object that the update block holds at its end. *)
Lemma checkUpdate_patched (redisImage imagePullPolicy now : string)
    (deploy existing : DeploymentT) (dc ec : ContainerT)
    (erest : list ContainerT) (d : diffT) :
  Containers existing = ec :: erest ->
  checkUpdate redisImage imagePullPolicy now deploy existing dc ec = Some d ->
  existingDeploy d
  = patchedDeployment redisImage imagePullPolicy now deploy existing dc ec erest.
Proof.
  intros He Hcheck. rewrite checkUpdate_steps in Hcheck.
  unfold patchedDeployment.
  destruct existing as [tl cs ns tol psc san]. cbn [Containers] in He. subst cs.
  destruct ec as [im ipp ar en re sc].
  cbn [Image TemplateLabels] in *.
  destruct (String.eqb_spec im redisImage) as [->|Him]; cbn [negb] in *.
  - cbn [fmap option_fmap option_map] in Hcheck. injection Hcheck as <-.
    by apply (afterImage_shape _ _ _ _ (mkContainer redisImage ipp ar en re sc)).
  - destruct tl as [labels|]; [|done].
    cbn [fmap option_fmap option_map] in Hcheck. injection Hcheck as <-.
    by apply (afterImage_shape _ _ _ _ (mkContainer im ipp ar en re sc)).
Qed.

(** C9. On an existing Redis deployment that is kept (Redis enabled and
    local, HA off), the diff policy issues no client call when no managed
    field differs, and otherwise exactly one update call: it is logged
    with the names of all the differing fields joined by a comma and a
    space, and the object it sends is the existing deployment with all
    the changes applied. *)
Theorem ReconcileRedisDeployment_single_update
    (redisImage imagePullPolicy now : string)
    (deploy existing : DeploymentT) (dc ec : ContainerT)
    (drest erest : list ContainerT) :
  Containers existing = ec :: erest ->
  Containers deploy = dc :: drest ->
  (Image ec <> redisImage -> TemplateLabels existing <> None) ->
  ReconcileRedisDeployment true false false redisImage imagePullPolicy now
    deploy (Found existing)
  = Returned
      match changedFields redisImage imagePullPolicy deploy existing dc ec with
      | [] => []
      | fields =>
          [LogResourceUpdate (String.concat ", " fields);
           ClientUpdate
             (patchedDeployment redisImage imagePullPolicy now deploy existing
                dc ec erest)]
      end.
Proof.
  intros He Hd Hlabels.
  destruct (checkUpdate_noted redisImage imagePullPolicy now deploy existing
              dc ec Hlabels) as (d & Hcheck & Hc & Hexpl).
  pose proof (checkUpdate_patched redisImage imagePullPolicy now deploy
                existing dc ec erest d He Hcheck) as Hpatched.
  unfold ReconcileRedisDeployment. simpl negb. cbv iota.
  rewrite He, Hd, Hcheck, Hc, Hexpl, Hpatched.
  by destruct (changedFields redisImage imagePullPolicy deploy existing dc ec).
Qed.

Lemma changed_patchIf_false field (f : DeploymentT -> DeploymentT) (d : diffT) :
  patchIf false field f d = d.
Proof. done. Qed.

Lemma checkUpdate_settled (redisImage imagePullPolicy now : string)
    (deploy : DeploymentT) (dc : ContainerT) templateLabels erest :
  let ec := mkContainer redisImage (getImagePullPolicy imagePullPolicy)
              (Args dc) (Env dc) (Resources dc) (SecurityContext dc) in
  let patched := mkDeployment templateLabels (ec :: erest) (NodeSelector deploy)
                   (Tolerations deploy) (PodSecurityContext deploy)
                   (ServiceAccountName deploy) in
  checkUpdate redisImage imagePullPolicy now deploy patched dc ec
  = Some (mkDiff patched false "").
Proof.
  intros ec patched. rewrite checkUpdate_steps.
  cbn [Image ec]. rewrite String.eqb_refl. cbn [negb fmap option_fmap option_map].
  f_equal. unfold afterImage, updateNodePlacementForDeployment.
  cbn [ImagePullPolicy Args Env Resources SecurityContext ec
       PodSecurityContext ServiceAccountName patched].
  rewrite String.eqb_refl. cbn [negb]. rewrite changed_patchIf_false.
  cbn [existingDeploy NodeSelector Tolerations patched].
  rewrite !DeepEqual_refl. cbn [negb]. by rewrite !changed_patchIf_false.
Qed.

(** The update that [ReconcileRedisDeployment] sends brings the
    deployment to a state on which the same reconciliation, at any later
    time, makes no call. *)
Lemma ReconcileRedisDeployment_kept_converges
    (redisImage imagePullPolicy now later : string)
    (deploy existing patched : DeploymentT) (explanation : string) :
  ReconcileRedisDeployment true false false redisImage imagePullPolicy now
    deploy (Found existing)
  = Returned [LogResourceUpdate explanation; ClientUpdate patched] ->
  ReconcileRedisDeployment true false false redisImage imagePullPolicy later
    deploy (Found patched)
  = Returned [].
Proof.
  unfold ReconcileRedisDeployment. cbn [negb].
  destruct (Containers existing) as [|ec erest] eqn:He; [done|].
  destruct (Containers deploy) as [|dc drest] eqn:Hd; [done|].
  destruct (checkUpdate redisImage imagePullPolicy now deploy existing dc ec)
    as [d|] eqn:Hcheck; [|done].
  destruct (changed d); [|done]. intros [= _ <-].
  rewrite checkUpdate_steps in Hcheck.
  assert (exists templateLabels,
            existingDeploy d
            = mkDeployment templateLabels
                (mkContainer redisImage (getImagePullPolicy imagePullPolicy)
                   (Args dc) (Env dc) (Resources dc) (SecurityContext dc)
                 :: erest)
                (NodeSelector deploy) (Tolerations deploy)
                (PodSecurityContext deploy) (ServiceAccountName deploy))
    as [templateLabels ->].
  { destruct existing as [tl cs ns tol psc san]. cbn [Containers] in He. subst cs.
    destruct ec as [im ipp ar en re sc].
    destruct (String.eqb_spec im redisImage) as [->|Him];
      cbn [Image negb TemplateLabels] in Hcheck.
    - rewrite String.eqb_refl in Hcheck.
      cbn [negb fmap option_fmap option_map] in Hcheck. injection Hcheck as <-. eexists. by apply (afterImage_shape _ _ _ _
        (mkContainer redisImage ipp ar en re sc)).
    - rewrite (proj2 (String.eqb_neq im redisImage) Him) in Hcheck.
      cbn [negb] in Hcheck. destruct tl as [labels|]; [|done].
      cbn [fmap option_fmap option_map] in Hcheck. injection Hcheck as <-. eexists. by apply (afterImage_shape _ _ _ _
        (mkContainer im ipp ar en re sc)). }
  cbn [Containers]. by rewrite checkUpdate_settled.
Qed.

(** With Redis enabled, local and not highly available, the run on an
    existing deployment panics exactly when one of the two deployments
    has no container, or when the image differs and the template of the
    existing deployment has no label map to write the upgrade time to. *)
Lemma ReconcileRedisDeployment_kept_panics
    (redisImage imagePullPolicy now : string) (deploy existing : DeploymentT) :
  ReconcileRedisDeployment true false false redisImage imagePullPolicy now
    deploy (Found existing) = Panic
  <-> Containers existing = []
      \/ Containers deploy = []
      \/ (TemplateLabels existing = None
          /\ exists ec erest, Containers existing = ec :: erest
                              /\ Image ec <> redisImage).
Proof.
  unfold ReconcileRedisDeployment. cbn [negb].
  destruct (Containers existing) as [|ec erest] eqn:He; [by split; [left|]|].
  destruct (Containers deploy) as [|dc drest] eqn:Hd;
    [by split; [right; left|]|].
  rewrite checkUpdate_steps.
  destruct (String.eqb_spec (Image ec) redisImage) as [Heq|Hne]; cbn [negb].
  - cbn. destruct (changed _); split; try done.
    all: intros [?|[?|(_ & ? & ? & [= <- <-] & ?)]]; done.
  - destruct (TemplateLabels existing) as [labels|] eqn:Hl; cbn.
    + destruct (changed _); split; try done.
      all: intros [?|[?|(? & _)]]; done.
    + split; [|done]. intros _. right. right. split; [done|]. by exists ec, erest.
Qed.

(** X7. The update of a Redis deployment converges: when a run updates
    the stored deployment, a run over the object it sent, with the same
    desired deployment, image and pull policy and at any later time,
    makes no call at all. *)
Theorem ReconcileRedisDeployment_converges
    (redisEnabled redisRemote haEnabled : bool)
    (redisImage imagePullPolicy now later : string)
    (deploy existing patched : DeploymentT) (explanation : string) :
  ReconcileRedisDeployment redisEnabled redisRemote haEnabled redisImage
    imagePullPolicy now deploy (Found existing)
  = Returned [LogResourceUpdate explanation; ClientUpdate patched] ->
  ReconcileRedisDeployment redisEnabled redisRemote haEnabled redisImage
    imagePullPolicy later deploy (Found patched)
  = Returned [].
Proof.
  destruct redisEnabled; [|done].
  destruct redisRemote; [done|].
  destruct haEnabled; [done|].
  apply ReconcileRedisDeployment_kept_converges.
Qed.

(** X8. [ReconcileRedisDeployment] panics in these situations only: the
    deployment exists and is kept (Redis enabled and local, HA off), and
    either one of the two deployments has no container, or the image of
    the first live container differs and the pod template of the live
    deployment has no label map to take the [image.upgraded] label. *)
Theorem ReconcileRedisDeployment_panics
    (redisEnabled redisRemote haEnabled : bool)
    (redisImage imagePullPolicy now : string) (deploy : DeploymentT)
    (lookup : Lookup ArgsT EnvT ResourcesT SecurityContextT PodSecurityContextT
                NodeSelectorT TolerationsT) :
  ReconcileRedisDeployment redisEnabled redisRemote haEnabled redisImage
    imagePullPolicy now deploy lookup = Panic
  <-> redisEnabled = true /\ redisRemote = false /\ haEnabled = false
      /\ exists existing,
           lookup = Found existing
           /\ (Containers existing = []
               \/ Containers deploy = []
               \/ (TemplateLabels existing = None
                   /\ exists ec erest, Containers existing = ec :: erest
                                       /\ Image ec <> redisImage)).
Proof.
  destruct lookup as [|existing|].
  - split; [done|]. by intros (_ & _ & _ & ? & ? & _).
  - destruct redisEnabled; [|split; [done|by intros (? & _)]].
    destruct redisRemote; [split; [done|by intros (_ & ? & _)]|].
    destruct haEnabled; [split; [done|by intros (_ & _ & ? & _)]|].
    rewrite ReconcileRedisDeployment_kept_panics. split.
    + intros H. split_and!; try done. by exists existing.
    + by intros (_ & _ & _ & ? & [= <-] & H).
  - split; [|by intros (_ & _ & _ & ? & ? & _)].
    cbn. by destruct redisEnabled, redisRemote, haEnabled.
Qed.

End RedisDeploymentEffects.

Lemma ReconcileRedisDeployment_single_update_witness :
  Redis.ReconcileRedisDeployment true false false "redis:7" "" "now"
    Redis.desiredRedis (Redis.Found Redis.liveRedis)
  = Redis.Returned
      [Redis.LogResourceUpdate "container image, tolerations, container args";
       Redis.ClientUpdate RedisExamples.patchedRedis].
Proof.
  rewrite (ReconcileRedisDeployment_single_update "redis:7" "" "now"
             Redis.desiredRedis Redis.liveRedis
             (Redis.mkContainer "redis:7" "Always" "--save --appendonly" "env"
                "resources" "restricted")
             (Redis.mkContainer "redis:6" "Always" "--save" "env" "resources"
                "restricted") [] [] eq_refl eq_refl).
  - vm_compute. reflexivity.
  - vm_compute. discriminate.
Defined.

Lemma ReconcileRedisDeployment_converges_witness :
  Redis.ReconcileRedisDeployment true false false "redis:7" "" "later"
    Redis.desiredRedis (Redis.Found RedisExamples.patchedRedis)
  = Redis.Returned [].
Proof.
  apply (ReconcileRedisDeployment_converges true false false "redis:7" ""
           "now" "later" Redis.desiredRedis Redis.liveRedis
           RedisExamples.patchedRedis
           "container image, tolerations, container args").
  vm_compute. reflexivity.
Defined.


Section RedisStatefulSet.
Import RedisHA.

Context {ContainerRestT NodeSelectorT TolerationsT RestT : Type}.
Context `{!EqDecision NodeSelectorT, !EqDecision TolerationsT}.

Abbreviation HAContainerT := (Container ContainerRestT).
Abbreviation StatefulSetT :=
  (StatefulSet ContainerRestT NodeSelectorT TolerationsT RestT).
Abbreviation HAdiffT := (diff ContainerRestT NodeSelectorT TolerationsT RestT).


Lemma noteChangeHA_Noted field (d : HAdiffT) (patched : StatefulSetT) ns :
  Noted d ns -> Noted (noteChange field d patched) (ns ++ [field]).
Proof.
  intros [Hc He]. split; cbn.
  - rewrite bool_decide_eq_false_2; [done|]. by destruct ns.
  - rewrite concat_snoc, Hc, He. destruct ns as [|x xs]; [done|].
    rewrite bool_decide_eq_false_2 by done. cbn [negb].
    by rewrite string_append_assoc.
Qed.

Lemma noteChangeHA_if_Noted (b : bool) field (d : HAdiffT)
    (patched : StatefulSetT) ns :
  Noted d ns ->
  Noted (if b then noteChange field d patched else d)
    (ns ++ (if b then [field] else [])).
Proof.
  intros Hd. destruct b; [by apply noteChangeHA_Noted|by rewrite app_nil_r].
Qed.

(** What [updateNodePlacementForStatefulSet] does to a fresh diff. *)
Lemma updateNodePlacementForStatefulSet_effect (ss existing : StatefulSetT) :
  exists d,
    updateNodePlacementForStatefulSet ss (mkDiff existing false "") = d
    /\ existingSS d
       = mkStatefulSet (TemplateLabels existing) (Containers existing)
           (InitContainers existing) (NodeSelector ss) (Tolerations ss)
           (Rest existing)
    /\ Noted d
         ((if negb (bool_decide (NodeSelector existing = NodeSelector ss))
           then ["node selector"] else [])
          ++ (if negb (bool_decide (Tolerations existing = Tolerations ss))
              then ["tolerations"] else [])).
Proof.
  eexists. split; [done|]. unfold updateNodePlacementForStatefulSet.
  cbn [existingSS]. destruct existing as [tl cs ics ns tol rest].
  cbn [NodeSelector Tolerations TemplateLabels Containers InitContainers Rest].
  destruct (decide (ns = NodeSelector ss)) as [->|Hns].
  - rewrite (bool_decide_eq_true_2 (NodeSelector ss = NodeSelector ss)) by done.
    cbn [negb existingSS Tolerations].
    destruct (decide (tol = Tolerations ss)) as [->|Htol].
    + rewrite bool_decide_eq_true_2 by done. by repeat split.
    + rewrite bool_decide_eq_false_2 by done. by repeat split.
  - rewrite (bool_decide_eq_false_2 (ns = NodeSelector ss)) by done.
    cbn [negb existingSS noteChange setNodeSelector Tolerations].
    destruct (decide (tol = Tolerations ss)) as [->|Htol].
    + rewrite bool_decide_eq_true_2 by done. by repeat split.
    + rewrite bool_decide_eq_false_2 by done. by repeat split.
Qed.

Lemma alter_middle {A} (f : A -> A) (done : list A) (x : A) (rest : list A) :
  alter f (length done) (done ++ x :: rest) = done ++ f x :: rest.
Proof. induction done as [|y done IH]; [done|]. cbn. by rewrite IH. Qed.

Lemma stamped_stamped (t : string) (stamp : option string)
    (labels : option (gmap string string)) :
  exists stamp',
    stamped stamp (stamped (Some t) labels) = stamped (Some stamp') labels.
Proof.
  destruct stamp as [t'|]; [|by exists t].
  exists t'. destruct labels as [labels|]; [|done]. cbn.
  by rewrite insert_insert_eq.
Qed.

Lemma containersLoop_effect (redisImage desiredImagePullPolicy : string)
    (now : nat -> string) (containers : list HAContainerT) :
  forall (i : nat) (d : HAdiffT) (done : list HAContainerT) ns,
    Containers (existingSS d) = done ++ containers ->
    length done = i ->
    Noted d ns ->
    (TemplateLabels (existingSS d) = None ->
     Forall (fun c => Image c = redisImage) containers) ->
    exists d' stamp,
      containersLoop redisImage desiredImagePullPolicy now i containers d
        = Some d'
      /\ Containers (existingSS d')
         = done ++ map (settle redisImage desiredImagePullPolicy) containers
      /\ TemplateLabels (existingSS d')
         = stamped stamp (TemplateLabels (existingSS d))
      /\ (stamp = None
          <-> Forall (fun c => Image c = redisImage) containers)
      /\ InitContainers (existingSS d') = InitContainers (existingSS d)
      /\ NodeSelector (existingSS d') = NodeSelector (existingSS d)
      /\ Tolerations (existingSS d') = Tolerations (existingSS d)
      /\ Rest (existingSS d') = Rest (existingSS d)
      /\ Noted d'
           (ns ++ flat_map (containerFields "container image"
                              "image pull policy" redisImage
                              desiredImagePullPolicy) containers).
Proof.
  induction containers as [|container rest IH]; intros i d done ns Hcs Hlen Hd Hl.
  { exists d, None. cbn. by rewrite !app_nil_r in *. }
  cbn [containersLoop]. subst i.
  set (afterImage := if negb (String.eqb (Image container) redisImage)
                     then _ else Some d).
  assert (exists d1,
            afterImage = Some d1
            /\ Containers (existingSS d1)
               = done ++ mkContainer redisImage (ImagePullPolicy container)
                           (ContainerRest container) :: rest
            /\ TemplateLabels (existingSS d1)
               = stamped (if negb (String.eqb (Image container) redisImage)
                          then Some (now (length done)) else None)
                   (TemplateLabels (existingSS d))
            /\ InitContainers (existingSS d1) = InitContainers (existingSS d)
            /\ NodeSelector (existingSS d1) = NodeSelector (existingSS d)
            /\ Tolerations (existingSS d1) = Tolerations (existingSS d)
            /\ Rest (existingSS d1) = Rest (existingSS d)
            /\ Noted d1
                 (ns ++ (if negb (String.eqb (Image container) redisImage)
                         then ["container image"] else [])))
    as (d1 & -> & Hcs1 & Hl1 & Hi1 & Hn1 & Ht1 & Hr1 & Hd1).
  { subst afterImage.
    destruct (String.eqb_spec (Image container) redisImage) as [Heq|Hne];
      cbn [negb].
    - exists d. rewrite app_nil_r. split_and!; try done.
      rewrite Hcs. by destruct container; cbn in *; subst.
    - cbn [TemplateLabels setContainers].
      destruct (TemplateLabels (existingSS d)) as [labels|] eqn:Hlabels.
      + eexists. split; [done|]. cbn. rewrite Hcs, alter_middle.
        split_and!; try done. by apply noteChangeHA_Noted.
      + specialize (Hl eq_refl). by apply Forall_cons in Hl as [? _]. }
  set (d2 := if negb (String.eqb (ImagePullPolicy container) _) then _ else d1).
  assert (Containers (existingSS d2)
          = (done ++ [settle redisImage desiredImagePullPolicy container]) ++ rest
          /\ TemplateLabels (existingSS d2) = TemplateLabels (existingSS d1)
          /\ InitContainers (existingSS d2) = InitContainers (existingSS d)
          /\ NodeSelector (existingSS d2) = NodeSelector (existingSS d)
          /\ Tolerations (existingSS d2) = Tolerations (existingSS d)
          /\ Rest (existingSS d2) = Rest (existingSS d)
          /\ Noted d2
               (ns ++ containerFields "container image" "image pull policy"
                        redisImage desiredImagePullPolicy container))
    as (Hcs2 & Hl2 & Hi2 & Hn2 & Ht2 & Hr2 & Hd2).
  { subst d2. unfold containerFields.
    rewrite (app_assoc ns), <- (app_assoc done). cbn [app].
    destruct (String.eqb_spec (ImagePullPolicy container)
                desiredImagePullPolicy) as [Heq|Hne]; cbn [negb].
    - rewrite app_nil_r. split_and!; try done. rewrite Hcs1.
      unfold settle. by rewrite Heq.
    - cbn. rewrite Hcs1, alter_middle. split_and!; try done.
      by apply noteChangeHA_Noted. }
  clearbody d2.
  destruct (IH (S (length done)) d2
              (done ++ [settle redisImage desiredImagePullPolicy container])
              (ns ++ containerFields "container image" "image pull policy"
                       redisImage desiredImagePullPolicy container))
    as (d' & stamp' & Hrun & Hcs' & Hl' & Hs' & Hi' & Hn' & Ht' & Hr' & Hd');
    try done.
  { rewrite length_app. cbn. lia. }
  { intros Hnone. rewrite Hl2, Hl1 in Hnone.
    assert (TemplateLabels (existingSS d) = None) as Hnone'.
    { destruct (TemplateLabels (existingSS d)); [|done].
      by destruct (negb _). }
    specialize (Hl Hnone'). by apply Forall_cons in Hl as [_ ?]. }
  rewrite <- !app_assoc in Hcs'. cbn [app] in Hcs'.
  rewrite Hl2, Hl1 in Hl'.
  assert (exists stamp,
            TemplateLabels (existingSS d')
            = stamped stamp (TemplateLabels (existingSS d))
            /\ (stamp = None
                <-> Forall (fun c => Image c = redisImage) (container :: rest)))
    as (stamp & Hl'' & Hs'').
  { destruct (String.eqb_spec (Image container) redisImage) as [Heq|Hne];
      cbn [negb] in Hl'.
    - exists stamp'. split; [done|]. rewrite Hs'. split.
      + by constructor.
      + by intros [_ ?]%Forall_cons.
    - destruct (stamped_stamped (now (length done)) stamp'
                  (TemplateLabels (existingSS d))) as [t Ht].
      exists (Some t). split; [congruence|]. split; [done|].
      by intros [? _]%Forall_cons. }
  exists d', stamp. split; [done|].
  cbn [map flat_map]. rewrite (app_assoc ns). split_and!; congruence.
Qed.

Lemma containersLoop_None (redisImage desiredImagePullPolicy : string)
    (now : nat -> string) (containers : list HAContainerT) :
  forall (i : nat) (d : HAdiffT),
    containersLoop redisImage desiredImagePullPolicy now i containers d = None
    <-> TemplateLabels (existingSS d) = None
        /\ Exists (fun c => Image c <> redisImage) containers.
Proof.
  induction containers as [|container rest IH]; intros i d.
  { cbn. split; [done|]. by intros [_ ?%Exists_nil]. }
  cbn [containersLoop].
  destruct (String.eqb_spec (Image container) redisImage) as [Heq|Hne];
    cbn [negb].
  - rewrite IH. split.
    + intros [Hl Hex]. split; [|by apply Exists_cons_tl].
      by destruct (negb _).
    + intros [Hl [?|Hex]%Exists_cons]; [done|]. split; [|done].
      by destruct (negb _).
  - cbn [TemplateLabels setContainers].
    destruct (TemplateLabels (existingSS d)) as [labels|] eqn:Hl.
    + rewrite IH. split; [|by intros [? _]].
      intros [Hnone _]. by destruct (negb _).
    + split; [|done]. intros _. split; [done|]. by apply Exists_cons_hd.
Qed.

Lemma initContainersLoop_effect (redisImage desiredImagePullPolicy : string)
    (containers : list HAContainerT) :
  forall (i : nat) (d : HAdiffT) (done : list HAContainerT) ns,
    InitContainers (existingSS d) = done ++ containers ->
    length done = i ->
    Noted d ns ->
    exists d',
      initContainersLoop redisImage desiredImagePullPolicy i containers d = d'
      /\ InitContainers (existingSS d')
         = done ++ map (settle redisImage desiredImagePullPolicy) containers
      /\ Containers (existingSS d') = Containers (existingSS d)
      /\ TemplateLabels (existingSS d') = TemplateLabels (existingSS d)
      /\ NodeSelector (existingSS d') = NodeSelector (existingSS d)
      /\ Tolerations (existingSS d') = Tolerations (existingSS d)
      /\ Rest (existingSS d') = Rest (existingSS d)
      /\ Noted d'
           (ns ++ flat_map (containerFields "init container image"
                              "init container image pull policy" redisImage
                              desiredImagePullPolicy) containers).
Proof.
  induction containers as [|container rest IH]; intros i d done ns Hcs Hlen Hd.
  { exists d. cbn. by rewrite !app_nil_r in *. }
  cbn [initContainersLoop]. subst i.
  set (d1 := if negb (String.eqb (Image container) redisImage) then _ else d).
  assert (InitContainers (existingSS d1)
          = done ++ mkContainer redisImage (ImagePullPolicy container)
                      (ContainerRest container) :: rest
          /\ Containers (existingSS d1) = Containers (existingSS d)
          /\ TemplateLabels (existingSS d1) = TemplateLabels (existingSS d)
          /\ NodeSelector (existingSS d1) = NodeSelector (existingSS d)
          /\ Tolerations (existingSS d1) = Tolerations (existingSS d)
          /\ Rest (existingSS d1) = Rest (existingSS d)
          /\ Noted d1
               (ns ++ (if negb (String.eqb (Image container) redisImage)
                       then ["init container image"] else [])))
    as (Hcs1 & Hc1 & Hl1 & Hn1 & Ht1 & Hr1 & Hd1).
  { subst d1.
    destruct (String.eqb_spec (Image container) redisImage) as [Heq|Hne];
      cbn [negb].
    - rewrite app_nil_r. split_and!; try done.
      rewrite Hcs. by destruct container; cbn in *; subst.
    - cbn. rewrite Hcs, alter_middle. split_and!; try done.
      by apply noteChangeHA_Noted. }
  clearbody d1.
  set (d2 := if negb (String.eqb (ImagePullPolicy container) _) then _ else d1).
  assert (InitContainers (existingSS d2)
          = (done ++ [settle redisImage desiredImagePullPolicy container]) ++ rest
          /\ Containers (existingSS d2) = Containers (existingSS d)
          /\ TemplateLabels (existingSS d2) = TemplateLabels (existingSS d)
          /\ NodeSelector (existingSS d2) = NodeSelector (existingSS d)
          /\ Tolerations (existingSS d2) = Tolerations (existingSS d)
          /\ Rest (existingSS d2) = Rest (existingSS d)
          /\ Noted d2
               (ns ++ containerFields "init container image"
                        "init container image pull policy"
                        redisImage desiredImagePullPolicy container))
    as (Hcs2 & Hc2 & Hl2 & Hn2 & Ht2 & Hr2 & Hd2).
  { subst d2. unfold containerFields.
    rewrite (app_assoc ns), <- (app_assoc done). cbn [app].
    destruct (String.eqb_spec (ImagePullPolicy container)
                desiredImagePullPolicy) as [Heq|Hne]; cbn [negb].
    - rewrite app_nil_r. split_and!; try done. rewrite Hcs1.
      unfold settle. by rewrite Heq.
    - cbn. rewrite Hcs1, alter_middle. split_and!; try done.
      by apply noteChangeHA_Noted. }
  clearbody d2.
  destruct (IH (S (length done)) d2
              (done ++ [settle redisImage desiredImagePullPolicy container])
              (ns ++ containerFields "init container image"
                       "init container image pull policy"
                       redisImage desiredImagePullPolicy container))
    as (d' & Hrun & Hcs' & Hc' & Hl' & Hn' & Ht' & Hr' & Hd'); try done.
  { rewrite length_app. cbn. lia. }
  exists d'. split; [done|]. rewrite <- !app_assoc in Hcs'. cbn [app] in Hcs'.
  cbn [map flat_map]. rewrite (app_assoc ns). split_and!; congruence.
Qed.

(** The update block as a whole, when it does not panic. *)
Lemma checkUpdateHA_effect (redisImage imagePullPolicy : string)
    (now : nat -> string) (ss existing : StatefulSetT) :
  (TemplateLabels existing = None ->
   Forall (fun c => Image c = redisImage) (Containers existing)) ->
  exists d stamp,
    checkUpdate redisImage imagePullPolicy now ss existing = Some d
    /\ existingSS d = settled redisImage imagePullPolicy stamp ss existing
    /\ (stamp = None
        <-> Forall (fun c => Image c = redisImage) (Containers existing))
    /\ Noted d (changedFields redisImage imagePullPolicy ss existing).
Proof.
  intros Hl. unfold checkUpdate.
  destruct (updateNodePlacementForStatefulSet_effect ss existing)
    as (d0 & -> & Hss0 & Hd0).
  destruct (containersLoop_effect redisImage
              (getImagePullPolicy imagePullPolicy) now
              (Containers (existingSS d0)) 0 d0 [] _ eq_refl eq_refl Hd0)
    as (d1 & stamp & -> & Hcs1 & Hl1 & Hs1 & Hi1 & Hn1 & Ht1 & Hr1 & Hd1).
  { rewrite Hss0. exact Hl. }
  destruct (initContainersLoop_effect redisImage
              (getImagePullPolicy imagePullPolicy)
              (InitContainers (existingSS d1)) 0 d1 [] _ eq_refl eq_refl Hd1)
    as (d2 & -> & Hi2 & Hc2 & Hl2 & Hn2 & Ht2 & Hr2 & Hd2).
  exists d2, stamp. split; [done|]. rewrite Hss0 in *. cbn in *.
  split_and!.
  - unfold settled. destruct (existingSS d2). cbn in *. congruence.
  - done.
  - unfold changedFields. rewrite Hi1 in Hd2. by rewrite <- !app_assoc in Hd2.
Qed.

Lemma checkUpdateHA_None (redisImage imagePullPolicy : string)
    (now : nat -> string) (ss existing : StatefulSetT) :
  checkUpdate redisImage imagePullPolicy now ss existing = None
  <-> TemplateLabels existing = None
      /\ Exists (fun c => Image c <> redisImage) (Containers existing).
Proof.
  unfold checkUpdate.
  destruct (updateNodePlacementForStatefulSet_effect ss existing)
    as (d0 & -> & Hss0 & _).
  assert (TemplateLabels existing = TemplateLabels (existingSS d0)
          /\ Containers existing = Containers (existingSS d0)) as [-> ->]
    by (by rewrite Hss0).
  rewrite <- (containersLoop_None redisImage
                (getImagePullPolicy imagePullPolicy) now
                (Containers (existingSS d0)) 0 d0).
  by destruct (containersLoop _ _ _ _ _ _).
Qed.

Lemma not_Exists_other_image (redisImage : string)
    (containers : list HAContainerT) :
  ~ Exists (fun c => Image c <> redisImage) containers ->
  Forall (fun c => Image c = redisImage) containers.
Proof.
  intros Hno. apply Forall_forall. intros c Hc.
  destruct (decide (Image c = redisImage)) as [|Hne]; [done|].
  destruct Hno. apply Exists_exists. by exists c.
Qed.

Lemma containerFields_settle (imageField policyField : string)
    (redisImage desiredImagePullPolicy : string) (container : HAContainerT) :
  containerFields imageField policyField redisImage desiredImagePullPolicy
    (settle redisImage desiredImagePullPolicy container) = [].
Proof. unfold containerFields, settle. cbn. by rewrite !String.eqb_refl. Qed.

Lemma changedFields_settled (redisImage imagePullPolicy : string)
    (stamp : option string) (ss existing : StatefulSetT) :
  changedFields redisImage imagePullPolicy ss
    (settled redisImage imagePullPolicy stamp ss existing) = [].
Proof.
  unfold changedFields, settled. cbn.
  rewrite !bool_decide_eq_true_2 by done. cbn.
  assert (forall f1 f2 (l : list HAContainerT),
            flat_map (containerFields f1 f2 redisImage
                        (getImagePullPolicy imagePullPolicy))
              (map (settle redisImage (getImagePullPolicy imagePullPolicy)) l)
            = []) as Hflat.
  { intros f1 f2 l. induction l as [|c l IH]; [done|].
    cbn [map flat_map]. by rewrite containerFields_settle, IH. }
  by rewrite !Hflat.
Qed.

Lemma Forall_Image_settled (redisImage imagePullPolicy : string)
    (stamp : option string) (ss existing : StatefulSetT) :
  Forall (fun c => Image c = redisImage)
    (Containers (settled redisImage imagePullPolicy stamp ss existing)).
Proof. cbn. induction (Containers existing); by constructor. Qed.

(** X9. A StatefulSet whose pod template and containers differ from the
    desired ones in several fields is brought up to date by one update
    call: the logged explanation lists every differing field once, in
    the order node selector, tolerations, containers, init containers,
    and the object sent has every container and init container on the
    Redis image and the pull policy of the instance. When nothing
    differs no call is made. *)
Theorem ReconcileRedisStatefulSet_single_update
    (redisImage imagePullPolicy : string) (now : nat -> string)
    (ss existing : StatefulSetT) :
  (TemplateLabels existing = None ->
   Forall (fun c => Image c = redisImage) (Containers existing)) ->
  exists stamp,
    (stamp = None
     <-> Forall (fun c => Image c = redisImage) (Containers existing))
    /\ ReconcileRedisStatefulSet true true redisImage imagePullPolicy now ss
         (Found existing)
       = Returned
           match changedFields redisImage imagePullPolicy ss existing with
           | [] => []
           | fields =>
               [LogResourceUpdate (String.concat ", " fields);
                ClientUpdate
                  (settled redisImage imagePullPolicy stamp ss existing)]
           end.
Proof.
  intros Hl.
  destruct (checkUpdateHA_effect redisImage imagePullPolicy now ss existing Hl)
    as (d & stamp & Hrun & Hss & Hstamp & Hc & He).
  exists stamp. split; [done|]. cbn. rewrite Hrun, Hc, He, Hss.
  by destruct (changedFields _ _ _ _).
Qed.

(** X10. The update of a StatefulSet converges: when a run updates the
    stored object, a later run over the object it sent, with the same
    desired object, image and pull policy, makes no call at all. *)
Theorem ReconcileRedisStatefulSet_converges (haEnabled redisEnabled : bool)
    (redisImage imagePullPolicy : string) (now now' : nat -> string)
    (ss existing patched : StatefulSetT) (explanation : string) :
  ReconcileRedisStatefulSet haEnabled redisEnabled redisImage imagePullPolicy
    now ss (Found existing)
  = Returned [LogResourceUpdate explanation; ClientUpdate patched] ->
  ReconcileRedisStatefulSet haEnabled redisEnabled redisImage imagePullPolicy
    now' ss (Found patched)
  = Returned [].
Proof.
  intros Hrun.
  destruct haEnabled; [|by destruct redisEnabled].
  destruct redisEnabled; [|done].
  assert (TemplateLabels existing = None ->
          Forall (fun c => Image c = redisImage) (Containers existing)) as Hl.
  { intros Hnone. apply not_Exists_other_image. intros Hex.
    assert (checkUpdate redisImage imagePullPolicy now ss existing = None)
      as Hpanic by (by apply checkUpdateHA_None).
    cbn in Hrun. by rewrite Hpanic in Hrun. }
  destruct (checkUpdateHA_effect redisImage imagePullPolicy now ss existing Hl)
    as (d & stamp & Hcheck & Hss & _ & _ & _).
  cbn in Hrun. rewrite Hcheck in Hrun.
  destruct (changed d); [|done]. injection Hrun as _ <-. rewrite Hss.
  destruct (checkUpdateHA_effect redisImage imagePullPolicy now' ss
              (settled redisImage imagePullPolicy stamp ss existing))
    as (d' & stamp' & Hcheck' & _ & _ & Hc' & _).
  { intros _. apply Forall_Image_settled. }
  cbn. by rewrite Hcheck', Hc', changedFields_settled.
Qed.

(** X11. [ReconcileRedisStatefulSet] panics in exactly one situation: the
    StatefulSet exists, HA and Redis are enabled, some container (init
    containers do not count) runs another image than the Redis image and
    the pod template has no label map to take the [image.upgraded]
    label. *)
Theorem ReconcileRedisStatefulSet_panics (haEnabled redisEnabled : bool)
    (redisImage imagePullPolicy : string) (now : nat -> string)
    (ss : StatefulSetT)
    (lookup : Lookup ContainerRestT NodeSelectorT TolerationsT RestT) :
  ReconcileRedisStatefulSet haEnabled redisEnabled redisImage imagePullPolicy
    now ss lookup = Panic
  <-> haEnabled = true /\ redisEnabled = true
      /\ exists existing,
           lookup = Found existing
           /\ TemplateLabels existing = None
           /\ Exists (fun c => Image c <> redisImage) (Containers existing).
Proof.
  split.
  - destruct lookup as [|existing|]; cbn; [done| |by destruct (_ || _)].
    destruct haEnabled; [|by destruct redisEnabled].
    destruct redisEnabled; [|done]. cbn.
    destruct (checkUpdate _ _ _ _ _) as [d|] eqn:Hcheck;
      [by destruct (changed d)|].
    intros _. split_and!; try done. exists existing. split; [done|].
    by apply checkUpdateHA_None in Hcheck.
  - intros (-> & -> & existing & -> & Hnone & Hex). cbn.
    assert (checkUpdate redisImage imagePullPolicy now ss existing = None)
      as -> by (by apply checkUpdateHA_None).
    done.
Qed.

End RedisStatefulSet.

Lemma ReconcileRedisStatefulSet_single_update_witness :
  exists stamp,
    RedisHA.ReconcileRedisStatefulSet true true "redis:7" "" RedisHA.exampleNow
      RedisHA.desiredRedisHA (RedisHA.Found RedisHA.liveRedisHA)
    = RedisHA.Returned
        [RedisHA.LogResourceUpdate
           "tolerations, container image, image pull policy, init container image";
         RedisHA.ClientUpdate
           (RedisHA.settled "redis:7" "" stamp RedisHA.desiredRedisHA
              RedisHA.liveRedisHA)].
Proof.
  destruct (ReconcileRedisStatefulSet_single_update "redis:7" ""
              RedisHA.exampleNow RedisHA.desiredRedisHA RedisHA.liveRedisHA)
    as (stamp & _ & Hrun).
  - vm_compute. discriminate.
  - exists stamp. exact Hrun.
Defined.

Lemma ReconcileRedisStatefulSet_converges_witness :
  RedisHA.ReconcileRedisStatefulSet true true "redis:7" "" (fun _ => "later")
    RedisHA.desiredRedisHA
    (RedisHA.Found
       (RedisHA.settled "redis:7" "" (Some "10312026-120000-UTC")
          RedisHA.desiredRedisHA RedisHA.liveRedisHA))
  = RedisHA.Returned [].
Proof.
  apply (ReconcileRedisStatefulSet_converges true true "redis:7" ""
           RedisHA.exampleNow (fun _ => "later") RedisHA.desiredRedisHA
           RedisHA.liveRedisHA
           (RedisHA.settled "redis:7" "" (Some "10312026-120000-UTC")
              RedisHA.desiredRedisHA RedisHA.liveRedisHA)
           "tolerations, container image, image pull policy, init container image").
  vm_compute. reflexivity.
Defined.

(** * More of controllers/clusterargocd: what a pass does to the store *)

Section ClusterStoreEffects.
Import Cluster ClusterStore.
Variable common : Common.
Variable labelsParse : string -> option (gmap string string -> bool).


(** ** What a pass does to the store *)

Lemma set_trace_id w : set_trace (trace w) w = w.
Proof. by destruct w. Qed.

(** X12. A request for a ClusterArgoCD that is not in the store ends the
    pass at once: it returns no error and the zero instance, and all it
    does is the log line and the one read; the store, the timers and the
    instance map stay as they are. *)
Theorem internalReconcile_not_found name w :
  quiet (faults w) ->
  clusterArgoCDs w !! name = None ->
  internalReconcile common labelsParse name w =
    ((None, emptyClusterArgoCD "", mkStatus "" "" ""),
     set_trace
       (trace w ++ [ELog "Reconciling ClusterArgoCD";
                    ECall (mkCall Get KClusterArgoCD "" name) NotFoundResult])
       w).
Proof.
  intros Hq Hlookup. unfold internalReconcile. rewrite !bind_run.
  set (w0 := (logInfo "Reconciling ClusterArgoCD" w).2).
  unfold getClusterArgoCD, clientGet.
  change (faults w0) with (faults w).
  change (clusterArgoCDs w0) with (clusterArgoCDs w).
  rewrite Hq, Hlookup. cbn [fst snd IsNotFound]. unfold ret. f_equal.
  subst w0. unfold logInfo, emit, modify, set_trace. cbn. by rewrite <- app_assoc.
Qed.


Lemma writesOf_app e1 e2 : writesOf (e1 ++ e2) = writesOf e1 ++ writesOf e2.
Proof. unfold writesOf, callsOf. by rewrite omap_app, filter_app. Qed.

(** X13. When the label selector of the operator does not parse, or does
    not match the labels of the instance, the pass returns an error and
    writes nothing: the world changes by log lines and the read only,
    also for an instance that is being deleted, whose finalizer
    therefore stays. *)
Theorem internalReconcile_not_selected name c w :
  quiet (faults w) ->
  clusterArgoCDs w !! name = Some c ->
  match labelsParse (LabelSelector w) with
  | Some select => select (Labels c) = false
  | None => True
  end ->
  exists evs,
    is_Some (internalReconcile common labelsParse name w).1.1.1
    /\ (internalReconcile common labelsParse name w).2
       = set_trace (trace w ++ evs) w
    /\ writesOf evs = [].
Proof.
  intros Hq Hlookup Hsel. unfold internalReconcile. rewrite !bind_run.
  set (w0 := (logInfo "Reconciling ClusterArgoCD" w).2).
  unfold getClusterArgoCD, clientGet.
  change (faults w0) with (faults w).
  change (clusterArgoCDs w0) with (clusterArgoCDs w).
  rewrite Hq, Hlookup. cbn [fst snd].
  set (w1 := (emit _ w0).2).
  unfold reconcileInstance.
  set (warn := match nReplicas (Notifications (Spec c)) with
               | Some replicas => if (1 <? replicas)%Z then logInfo _ else ret tt
               | None => ret tt
               end).
  assert (exists pre, (warn w1).2 = set_trace (trace w1 ++ pre) w1
                      /\ writesOf pre = []) as (pre & Hw & Hpre).
  { subst warn. destruct (nReplicas _) as [replicas|];
      [destruct (1 <? replicas)%Z|].
    - by eexists [_].
    - exists []. by rewrite app_nil_r, set_trace_id.
    - exists []. by rewrite app_nil_r, set_trace_id. }
  rewrite bind_run, Hw. rewrite bind_run. unfold get. cbn [fst snd].
  change (LabelSelector (set_trace _ w1)) with (LabelSelector w).
  destruct (labelsParse (LabelSelector w)) as [select|].
  - rewrite Hsel. cbn [negb].
    eexists ([_; _] ++ pre ++ [_]). split; [by eexists|]. split.
    + subst w1 w0. cbn. by rewrite <- !app_assoc.
    + by rewrite !writesOf_app, Hpre.
  - eexists ([_; _] ++ pre ++ [_]). split; [by eexists|]. split.
    + subst w1 w0. cbn. by rewrite <- !app_assoc.
    + by rewrite !writesOf_app, Hpre.
Qed.


(** *** Token renewal timers *)

Lemma lookup_foldr_delete_keys {A} (m : gmap string A) (ks : list string) k :
  foldr delete m ks !! k = if decide (k ∈ ks) then None else m !! k.
Proof.
  induction ks as [|j ks IH]; [done|]. cbn [foldr].
  destruct (decide (j = k)) as [->|Hne].
  - rewrite lookup_delete_eq. rewrite decide_True; [done|]. apply elem_of_cons. by left.
  - rewrite lookup_delete_ne by done. rewrite IH.
    destruct (decide (k ∈ ks)) as [Hin|Hin].
    + rewrite decide_True; [done|]. apply elem_of_cons. by right.
    + rewrite decide_False; [done|]. intros [->|?]%elem_of_cons; done.
Qed.

Lemma foldr_delete_timerKeys name (timers : gmap string unit) :
  foldr delete timers
    (filter (fun key => timerKeyOf name key = true) (map_to_list timers).*1)
  = filter (fun kv => timerKeyOf name kv.1 = false) timers.
Proof.
  apply map_eq. intros key. rewrite lookup_foldr_delete_keys.
  destruct (timers !! key) as [u|] eqn:Hkey.
  - destruct (timerKeyOf name key) eqn:Hk.
    + rewrite decide_True.
      * symmetry. apply map_lookup_filter_None. right. intros x _. cbn. by rewrite Hk.
      * apply list_elem_of_filter. split; [done|].
        apply list_elem_of_fmap. exists (key, u). split; [done|].
        by apply elem_of_map_to_list.
    + rewrite decide_False.
      * symmetry. by apply map_lookup_filter_Some.
      * intros [Hk' _]%list_elem_of_filter. congruence.
  - transitivity (@None unit); [by destruct (decide _)|].
    symmetry. apply map_lookup_filter_None. by left.
Qed.

Lemma cleanupClusterInstanceTokenTimers_effect name w :
  exists evs,
    (cleanupClusterInstanceTokenTimers name w).2
    = set_trace (trace w ++ evs)
        (set_TokenRenewalTimers
           (filter (fun kv => timerKeyOf name kv.1 = false)
              <$> TokenRenewalTimers w) w).
Proof.
  unfold cleanupClusterInstanceTokenTimers. rewrite bind_run. unfold get.
  cbn [fst snd]. destruct (TokenRenewalTimers w) as [timers|] eqn:Ht.
  - rewrite bind_run. eexists [_]. cbn. rewrite foldr_delete_timerKeys.
    by destruct w.
  - exists []. cbn. destruct w. cbn in *. subst. by rewrite app_nil_r.
Qed.

Lemma cleanupClusterInstanceTokenTimers_filter name w :
  TokenRenewalTimers (cleanupClusterInstanceTokenTimers name w).2
  = filter (fun kv => timerKeyOf name kv.1 = false) <$> TokenRenewalTimers w.
Proof.
  destruct (cleanupClusterInstanceTokenTimers_effect name w) as [evs ->]. done.
Qed.

Lemma prefix_length a b : String.prefix a b = true -> (String.length a <= String.length b)%nat.
Proof.
  revert b. induction a as [|x a IH]; intros [|y b]; cbn; try done; try lia.
  destruct (Ascii.ascii_dec x y); [|done]. intros H. apply IH in H. lia.
Qed.

Lemma prefix_trans a b c :
  String.prefix a b = true -> String.prefix b c = true -> String.prefix a c = true.
Proof.
  revert b c. induction a as [|x a IH]; intros [|y b] [|z c]; cbn; try done.
  destruct (Ascii.ascii_dec x y) as [->|]; [|done].
  destruct (Ascii.ascii_dec y z) as [->|]; [|done]. apply IH.
Qed.

Lemma timerKeyOf_extends name other key :
  String.prefix name other = true ->
  timerKeyOf other key = true -> timerKeyOf name key = true.
Proof.
  unfold timerKeyOf. intros Hp [Hlen Hpre]%andb_prop.
  apply andb_true_intro. split.
  - apply Nat.ltb_lt in Hlen. apply Nat.ltb_lt. apply prefix_length in Hp. lia.
  - by apply (prefix_trans _ other).
Qed.

(** X14. The timers of an instance are found by the prefix of their key,
    with no separator after the name: cleaning up the timers of [name]
    also removes every timer of another instance whose name starts with
    [name]. Keys that [name] does not start stay with their timers. *)
Theorem timers_of_longer_name_cancelled name other key timers w :
  TokenRenewalTimers w = Some timers ->
  String.prefix name other = true ->
  timerKeyOf other key = true ->
  exists timers',
    TokenRenewalTimers (cleanupClusterInstanceTokenTimers name w).2 = Some timers'
    /\ timers' !! key = None
    /\ (forall key', timerKeyOf name key' = false -> timers' !! key' = timers !! key').
Proof.
  intros Ht Hp Hk. rewrite cleanupClusterInstanceTokenTimers_filter, Ht.
  eexists. split; [done|]. split.
  - apply map_lookup_filter_None. right. intros x _. cbn.
    by rewrite (timerKeyOf_extends name other key).
  - intros key' Hk'. destruct (timers !! key') as [u|] eqn:E.
    + by apply map_lookup_filter_Some.
    + apply map_lookup_filter_None. by left.
Qed.


(** *** Deletion of the cluster-scoped objects *)

Lemma matching_keys {A} (labelsOf : A -> gmap string string) labelKey labelValue
    (m : gmap string A) k :
  k ∈ (matching labelsOf labelKey labelValue m).*1
  <-> exists x, m !! k = Some x /\ labelsOf x !! labelKey = Some labelValue.
Proof.
  unfold matching. rewrite list_elem_of_fmap. split.
  - intros ([k' x] & -> & Hin). apply elem_of_map_to_list in Hin.
    apply map_lookup_filter_Some in Hin as [? ?]. by exists x.
  - intros (x & Hk & Hl). exists (k, x). split; [done|].
    apply elem_of_map_to_list. by apply map_lookup_filter_Some.
Qed.

Lemma delete_matching {A} (labelsOf : A -> gmap string string) labelKey labelValue
    (m m' : gmap string A) :
  (forall k, m' !! k =
     if decide (k ∈ (matching labelsOf labelKey labelValue m).*1)
     then None else m !! k) ->
  m' = filter (fun kv => labelsOf kv.2 !! labelKey <> Some labelValue) m.
Proof.
  intros Hm. apply map_eq. intros k. rewrite Hm.
  destruct (decide _) as [Hin|Hin].
  - apply matching_keys in Hin as (x & Hk & Hl). symmetry.
    apply map_lookup_filter_None. right. intros y Hy. cbn. congruence.
  - destruct (m !! k) as [x|] eqn:Hk; symmetry.
    + apply map_lookup_filter_Some. split; [done|]. cbn. intros Hl.
      apply Hin, matching_keys. by exists x.
    + apply map_lookup_filter_None. by left.
Qed.

Lemma deleteClusterRolesLoop_effect items w :
  exists evs M,
    (deleteClusterRolesLoop items w).2
      = set_trace (trace w ++ evs) (set_clusterRoles M w)
    /\ ((deleteClusterRolesLoop items w).1 = None ->
        forall k, M !! k = if decide (k ∈ items.*1) then None
                           else clusterRoles w !! k).
Proof.
  revert w. induction items as [|[name obj] rest IH]; intros w.
  - exists [], (clusterRoles w). split; [destruct w; cbn; by rewrite app_nil_r|].
    intros _ k. by rewrite decide_False by apply not_elem_of_nil.
  - cbn [deleteClusterRolesLoop]. rewrite !bind_run.
    set (w0 := (logInfo "deleting ClusterRole" w).2).
    unfold deleteClusterRole, clientWrite.
    destruct (faults w0 _ _).
    { cbn. eexists [_; _; _], (clusterRoles w).
      split; [destruct w; cbn; by rewrite <- !app_assoc|done]. }
    unfold onPresent. change (clusterRoles w0) with (clusterRoles w).
    destruct (clusterRoles w !! name) as [x|] eqn:Hname; cbn [errorOf fst snd negb IsNotFound].
    + set (w1 := (emit _ _).2).
      destruct (IH w1) as (evs & M & Hw & HM).
      eexists ([_; _] ++ evs), M. split.
      * rewrite Hw. subst w1 w0. destruct w. cbn. by rewrite <- !app_assoc.
      * intros Hnone k. rewrite (HM Hnone k). cbn.
        change (clusterRoles w1) with (delete name (clusterRoles w)).
        destruct (decide (k ∈ rest.*1)) as [Hin|Hin].
        -- rewrite decide_True; [done|]. apply elem_of_cons. by right.
        -- destruct (decide (k = name)) as [->|Hne].
           ++ rewrite lookup_delete_eq. rewrite decide_True; [done|].
              apply elem_of_cons. by left.
           ++ rewrite lookup_delete_ne by done. rewrite decide_False; [done|].
              intros [?|?]%elem_of_cons; done.
    + set (w1 := (emit _ _).2).
      destruct (IH w1) as (evs & M & Hw & HM).
      eexists ([_; _] ++ evs), M. split.
      * rewrite Hw. subst w1 w0. destruct w. cbn. by rewrite <- !app_assoc.
      * intros Hnone k. rewrite (HM Hnone k). cbn.
        change (clusterRoles w1) with (clusterRoles w).
        destruct (decide (k ∈ rest.*1)) as [Hin|Hin].
        -- rewrite decide_True; [done|]. apply elem_of_cons. by right.
        -- destruct (decide (k = name)) as [->|Hne].
           ++ rewrite Hname. rewrite decide_True; [done|].
              apply elem_of_cons. by left.
           ++ rewrite decide_False; [done|].
              intros [?|?]%elem_of_cons; done.
Qed.


Lemma deleteClusterRoleBindingsLoop_effect items w :
  exists evs M,
    (deleteClusterRoleBindingsLoop items w).2
      = set_trace (trace w ++ evs) (set_clusterRoleBindings M w)
    /\ ((deleteClusterRoleBindingsLoop items w).1 = None ->
        forall k, M !! k = if decide (k ∈ items.*1) then None
                           else clusterRoleBindings w !! k).
Proof.
  revert w. induction items as [|[name obj] rest IH]; intros w.
  - exists [], (clusterRoleBindings w). split; [destruct w; cbn; by rewrite app_nil_r|].
    intros _ k. by rewrite decide_False by apply not_elem_of_nil.
  - cbn [deleteClusterRoleBindingsLoop]. rewrite !bind_run.
    set (w0 := (logInfo "deleting ClusterRoleBinding" w).2).
    unfold deleteClusterRoleBinding, clientWrite.
    destruct (faults w0 _ _).
    { cbn. eexists [_; _; _], (clusterRoleBindings w).
      split; [destruct w; cbn; by rewrite <- !app_assoc|done]. }
    unfold onPresent. change (clusterRoleBindings w0) with (clusterRoleBindings w).
    destruct (clusterRoleBindings w !! name) as [x|] eqn:Hname; cbn [errorOf fst snd negb IsNotFound].
    + set (w1 := (emit _ _).2).
      destruct (IH w1) as (evs & M & Hw & HM).
      eexists ([_; _] ++ evs), M. split.
      * rewrite Hw. subst w1 w0. destruct w. cbn. by rewrite <- !app_assoc.
      * intros Hnone k. rewrite (HM Hnone k). cbn.
        change (clusterRoleBindings w1) with (delete name (clusterRoleBindings w)).
        destruct (decide (k ∈ rest.*1)) as [Hin|Hin].
        -- rewrite decide_True; [done|]. apply elem_of_cons. by right.
        -- destruct (decide (k = name)) as [->|Hne].
           ++ rewrite lookup_delete_eq. rewrite decide_True; [done|].
              apply elem_of_cons. by left.
           ++ rewrite lookup_delete_ne by done. rewrite decide_False; [done|].
              intros [?|?]%elem_of_cons; done.
    + set (w1 := (emit _ _).2).
      destruct (IH w1) as (evs & M & Hw & HM).
      eexists ([_; _] ++ evs), M. split.
      * rewrite Hw. subst w1 w0. destruct w. cbn. by rewrite <- !app_assoc.
      * intros Hnone k. rewrite (HM Hnone k). cbn.
        change (clusterRoleBindings w1) with (clusterRoleBindings w).
        destruct (decide (k ∈ rest.*1)) as [Hin|Hin].
        -- rewrite decide_True; [done|]. apply elem_of_cons. by right.
        -- destruct (decide (k = name)) as [->|Hne].
           ++ rewrite Hname. rewrite decide_True; [done|].
              apply elem_of_cons. by left.
           ++ rewrite decide_False; [done|].
              intros [?|?]%elem_of_cons; done.
Qed.

Lemma deleteClusterResources_effect clusterArgoCD w :
  exists evs,
    ((deleteClusterResources common clusterArgoCD w).1 = None ->
     (deleteClusterResources common clusterArgoCD w).2
     = set_trace (trace w ++ evs)
         (set_clusterRoleBindings
            (filter (fun kv => crbLabels kv.2 !! ArgoCDKeyName common
                               <> Some (Name clusterArgoCD))
               (clusterRoleBindings w))
            (set_clusterRoles
               (filter (fun kv => crLabels kv.2 !! ArgoCDKeyName common
                                  <> Some (Name clusterArgoCD))
                  (clusterRoles w))
               w)))
    /\ (quiet (faults w) ->
        (deleteClusterResources common clusterArgoCD w).1 = None).
Proof.
  destruct (deleteClusterResources_opened common clusterArgoCD w)
    as (evs0 & _ & _ & _ & Hquiet & (_ & _ & Hnone) & _).
  cut (exists evs,
          (deleteClusterResources common clusterArgoCD w).1 = None ->
          (deleteClusterResources common clusterArgoCD w).2
          = set_trace (trace w ++ evs)
              (set_clusterRoleBindings
                 (filter (fun kv => crbLabels kv.2 !! ArgoCDKeyName common
                                    <> Some (Name clusterArgoCD))
                    (clusterRoleBindings w))
                 (set_clusterRoles
                    (filter (fun kv => crLabels kv.2 !! ArgoCDKeyName common
                                       <> Some (Name clusterArgoCD))
                       (clusterRoles w))
                    w))).
  { intros [evs H]. exists evs. split; [done|]. intros Hq. by apply Hnone, Hquiet. }
  clear. unfold deleteClusterResources. rewrite !bind_run.
  set (w0 := (logInfo _ w).2).
  unfold listClusterRoles, clientList.
  destruct (faults w0 _ _); [by exists []|]. cbn [fst snd].
  set (w1 := (emit _ w0).2). unfold orReturn. rewrite bind_run.
  change (clusterRoles w0) with (clusterRoles w).
  destruct (deleteClusterRolesLoop_effect
              (matching crLabels (ArgoCDKeyName common) (Name clusterArgoCD)
                 (clusterRoles w)) w1) as (e1 & M1 & Hw1 & HM1).
  destruct (deleteClusterRolesLoop _ w1) as [r1 w2]. cbn [fst snd] in *.
  destruct r1 as [err|]; [by exists []|].
  specialize (HM1 eq_refl). change (clusterRoles w1) with (clusterRoles w) in HM1.
  apply delete_matching in HM1. subst M1.
  rewrite bind_run. unfold listClusterRoleBindings, clientList.
  destruct (faults w2 _ _); [by exists []|]. cbn [fst snd].
  set (w3 := (emit _ w2).2). rewrite bind_run.
  assert (clusterRoleBindings w2 = clusterRoleBindings w) as -> by by rewrite Hw1.
  destruct (deleteClusterRoleBindingsLoop_effect
              (matching crbLabels (ArgoCDKeyName common) (Name clusterArgoCD)
                 (clusterRoleBindings w)) w3) as (e2 & M2 & Hw3 & HM2).
  destruct (deleteClusterRoleBindingsLoop _ w3) as [r2 w4]. cbn [fst snd] in *.
  destruct r2 as [err|]; [by exists []|].
  specialize (HM2 eq_refl).
  assert (clusterRoleBindings w3 = clusterRoleBindings w) as Hb
    by (subst w3; cbn; by rewrite Hw1).
  rewrite Hb in HM2. apply delete_matching in HM2. subst M2.
  eexists ([_; _] ++ e1 ++ [_] ++ e2 ++ [_]). intros _.
  cbn. rewrite Hw3. subst w3. cbn. rewrite Hw1. subst w1 w0.
  destruct w. cbn. by rewrite <- !app_assoc.
Qed.


(** *** Release of the claims on source namespaces *)

Lemma removeLabelsLoop_effect labelKey current items w :
  quiet (faults w) ->
  NoDup items.*1 ->
  (forall n l, (n, l) ∈ items -> namespaces w !! n = Some l) ->
  exists evs N,
    (removeLabelsLoop labelKey current items w).2
      = set_trace (trace w ++ evs) (set_namespaces N w)
    /\ forall k, N !! k =
         if decide (k ∈ items.*1 /\ k ∉ current)
         then delete labelKey <$> namespaces w !! k
         else namespaces w !! k.
Proof.
  revert w. induction items as [|[name nsLabels] rest IH]; intros w Hq Hnd Hitems.
  - exists [], (namespaces w). split; [destruct w; cbn; by rewrite app_nil_r|].
    intros k. rewrite decide_False; [done|]. intros [[]%not_elem_of_nil _].
  - apply NoDup_cons in Hnd as [Hfresh Hnd].
    cbn [removeLabelsLoop]. rewrite bind_run.
    destruct (decide (name ∈ current)) as [Hcur|Hcur].
    + rewrite bool_decide_eq_true_2 by done. cbn [negb].
      destruct (IH w Hq Hnd) as (evs & N & Hw & HN).
      { intros n l Hin. apply Hitems. apply elem_of_cons. by right. }
      exists evs, N. split; [done|]. intros k. rewrite HN.
      destruct (decide (k ∈ rest.*1 /\ k ∉ current)) as [[Hin Hk]|Hno].
      * rewrite decide_True; [done|]. split; [|done]. apply elem_of_cons. by right.
      * rewrite decide_False; [done|]. intros [[->|Hin]%elem_of_cons Hk]; [done|].
        by apply Hno.
    + rewrite bool_decide_eq_false_2 by done. cbn [negb]. rewrite !bind_run.
      set (w0 := (logInfo _ w).2).
      unfold updateNamespace, clientWrite. change (faults w0) with (faults w).
      rewrite Hq. unfold onPresent. change (namespaces w0) with (namespaces w).
      rewrite (Hitems name nsLabels) by (apply elem_of_cons; by left).
      cbn [fst snd errorOf]. set (w1 := (emit _ _).2).
      destruct (IH w1) as (evs & N & Hw & HN); [done|done| |].
      { intros n l Hin. subst w1 w0. cbn. rewrite lookup_insert_ne.
        - apply Hitems. apply elem_of_cons. by right.
        - intros <-. apply Hfresh. apply list_elem_of_fmap. by exists (name, l). }
      eexists ([_; _] ++ evs), N. split.
      * change ((ret () w1).2) with w1. rewrite Hw. subst w1 w0. destruct w. cbn.
        by rewrite <- !app_assoc.
      * intros k. rewrite HN. subst w1 w0. cbn.
        destruct (decide (k = name)) as [->|Hne].
        -- rewrite lookup_insert_eq, (Hitems name nsLabels) by (apply elem_of_cons; by left).
           rewrite decide_False by (by intros [? _]).
           rewrite decide_True; [done|]. split; [apply elem_of_cons; by left|done].
        -- rewrite lookup_insert_ne by done.
           destruct (decide (k ∈ rest.*1 /\ k ∉ current)) as [[Hin Hk]|Hno].
           ++ rewrite decide_True; [done|]. split; [|done]. apply elem_of_cons. by right.
           ++ rewrite decide_False; [done|]. intros [[->|Hin]%elem_of_cons Hk]; [done|].
              by apply Hno.
Qed.

Lemma cleanupUnmanagedSourceNamespaces_effect clusterArgoCD w :
  quiet (faults w) ->
  exists evs N,
    cleanupUnmanagedSourceNamespaces common clusterArgoCD w
      = (None, set_trace (trace w ++ evs) (set_namespaces N w))
    /\ forall k, N !! k =
         (fun nsLabels =>
            if decide (nsLabels !! ArgoCDManagedByClusterArgoCDLabel common
                         = Some (Name clusterArgoCD)
                       /\ k ∉ currentSourceNamespaces clusterArgoCD)
            then delete (ArgoCDManagedByClusterArgoCDLabel common) nsLabels
            else nsLabels) <$> namespaces w !! k.
Proof.
  intros Hq. unfold cleanupUnmanagedSourceNamespaces. rewrite bind_run.
  unfold listNamespaces, clientList. rewrite Hq. cbn [fst snd].
  set (w0 := (emit _ w).2). rewrite bind_run.
  unfold getClusterArgoCDManagedByLabelKey, getClusterArgoCDManagedByLabel.
  set (key := ArgoCDManagedByClusterArgoCDLabel common).
  set (items := matching id key (Name clusterArgoCD) (namespaces w)).
  destruct (removeLabelsLoop_effect key (currentSourceNamespaces clusterArgoCD)
              items w0) as (evs & N & Hw & HN); [done| | |].
  { apply NoDup_fst_map_to_list. }
  { intros n l Hin. apply elem_of_map_to_list in Hin.
    by apply map_lookup_filter_Some in Hin as [? _]. }
  eexists ([_] ++ evs), N. split.
  - unfold ret. f_equal. rewrite Hw. subst w0. destruct w. cbn.
    by rewrite <- !app_assoc.
  - intros k. rewrite HN. change (namespaces w0) with (namespaces w).
    destruct (namespaces w !! k) as [l|] eqn:Hk; [|by destruct (decide _)].
    cbn. destruct (decide (l !! key = Some (Name clusterArgoCD)
                           /\ k ∉ currentSourceNamespaces clusterArgoCD))
      as [[Hl Hcur]|Hno].
    + rewrite decide_True; [done|]. split; [|done].
      apply matching_keys. by exists l.
    + rewrite decide_False; [done|]. intros [Hin Hcur]. apply Hno. split; [|done].
      apply matching_keys in Hin as (x & Hx & Hl). cbn in Hl. congruence.
Qed.


(** *** The deletion pass as a whole *)

Lemma currentSourceNamespaces_empty name :
  currentSourceNamespaces (emptyClusterArgoCD name) = ∅.
Proof. unfold currentSourceNamespaces. cbn. set_solver. Qed.

Lemma handleDeletion_effect name c st w :
  quiet (faults w) ->
  IsDeletionFinalizerPresent c = true ->
  is_Some (clusterArgoCDs w !! Name c) ->
  exists evs N,
    handleDeletion common name c st w
    = ((None,
        setFinalizers
          (filter (fun finalizer => finalizer <> ArgoCDDeletionFinalizer)
             (Finalizers c)) c,
        setPhase "Unknown" st),
       set_trace (trace w ++ evs)
         (set_clusterArgoCDs
            (storeClusterArgoCD
               (setFinalizers
                  (filter (fun finalizer => finalizer <> ArgoCDDeletionFinalizer)
                     (Finalizers c)) c)
               (clusterArgoCDs w))
            (set_namespaces N
               (set_clusterRoleBindings
                  (filter (fun kv => crbLabels kv.2 !! ArgoCDKeyName common
                                     <> Some (Name c))
                     (clusterRoleBindings w))
                  (set_clusterRoles
                     (filter (fun kv => crLabels kv.2 !! ArgoCDKeyName common
                                        <> Some (Name c))
                        (clusterRoles w))
                     (set_TokenRenewalTimers
                        (filter (fun kv => timerKeyOf name kv.1 = false)
                           <$> TokenRenewalTimers w)
                        (set_ActiveClusterInstanceMap
                           (delete name (ActiveClusterInstanceMap w)) w)))))))
    /\ forall k, N !! k =
         (fun nsLabels =>
            if decide (nsLabels !! ArgoCDManagedByClusterArgoCDLabel common
                         = Some (Name c))
            then delete (ArgoCDManagedByClusterArgoCDLabel common) nsLabels
            else nsLabels) <$> namespaces w !! k.
Proof.
  intros Hq Hpresent Hin. unfold handleDeletion. rewrite Hpresent.
  rewrite !bind_run. set (w0 := (modify _ w).2).
  destruct (cleanupClusterInstanceTokenTimers_effect name w0) as [e1 Hw1].
  set (w1 := (cleanupClusterInstanceTokenTimers name w0).2) in *.
  destruct (deleteClusterResources_effect c w1) as (e2 & Hw2 & Hn2).
  assert (quiet (faults w1)) as Hq1 by by rewrite Hw1.
  specialize (Hn2 Hq1). specialize (Hw2 Hn2).
  destruct (deleteClusterResources common c w1) as [r2 w2]. cbn [fst snd] in *.
  subst r2.
  assert (quiet (faults w2)) as Hq2 by by rewrite Hw2.
  unfold cleanupAllSourceNamespaces. rewrite !bind_run.
  set (w3 := (logInfo _ w2).2). unfold orWrap. rewrite bind_run.
  destruct (cleanupUnmanagedSourceNamespaces_effect
              (emptyClusterArgoCD (Name c)) w3 Hq2) as (e3 & N & Hw3 & HN).
  rewrite Hw3. cbn [fst snd]. unfold ret at 1. cbn [fst snd].
  rewrite bind_run. unfold removeDeletionFinalizer. rewrite !bind_run.
  set (w4 := (logInfo _ _).2).
  unfold updateClusterArgoCD, clientWrite.
  change (faults w4) with (faults w2). rewrite Hq2.
  unfold onPresent. cbn [Name setFinalizers].
  assert (clusterArgoCDs w4 = clusterArgoCDs w) as Hc.
  { subst w4 w3. cbn. rewrite Hw2. cbn. by rewrite Hw1. }
  rewrite Hc. destruct Hin as [x Hx]. rewrite Hx. cbn [errorOf fst snd].
  eexists (e1 ++ e2 ++ [_] ++ e3 ++ [_; _]), N. split.
  - unfold ret. f_equal. subst w4 w3. cbn. rewrite Hw2. cbn. rewrite Hw1.
    subst w0. destruct w. cbn. by rewrite <- !app_assoc.
  - intros k. rewrite HN. subst w3. cbn. rewrite Hw2. cbn. rewrite Hw1. cbn.
    destruct (namespaces w !! k) as [l|]; [|done]. cbn.
    rewrite currentSourceNamespaces_empty.
    destruct (decide (l !! _ = Some (Name c))) as [Hl|Hl].
    + rewrite decide_True; [done|]. split; [done|]. apply not_elem_of_empty.
    + rewrite decide_False; [done|]. by intros [? _].
Qed.


(** X15. The whole effect of a deletion pass in which no call fails:
    no error; every namespace that carries the managed-by label of the
    instance loses that label and nothing else; the ClusterRoles and
    ClusterRoleBindings that carry the name label of the instance are
    gone and the others stay; the timers keyed by the name are gone; the
    instance is stored without the finalizer; Roles and ServiceAccounts
    are left as they are. *)
Theorem internalReconcile_deletion_effect name c ts select w :
  quiet (faults w) ->
  clusterArgoCDs w !! name = Some c ->
  Name c = name ->
  DeletionTimestamp c = Some ts ->
  IsDeletionFinalizerPresent c = true ->
  labelsParse (LabelSelector w) = Some select ->
  select (Labels c) = true ->
  (internalReconcile common labelsParse name w).1.1.1 = None
  /\ (forall k,
        namespaces (internalReconcile common labelsParse name w).2 !! k
        = (fun nsLabels =>
             if decide (nsLabels !! ArgoCDManagedByClusterArgoCDLabel common
                          = Some name)
             then delete (ArgoCDManagedByClusterArgoCDLabel common) nsLabels
             else nsLabels) <$> namespaces w !! k)
  /\ clusterRoles (internalReconcile common labelsParse name w).2
     = filter (fun kv => crLabels kv.2 !! ArgoCDKeyName common <> Some name)
         (clusterRoles w)
  /\ clusterRoleBindings (internalReconcile common labelsParse name w).2
     = filter (fun kv => crbLabels kv.2 !! ArgoCDKeyName common <> Some name)
         (clusterRoleBindings w)
  /\ TokenRenewalTimers (internalReconcile common labelsParse name w).2
     = filter (fun kv => timerKeyOf name kv.1 = false) <$> TokenRenewalTimers w
  /\ clusterArgoCDs (internalReconcile common labelsParse name w).2
     = storeClusterArgoCD
         (setFinalizers
            (filter (fun finalizer => finalizer <> ArgoCDDeletionFinalizer)
               (Finalizers c)) c)
         (clusterArgoCDs w)
  /\ roles (internalReconcile common labelsParse name w).2 = roles w
  /\ serviceAccounts (internalReconcile common labelsParse name w).2
     = serviceAccounts w.
Proof.
  intros Hq Hlookup Hname Hts Hpresent Hparse Hselect.
  unfold internalReconcile. rewrite !bind_run.
  set (w0 := (logInfo "Reconciling ClusterArgoCD" w).2).
  unfold getClusterArgoCD, clientGet.
  change (faults w0) with (faults w).
  change (clusterArgoCDs w0) with (clusterArgoCDs w).
  rewrite Hq, Hlookup. cbn [fst snd].
  set (w1 := (emit _ w0).2).
  unfold reconcileInstance. rewrite Hts.
  set (warn := match nReplicas (Notifications (Spec c)) with
               | Some replicas => if (1 <? replicas)%Z then logInfo _ else ret tt
               | None => ret tt
               end).
  assert (exists pre, (warn w1).2 = set_trace (trace w1 ++ pre) w1) as (pre & Hw).
  { subst warn. destruct (nReplicas _) as [replicas|];
      [destruct (1 <? replicas)%Z|].
    - by eexists [_].
    - exists []. by rewrite app_nil_r, set_trace_id.
    - exists []. by rewrite app_nil_r, set_trace_id. }
  rewrite bind_run, Hw. rewrite bind_run. unfold get. cbn [fst snd].
  change (LabelSelector (set_trace _ w1)) with (LabelSelector w).
  rewrite Hparse, Hselect. cbn [negb]. rewrite bind_run.
  set (w2 := (modify _ _).2).
  destruct (handleDeletion_effect name c
              (mkStatus "" (RepoTLSChecksum (Status c))
                 (RedisTLSChecksum (Status c))) w2)
    as (evs & N & Hrun & HN); [done|done| |].
  { change (clusterArgoCDs w2) with (clusterArgoCDs w). rewrite Hname, Hlookup.
    by eexists. }
  rewrite Hrun. cbn [fst snd]. rewrite <- Hname.
  by repeat split.
Qed.


(** *** Cluster roles, bindings and service accounts *)

Lemma reconcileClusterRole_effect componentName policyRules clusterArgoCD w :
  quiet (faults w) ->
  exists evs R,
    reconcileClusterRole common componentName policyRules clusterArgoCD w
    = (None, set_trace (trace w ++ evs) (set_clusterRoles R w))
    /\ match clusterRoles w
             !! generateClusterRoleName componentName clusterArgoCD with
       | Some existing =>
           if clusterRoleNeedsUpdate existing
                (newClusterRole common componentName policyRules clusterArgoCD).2
           then R = <[generateClusterRoleName componentName clusterArgoCD :=
                        (newClusterRole common componentName policyRules
                           clusterArgoCD).2]> (clusterRoles w)
                /\ writesOf evs
                   = [(mkCall Update KClusterRole ""
                         (generateClusterRoleName componentName clusterArgoCD),
                       Ok)]
           else R = clusterRoles w /\ writesOf evs = []
       | None =>
           R = <[generateClusterRoleName componentName clusterArgoCD :=
                   (newClusterRole common componentName policyRules
                      clusterArgoCD).2]> (clusterRoles w)
           /\ writesOf evs
              = [(mkCall Create KClusterRole ""
                    (generateClusterRoleName componentName clusterArgoCD), Ok)]
       end.
Proof.
  intros Hq. unfold reconcileClusterRole. cbn [newClusterRole fst snd].
  rewrite bind_run. unfold getClusterRole, clientGet. rewrite Hq.
  set (name := generateClusterRoleName componentName clusterArgoCD).
  destruct (clusterRoles w !! name) as [existing|] eqn:Hname; cbn [fst snd IsNotFound negb].
  - destruct (clusterRoleNeedsUpdate existing _) eqn:Hneeds; cbn [negb].
    + rewrite !bind_run. set (w1 := (logInfo _ _).2).
      unfold updateClusterRole, clientWrite.
      change (faults w1) with (faults w). rewrite Hq.
      unfold onPresent. change (clusterRoles w1) with (clusterRoles w).
      rewrite Hname. cbn [errorOf fst snd]. subst w1.
      eexists [_; _; _], (<[_ := _]> _).
      split; [unfold ret; f_equal; cbn; by rewrite <- !app_assoc|done].
    + by eexists [_], _.
  - rewrite !bind_run. set (w1 := (logInfo _ _).2).
    unfold createClusterRole, clientWrite.
    change (faults w1) with (faults w). rewrite Hq.
    unfold onAbsent. change (clusterRoles w1) with (clusterRoles w).
    rewrite Hname. cbn [errorOf fst snd]. subst w1.
    eexists [_; _; _], (<[_ := _]> _).
    split; [unfold ret; f_equal; cbn; by rewrite <- !app_assoc|done].
Qed.

Lemma reconcileClusterRoleBinding_effect componentName targetNamespace
    clusterArgoCD w :
  quiet (faults w) ->
  exists evs B,
    reconcileClusterRoleBinding common componentName targetNamespace
      clusterArgoCD w
    = (None, set_trace (trace w ++ evs) (set_clusterRoleBindings B w))
    /\ match clusterRoleBindings w
             !! generateClusterRoleName componentName clusterArgoCD with
       | Some existing =>
           if clusterRoleBindingNeedsUpdate existing
                (desiredClusterRoleBinding common componentName targetNamespace
                   clusterArgoCD)
           then B = <[generateClusterRoleName componentName clusterArgoCD :=
                        desiredClusterRoleBinding common componentName
                          targetNamespace clusterArgoCD]>
                      (clusterRoleBindings w)
                /\ writesOf evs
                   = [(mkCall Update KClusterRoleBinding ""
                         (generateClusterRoleName componentName clusterArgoCD),
                       Ok)]
           else B = clusterRoleBindings w /\ writesOf evs = []
       | None =>
           B = <[generateClusterRoleName componentName clusterArgoCD :=
                   desiredClusterRoleBinding common componentName
                     targetNamespace clusterArgoCD]>
                 (clusterRoleBindings w)
           /\ writesOf evs
              = [(mkCall Create KClusterRoleBinding ""
                    (generateClusterRoleName componentName clusterArgoCD), Ok)]
       end.
Proof.
  intros Hq. unfold reconcileClusterRoleBinding.
  fold (desiredClusterRoleBinding common componentName targetNamespace
          clusterArgoCD).
  rewrite bind_run. unfold getClusterRoleBinding, clientGet. rewrite Hq.
  set (name := generateClusterRoleName componentName clusterArgoCD).
  destruct (clusterRoleBindings w !! name) as [existing|] eqn:Hname;
    cbn [fst snd IsNotFound negb].
  - destruct (clusterRoleBindingNeedsUpdate existing _) eqn:Hneeds; cbn [negb].
    + rewrite !bind_run. set (w1 := (logInfo _ _).2).
      unfold updateClusterRoleBinding, clientWrite.
      change (faults w1) with (faults w). rewrite Hq.
      unfold onPresent. change (clusterRoleBindings w1) with (clusterRoleBindings w).
      rewrite Hname. cbn [errorOf fst snd]. subst w1.
      eexists [_; _; _], (<[_ := _]> _).
      split; [unfold ret; f_equal; cbn; by rewrite <- !app_assoc|done].
    + by eexists [_], _.
  - rewrite !bind_run. set (w1 := (logInfo _ _).2).
    unfold createClusterRoleBinding, clientWrite.
    change (faults w1) with (faults w). rewrite Hq.
    unfold onAbsent. change (clusterRoleBindings w1) with (clusterRoleBindings w).
    rewrite Hname. cbn [errorOf fst snd]. subst w1.
    eexists [_; _; _], (<[_ := _]> _).
    split; [unfold ret; f_equal; cbn; by rewrite <- !app_assoc|done].
Qed.

Lemma reconcileServiceAccount_effect componentName targetNamespace
    clusterArgoCD w :
  quiet (faults w) ->
  exists evs S,
    reconcileServiceAccount common componentName targetNamespace clusterArgoCD w
    = (None, set_trace (trace w ++ evs) (set_serviceAccounts S w))
    /\ match serviceAccounts w
             !! (targetNamespace,
                 getServiceAccountName componentName clusterArgoCD) with
       | Some existing =>
           if serviceAccountNeedsUpdate existing
                (desiredServiceAccount common clusterArgoCD)
           then S = <[(targetNamespace,
                       getServiceAccountName componentName clusterArgoCD) :=
                        desiredServiceAccount common clusterArgoCD]>
                      (serviceAccounts w)
                /\ writesOf evs
                   = [(mkCall Update KServiceAccount targetNamespace
                         (getServiceAccountName componentName clusterArgoCD),
                       Ok)]
           else S = serviceAccounts w /\ writesOf evs = []
       | None =>
           S = <[(targetNamespace,
                  getServiceAccountName componentName clusterArgoCD) :=
                   desiredServiceAccount common clusterArgoCD]>
                 (serviceAccounts w)
           /\ writesOf evs
              = [(mkCall Create KServiceAccount targetNamespace
                    (getServiceAccountName componentName clusterArgoCD), Ok)]
       end.
Proof.
  intros Hq. unfold reconcileServiceAccount.
  fold (desiredServiceAccount common clusterArgoCD).
  rewrite bind_run. unfold getServiceAccount, clientGet. rewrite Hq.
  set (name := getServiceAccountName componentName clusterArgoCD).
  destruct (serviceAccounts w !! (targetNamespace, name)) as [existing|] eqn:Hname;
    cbn [fst snd IsNotFound negb].
  - destruct (serviceAccountNeedsUpdate existing _) eqn:Hneeds; cbn [negb].
    + rewrite !bind_run. set (w1 := (logInfo _ _).2).
      unfold updateServiceAccount, clientWrite.
      change (faults w1) with (faults w). rewrite Hq.
      unfold onPresent. change (serviceAccounts w1) with (serviceAccounts w).
      rewrite Hname. cbn [errorOf fst snd]. subst w1.
      eexists [_; _; _], (<[_ := _]> _).
      split; [unfold ret; f_equal; cbn; by rewrite <- !app_assoc|done].
    + by eexists [_], _.
  - rewrite !bind_run. set (w1 := (logInfo _ _).2).
    unfold createServiceAccount, clientWrite.
    change (faults w1) with (faults w). rewrite Hq.
    unfold onAbsent. change (serviceAccounts w1) with (serviceAccounts w).
    rewrite Hname. cbn [errorOf fst snd]. subst w1.
    eexists [_; _; _], (<[_ := _]> _).
    split; [unfold ret; f_equal; cbn; by rewrite <- !app_assoc|done].
Qed.


(** *** Runs that settle the store, and runs over a settled store *)

Lemma Settles_ret P : Settles (ret None) P P.
Proof. intros w Hq HP. by exists w. Qed.

Lemma Settles_weaken m (P P' Q Q' : World -> Prop) :
  (forall w, P' w -> P w) -> (forall w, Q w -> Q' w) ->
  Settles m P Q -> Settles m P' Q'.
Proof.
  intros HP HQ Hm w Hq Hw. destruct (Hm w Hq (HP w Hw)) as (w' & ? & ? & ?).
  exists w'. auto.
Qed.

Lemma Settles_log msg m P Q :
  TraceBlind P -> Settles m P Q -> Settles (logInfo msg >> m) P Q.
Proof.
  intros HP Hm w Hq Hw. rewrite bind_run.
  apply (Hm (logInfo msg w).2); [done|]. by apply HP.
Qed.

Lemma Settles_orReturn f rest P Q R :
  Settles f P Q -> Settles rest Q R -> Settles (orReturn f rest) P R.
Proof.
  intros Hf Hrest w Hq Hw. unfold orReturn. rewrite bind_run.
  destruct (Hf w Hq Hw) as (w' & -> & Hq' & Hw'). by apply Hrest.
Qed.

Lemma Settles_orLogReturn f rest P Q R :
  Settles f P Q -> Settles rest Q R -> Settles (orLogReturn f rest) P R.
Proof.
  intros Hf Hrest w Hq Hw. unfold orLogReturn. rewrite bind_run.
  destruct (Hf w Hq Hw) as (w' & -> & Hq' & Hw'). by apply Hrest.
Qed.

Lemma Settles_if (b : bool) m1 m2 P Q :
  (b = true -> Settles m1 P Q) -> (b = false -> Settles m2 P Q) ->
  Settles (if b then m1 else m2) P Q.
Proof. destruct b; auto. Qed.

Lemma ReadOnlyAt_ret w : ReadOnlyAt (ret None) w.
Proof. exists []. by rewrite app_nil_r, set_trace_id. Qed.

Lemma ReadOnlyAt_log msg m w :
  ReadOnlyAt m (set_trace (trace w ++ [ELog msg]) w) ->
  ReadOnlyAt (logInfo msg >> m) w.
Proof.
  intros (evs & Hm & Hw). exists ([ELog msg] ++ evs). rewrite bind_run.
  split; [|by rewrite writesOf_app, Hw].
  change ((logInfo msg w).2) with (set_trace (trace w ++ [ELog msg]) w).
  rewrite Hm. cbn. by rewrite <- app_assoc.
Qed.

Lemma ReadOnlyAt_then f rest w :
  ReadOnlyAt f w ->
  (forall t, ReadOnlyAt rest (set_trace t w)) ->
  ReadOnlyAt (let* err := f in
              match err with Some err => ret (Some err) | None => rest end) w.
Proof.
  intros (e1 & Hf & H1) Hrest. unfold ReadOnlyAt. rewrite bind_run, Hf.
  cbn [fst snd].
  destruct (Hrest (trace w ++ e1)) as (e2 & Hr & H2). rewrite Hr.
  exists (e1 ++ e2). split; [|by rewrite writesOf_app, H1, H2].
  cbn. by rewrite <- app_assoc.
Qed.

Lemma ReadOnlyAt_orReturn f rest w :
  ReadOnlyAt f w -> (forall t, ReadOnlyAt rest (set_trace t w)) ->
  ReadOnlyAt (orReturn f rest) w.
Proof. apply ReadOnlyAt_then. Qed.

Lemma ReadOnlyAt_orLogReturn f rest w :
  ReadOnlyAt f w -> (forall t, ReadOnlyAt rest (set_trace t w)) ->
  ReadOnlyAt (orLogReturn f rest) w.
Proof.
  intros (e1 & Hf & H1) Hrest. unfold ReadOnlyAt, orLogReturn.
  rewrite bind_run, Hf.
  cbn [fst snd]. destruct (Hrest (trace w ++ e1)) as (e2 & Hr & H2). rewrite Hr.
  exists (e1 ++ e2). split; [|by rewrite writesOf_app, H1, H2].
  cbn. by rewrite <- app_assoc.
Qed.

Lemma ReadOnlyAt_if (b : bool) m1 m2 w :
  ReadOnlyAt m1 w -> ReadOnlyAt m2 w -> ReadOnlyAt (if b then m1 else m2) w.
Proof. by destruct b. Qed.

Ltac readonly :=
  repeat first
    [ apply ReadOnlyAt_ret
    | apply ReadOnlyAt_log
    | apply ReadOnlyAt_orReturn; [|intros ?]
    | apply ReadOnlyAt_orLogReturn; [|intros ?]
    | apply ReadOnlyAt_if ].

Lemma reconcileTargetNamespaceResources_ReadOnlyAt clusterArgoCD w :
  ReadOnlyAt (reconcileTargetNamespaceResources clusterArgoCD) w.
Proof.
  unfold reconcileTargetNamespaceResources, reconcileServices,
    reconcileDeployments, reconcileStatefulSets, reconcileServerService,
    reconcileRepoServerService, reconcileApplicationControllerMetricsService,
    reconcileRedisService, reconcileServerDeployment,
    reconcileRepoServerDeployment, reconcileApplicationControllerDeployment,
    reconcileApplicationSetDeployment, reconcileNotificationsDeployment,
    reconcileRedisStatefulSet, reconcileRedisHAStatefulSet.
  readonly.
Qed.


Lemma append_inj_r (s a b : string) : s +:+ a = s +:+ b -> a = b.
Proof. induction s as [|x s IH]; cbn; [done|]. intros [=]. auto. Qed.

Lemma generateClusterRoleName_inj componentName componentName' clusterArgoCD :
  generateClusterRoleName componentName clusterArgoCD
  = generateClusterRoleName componentName' clusterArgoCD ->
  componentName = componentName'.
Proof.
  unfold generateClusterRoleName. intros H.
  apply append_inj_r in H. by apply (append_inj_r "-") in H.
Qed.

Lemma clusterRoleBindingNeedsUpdate_same d : clusterRoleBindingNeedsUpdate d d = false.
Proof.
  unfold clusterRoleBindingNeedsUpdate, RoleRef_eqb.
  by rewrite !String.eqb_refl, Nat.eqb_refl.
Qed.

Lemma someValueDiffers_same m : someValueDiffers m m = false.
Proof.
  unfold someValueDiffers. apply not_true_is_false. intros H.
  apply existsb_exists in H as ([k v] & Hin & Hne).
  apply list_elem_of_In, elem_of_map_to_list in Hin. cbn in Hne.
  unfold Go.index in Hne. rewrite Hin in Hne. cbn in Hne.
  by rewrite String.eqb_refl in Hne.
Qed.

Lemma serviceAccountNeedsUpdate_same d : serviceAccountNeedsUpdate d d = false.
Proof.
  unfold serviceAccountNeedsUpdate.
  by rewrite !Nat.eqb_refl, !someValueDiffers_same.
Qed.

Lemma reconcileClusterRole_Settles componentName policyRules clusterArgoCD
    (F : World -> Prop) (done : list string) :
  (forall w t R, F w -> F (set_trace t (set_clusterRoles R w))) ->
  Settles (reconcileClusterRole common componentName policyRules clusterArgoCD)
    (fun w => F w
              /\ Forall (fun c => settledClusterRole c (length policyRules)
                                    clusterArgoCD w) done)
    (fun w => F w
              /\ Forall (fun c => settledClusterRole c (length policyRules)
                                    clusterArgoCD w) (componentName :: done)).
Proof.
  intros HF w Hq [HFw Hdone].
  destruct (reconcileClusterRole_effect componentName policyRules clusterArgoCD
              w Hq) as (evs & R & Hrun & HR).
  eexists. split; [done|]. split; [done|]. split; [by apply HF|].
  set (name := generateClusterRoleName componentName clusterArgoCD) in *.
  assert (R = clusterRoles w /\ settledClusterRole componentName
                                  (length policyRules) clusterArgoCD w
          \/ R = <[name := (newClusterRole common componentName policyRules
                              clusterArgoCD).2]> (clusterRoles w)) as Hcases.
  { destruct (clusterRoles w !! name) as [existing|] eqn:Hname.
    - destruct (clusterRoleNeedsUpdate existing _) eqn:Hneeds.
      + right. by destruct HR.
      + left. destruct HR as [-> _]. split; [done|]. exists existing.
        split; [done|]. unfold clusterRoleNeedsUpdate in Hneeds.
        apply negb_false_iff, Nat.eqb_eq in Hneeds. by rewrite Hneeds.
    - right. by destruct HR. }
  constructor.
  - destruct Hcases as [[-> Hs]| ->]; [done|].
    eexists. split; [apply lookup_insert_eq|done].
  - eapply Forall_impl; [exact Hdone|]. intros c (existing & Hc & Hlen).
    destruct Hcases as [[-> Hs]| ->]; [by exists existing|].
    unfold settledClusterRole. cbn [clusterRoles set_trace set_clusterRoles].
    destruct (decide (name = generateClusterRoleName c clusterArgoCD)) as [<-|Hne].
    + eexists. split; [apply lookup_insert_eq|done].
    + exists existing. by rewrite lookup_insert_ne.
Qed.

Lemma reconcileClusterRole_ReadOnlyAt componentName policyRules clusterArgoCD w :
  quiet (faults w) ->
  settledClusterRole componentName (length policyRules) clusterArgoCD w ->
  ReadOnlyAt (reconcileClusterRole common componentName policyRules
                clusterArgoCD) w.
Proof.
  intros Hq (existing & Hname & Hlen).
  destruct (reconcileClusterRole_effect componentName policyRules clusterArgoCD
              w Hq) as (evs & R & Hrun & HR).
  rewrite Hname in HR. unfold clusterRoleNeedsUpdate in HR.
  cbn [newClusterRole snd crRules] in HR. rewrite Hlen, Nat.eqb_refl in HR.
  destruct HR as [-> Hevs]. by exists evs.
Qed.

Lemma reconcileClusterRoleBinding_Settles componentName targetNamespace
    clusterArgoCD (F : World -> Prop) (done : list string) :
  (forall w t B, F w -> F (set_trace t (set_clusterRoleBindings B w))) ->
  Settles (reconcileClusterRoleBinding common componentName targetNamespace
             clusterArgoCD)
    (fun w => F w
              /\ Forall (fun c => settledClusterRoleBinding common c
                                    targetNamespace clusterArgoCD w) done)
    (fun w => F w
              /\ Forall (fun c => settledClusterRoleBinding common c
                                    targetNamespace clusterArgoCD w)
                   (componentName :: done)).
Proof.
  intros HF w Hq [HFw Hdone].
  destruct (reconcileClusterRoleBinding_effect componentName targetNamespace
              clusterArgoCD w Hq) as (evs & B & Hrun & HB).
  eexists. split; [done|]. split; [done|]. split; [by apply HF|].
  set (name := generateClusterRoleName componentName clusterArgoCD) in *.
  set (desired := desiredClusterRoleBinding common componentName
                    targetNamespace clusterArgoCD) in *.
  assert (B = clusterRoleBindings w
          /\ settledClusterRoleBinding common componentName targetNamespace
               clusterArgoCD w
          \/ B = <[name := desired]> (clusterRoleBindings w)) as Hcases.
  { destruct (clusterRoleBindings w !! name) as [existing|] eqn:Hname.
    - destruct (clusterRoleBindingNeedsUpdate existing _) eqn:Hneeds.
      + right. by destruct HB.
      + left. destruct HB as [-> _]. split; [done|]. by exists existing.
    - right. by destruct HB. }
  constructor.
  - destruct Hcases as [[-> Hs]| ->]; [done|].
    eexists. split; [apply lookup_insert_eq|].
    apply clusterRoleBindingNeedsUpdate_same.
  - eapply Forall_impl; [exact Hdone|]. intros c (existing & Hc & Hneeds).
    destruct Hcases as [[-> Hs]| ->]; [by exists existing|].
    unfold settledClusterRoleBinding.
    cbn [clusterRoleBindings set_trace set_clusterRoleBindings].
    destruct (decide (name = generateClusterRoleName c clusterArgoCD)) as [Heq|Hne].
    + rewrite <- Heq. apply generateClusterRoleName_inj in Heq as <-.
      eexists. split; [apply lookup_insert_eq|].
      apply clusterRoleBindingNeedsUpdate_same.
    + exists existing. by rewrite lookup_insert_ne.
Qed.

Lemma reconcileClusterRoleBinding_ReadOnlyAt componentName targetNamespace
    clusterArgoCD w :
  quiet (faults w) ->
  settledClusterRoleBinding common componentName targetNamespace clusterArgoCD w ->
  ReadOnlyAt (reconcileClusterRoleBinding common componentName targetNamespace
                clusterArgoCD) w.
Proof.
  intros Hq (existing & Hname & Hneeds).
  destruct (reconcileClusterRoleBinding_effect componentName targetNamespace
              clusterArgoCD w Hq) as (evs & B & Hrun & HB).
  rewrite Hname, Hneeds in HB. destruct HB as [-> Hevs]. by exists evs.
Qed.

Lemma reconcileServiceAccount_Settles componentName targetNamespace
    clusterArgoCD (F : World -> Prop) (done : list string) :
  (forall w t S, F w -> F (set_trace t (set_serviceAccounts S w))) ->
  Settles (reconcileServiceAccount common componentName targetNamespace
             clusterArgoCD)
    (fun w => F w
              /\ Forall (fun c => settledServiceAccount common c
                                    targetNamespace clusterArgoCD w) done)
    (fun w => F w
              /\ Forall (fun c => settledServiceAccount common c
                                    targetNamespace clusterArgoCD w)
                   (componentName :: done)).
Proof.
  intros HF w Hq [HFw Hdone].
  destruct (reconcileServiceAccount_effect componentName targetNamespace
              clusterArgoCD w Hq) as (evs & S & Hrun & HS).
  eexists. split; [done|]. split; [done|]. split; [by apply HF|].
  set (key := (targetNamespace,
               getServiceAccountName componentName clusterArgoCD)) in *.
  set (desired := desiredServiceAccount common clusterArgoCD) in *.
  assert (S = serviceAccounts w
          /\ settledServiceAccount common componentName targetNamespace
               clusterArgoCD w
          \/ S = <[key := desired]> (serviceAccounts w)) as Hcases.
  { destruct (serviceAccounts w !! key) as [existing|] eqn:Hname.
    - destruct (serviceAccountNeedsUpdate existing _) eqn:Hneeds.
      + right. by destruct HS.
      + left. destruct HS as [-> _]. split; [done|]. by exists existing.
    - right. by destruct HS. }
  constructor.
  - destruct Hcases as [[-> Hs]| ->]; [done|].
    eexists. split; [apply lookup_insert_eq|].
    apply serviceAccountNeedsUpdate_same.
  - eapply Forall_impl; [exact Hdone|]. intros c (existing & Hc & Hneeds).
    destruct Hcases as [[-> Hs]| ->]; [by exists existing|].
    unfold settledServiceAccount.
    cbn [serviceAccounts set_trace set_serviceAccounts].
    destruct (decide (key = (targetNamespace,
                             getServiceAccountName c clusterArgoCD)))
      as [<-|Hne].
    + eexists. split; [apply lookup_insert_eq|].
      apply serviceAccountNeedsUpdate_same.
    + exists existing. by rewrite lookup_insert_ne.
Qed.

Lemma reconcileServiceAccount_ReadOnlyAt componentName targetNamespace
    clusterArgoCD w :
  quiet (faults w) ->
  settledServiceAccount common componentName targetNamespace clusterArgoCD w ->
  ReadOnlyAt (reconcileServiceAccount common componentName targetNamespace
                clusterArgoCD) w.
Proof.
  intros Hq (existing & Hname & Hneeds).
  destruct (reconcileServiceAccount_effect componentName targetNamespace
              clusterArgoCD w Hq) as (evs & S & Hrun & HS).
  rewrite Hname, Hneeds in HS. destruct HS as [-> Hevs]. by exists evs.
Qed.


Lemma reconcileClusterRoles_Settles clusterArgoCD :
  Settles (reconcileClusterRoles common clusterArgoCD) (fun _ => True)
    (fun w => Forall (fun c => settledClusterRole c 2 clusterArgoCD w)
                [ArgoCDServerComponent common;
                 ArgoCDApplicationControllerComponent common]).
Proof.
  unfold reconcileClusterRoles. apply Settles_log; [done|].
  eapply Settles_orReturn; [|eapply Settles_orReturn; [|apply Settles_ret]].
  - eapply Settles_weaken;
      [| |apply (reconcileClusterRole_Settles _ _ _ (fun _ => True) [])]; cbn.
    + done.
    + intros w H. exact H.
    + done.
  - eapply Settles_weaken;
      [| |apply (reconcileClusterRole_Settles _ _ _ (fun _ => True)
                   [ArgoCDApplicationControllerComponent common])]; cbn.
    + intros w H. exact H.
    + intros w [_ H]. exact H.
    + done.
Qed.

Lemma reconcileClusterRoleBindings_Settles clusterArgoCD (F : World -> Prop) :
  TraceBlind F ->
  (forall w t B, F w -> F (set_trace t (set_clusterRoleBindings B w))) ->
  Settles (reconcileClusterRoleBindings common clusterArgoCD) F
    (fun w => F w
              /\ Forall (fun c => settledClusterRoleBinding common c
                                    (getTargetNamespace clusterArgoCD)
                                    clusterArgoCD w)
                   [ArgoCDServerComponent common;
                    ArgoCDApplicationControllerComponent common]).
Proof.
  intros HT HF. unfold reconcileClusterRoleBindings. apply Settles_log; [done|].
  eapply Settles_orReturn; [|eapply Settles_orReturn; [|apply Settles_ret]].
  - eapply Settles_weaken;
      [| |apply (reconcileClusterRoleBinding_Settles _ _ _ F [])]; cbn.
    + intros w H. split; [exact H|constructor].
    + intros w H. exact H.
    + done.
  - by apply reconcileClusterRoleBinding_Settles.
Qed.

Lemma reconcileServiceAccounts_Settles clusterArgoCD (F : World -> Prop) :
  TraceBlind F ->
  (forall w t S, F w -> F (set_trace t (set_serviceAccounts S w))) ->
  Settles (reconcileServiceAccounts common clusterArgoCD) F
    (fun w => F w
              /\ Forall (fun c => settledServiceAccount common c
                                    (getTargetNamespace clusterArgoCD)
                                    clusterArgoCD w)
                   (serviceAccountComponents common clusterArgoCD)).
Proof.
  intros HT HF. unfold reconcileServiceAccounts, serviceAccountComponents.
  apply Settles_log; [done|].
  eapply (Settles_weaken _
            (fun w => F w
                      /\ Forall (fun c => settledServiceAccount common c
                                            (getTargetNamespace clusterArgoCD)
                                            clusterArgoCD w) []) F);
    [intros w H; split; [exact H|constructor]|intros w H; exact H|].
  destruct (applicationSetEnabled clusterArgoCD),
    (nEnabled (Notifications (Spec clusterArgoCD))); cbn [app];
    repeat (eapply Settles_orReturn;
            [first [by apply reconcileServiceAccount_Settles
                   |apply Settles_ret]|]);
    apply Settles_ret.
Qed.


Lemma Settles_of_ReadOnlyAt m (P : World -> Prop) :
  TraceBlind P -> (forall w, ReadOnlyAt m w) -> Settles m P P.
Proof.
  intros HP Hm w Hq Hw. destruct (Hm w) as (evs & -> & _).
  eexists. split; [done|]. split; [done|]. by apply HP.
Qed.

Lemma reconcileIntegrations_ReadOnlyAt (a b c : bool) w :
  ReadOnlyAt
    (orReturn (if a
               then logInfo "reconciling ApplicationSet controller integration" >>
                    reconcileApplicationSetIntegration
               else ret None)
    (orReturn (if b
               then logInfo "reconciling Notifications controller integration" >>
                    reconcileNotificationsIntegration
               else ret None)
    (orReturn (if c
               then logInfo "reconciling ArgoCD Agent" >>
                    reconcileArgoCDAgent
               else ret None)
    (ret None)))) w.
Proof.
  unfold reconcileApplicationSetIntegration, reconcileNotificationsIntegration,
    reconcileArgoCDAgent.
  readonly.
Qed.

Lemma Settled_TraceBlind clusterArgoCD : TraceBlind (Settled common clusterArgoCD).
Proof. intros w t H. exact H. Qed.

Lemma reconcileResources_settles clusterArgoCD status w :
  quiet (faults w) ->
  exists w',
    reconcileResources common clusterArgoCD status w
    = ((None, setPhase "Available" status), w')
    /\ quiet (faults w')
    /\ Settled common clusterArgoCD w'.
Proof.
  intros Hq. unfold reconcileResources. rewrite bind_run.
  match goal with
  | |- context [bind (logInfo "reconciling ClusterRoles") ?k] =>
      assert (Settles (bind (logInfo "reconciling ClusterRoles") k)
                (fun _ => True) (Settled common clusterArgoCD)) as Hm
  end.
  { apply Settles_log; [done|].
    eapply Settles_orLogReturn; [apply reconcileClusterRoles_Settles|].
    apply Settles_log; [by intros ? ? H|].
    eapply Settles_orLogReturn.
    { apply reconcileClusterRoleBindings_Settles; by intros ? ? H. }
    apply Settles_log; [by intros ? ? H|].
    eapply Settles_orLogReturn.
    { apply reconcileServiceAccounts_Settles; by intros ? ? H. }
    eapply Settles_weaken;
      [| |apply (Settles_log _ _ (Settled common clusterArgoCD)
                   (Settled common clusterArgoCD));
          [apply Settled_TraceBlind|]].
    - intros w0 [[H1 H2] H3]. by repeat split.
    - intros w0 H. exact H.
    - eapply Settles_orLogReturn.
      + apply Settles_of_ReadOnlyAt; [apply Settled_TraceBlind|].
        apply reconcileTargetNamespaceResources_ReadOnlyAt.
      + apply Settles_of_ReadOnlyAt; [apply Settled_TraceBlind|].
        apply reconcileIntegrations_ReadOnlyAt. }
  destruct (Hm w Hq I) as (w' & -> & Hq' & Hs). by exists w'.
Qed.


Lemma reconcileResources_settled clusterArgoCD status w :
  quiet (faults w) ->
  Settled common clusterArgoCD w ->
  exists evs,
    reconcileResources common clusterArgoCD status w
    = ((None, setPhase "Available" status), set_trace (trace w ++ evs) w)
    /\ writesOf evs = [].
Proof.
  intros Hq (Hroles & Hbindings & Haccounts).
  apply Forall_cons in Hroles as [Hr1 Hr2%Forall_cons_1%proj1].
  apply Forall_cons in Hbindings as [Hb1 Hb2%Forall_cons_1%proj1].
  unfold reconcileResources. rewrite bind_run.
  match goal with
  | |- context [bind (logInfo "reconciling ClusterRoles") ?k] =>
      assert (ReadOnlyAt (bind (logInfo "reconciling ClusterRoles") k) w) as Hm
  end.
  { apply ReadOnlyAt_log. apply ReadOnlyAt_orLogReturn.
    { unfold reconcileClusterRoles. readonly;
        by apply reconcileClusterRole_ReadOnlyAt. }
    intros t1. apply ReadOnlyAt_log. apply ReadOnlyAt_orLogReturn.
    { unfold reconcileClusterRoleBindings. readonly;
        by apply reconcileClusterRoleBinding_ReadOnlyAt. }
    intros t2. apply ReadOnlyAt_log. apply ReadOnlyAt_orLogReturn.
    { unfold reconcileServiceAccounts, serviceAccountComponents in *.
      destruct (applicationSetEnabled clusterArgoCD),
        (nEnabled (Notifications (Spec clusterArgoCD))); cbn [app] in Haccounts;
        repeat match goal with
               | H : Forall _ (_ :: _) |- _ => apply Forall_cons in H as [? H]
               end;
        apply ReadOnlyAt_log;
        repeat (apply ReadOnlyAt_orReturn;
                [first [by apply reconcileServiceAccount_ReadOnlyAt
                       |apply ReadOnlyAt_ret]|intros ?]);
        apply ReadOnlyAt_ret. }
    intros t3. apply ReadOnlyAt_log. apply ReadOnlyAt_orLogReturn.
    { apply reconcileTargetNamespaceResources_ReadOnlyAt. }
    intros t4. apply reconcileIntegrations_ReadOnlyAt. }
  destruct Hm as (evs & -> & Hevs). by exists evs.
Qed.

(** X16. After a pass of [reconcileResources] in which no call fails, a
    second pass over the same instance makes no write: it returns no
    error and leaves the world as the first pass left it, but for the
    trace. *)
Theorem reconcileResources_twice clusterArgoCD status status' w :
  quiet (faults w) ->
  exists evs,
    reconcileResources common clusterArgoCD status'
      (reconcileResources common clusterArgoCD status w).2
    = ((None, setPhase "Available" status'),
       set_trace
         (trace (reconcileResources common clusterArgoCD status w).2 ++ evs)
         (reconcileResources common clusterArgoCD status w).2)
    /\ writesOf evs = [].
Proof.
  intros Hq.
  destruct (reconcileResources_settles clusterArgoCD status w Hq)
    as (w' & -> & Hq' & Hs).
  by apply reconcileResources_settled.
Qed.


(** *** What the update tests see *)

Lemma someValueDiffers_false existing desired :
  someValueDiffers existing desired = false
  <-> forall k v, desired !! k = Some v -> Go.index existing k = v.
Proof.
  unfold someValueDiffers. split.
  - intros H k v Hk. apply not_true_iff_false in H.
    destruct (String.eqb_spec (Go.index existing k) v) as [|Hne]; [done|].
    exfalso. apply H, existsb_exists. exists (k, v). split.
    + by apply list_elem_of_In, elem_of_map_to_list.
    + cbn. apply negb_true_iff. by apply String.eqb_neq.
  - intros H. apply not_true_is_false. intros Hex.
    apply existsb_exists in Hex as ([k v] & Hin & Hne).
    apply list_elem_of_In, elem_of_map_to_list in Hin.
    cbn in Hne. rewrite (H k v Hin), String.eqb_refl in Hne. done.
Qed.

Lemma same_size_same_values (existing desired : gmap string string) :
  (forall k v, desired !! k = Some v -> v <> "") ->
  size existing = size desired ->
  someValueDiffers existing desired = false ->
  existing = desired.
Proof.
  intros Hne Hsize Hvals. symmetry. apply map_subseteq_size_eq; [|lia].
  apply map_subseteq_spec. intros k v Hk.
  pose proof (proj1 (someValueDiffers_false _ _) Hvals k v Hk) as Hi.
  unfold Go.index in Hi. destruct (existing !! k) as [x|]; cbn in Hi.
  - by subst.
  - subst v. by destruct (Hne k "" Hk).
Qed.

(** X17. When no desired label or annotation has the empty string as
    its value, [serviceAccountNeedsUpdate] answers false exactly when
    the labels and the annotations of the stored ServiceAccount are the
    desired ones. *)
Theorem serviceAccountNeedsUpdate_false existing desired :
  (forall k v, saLabels desired !! k = Some v -> v <> "") ->
  (forall k v, saAnnotations desired !! k = Some v -> v <> "") ->
  serviceAccountNeedsUpdate existing desired = false
  <-> saLabels existing = saLabels desired
      /\ saAnnotations existing = saAnnotations desired.
Proof.
  intros Hl Ha. unfold serviceAccountNeedsUpdate. split.
  - destruct (size (saLabels existing) =? size (saLabels desired))%nat eqn:E1;
      [|done]. cbn [negb].
    destruct (someValueDiffers (saLabels existing) (saLabels desired)) eqn:E2;
      [done|].
    destruct (size (saAnnotations existing) =? size (saAnnotations desired))%nat
      eqn:E3; [|done]. cbn [negb].
    destruct (someValueDiffers (saAnnotations existing) (saAnnotations desired))
      eqn:E4; [done|]. intros _.
    apply Nat.eqb_eq in E1, E3. split; by apply same_size_same_values.
  - intros [-> ->]. by rewrite !Nat.eqb_refl, !someValueDiffers_same.
Qed.

(** X18. [clusterRoleNeedsUpdate] compares the number of rules only: a
    stored ClusterRole with as many rules as the desired one is left
    alone whatever its rules, labels and annotations are, and the
    reconciler makes the one read and no write. *)
Theorem reconcileClusterRole_same_count componentName policyRules clusterArgoCD
    existing w :
  quiet (faults w) ->
  clusterRoles w !! generateClusterRoleName componentName clusterArgoCD
    = Some existing ->
  length (crRules existing) = length policyRules ->
  reconcileClusterRole common componentName policyRules clusterArgoCD w
  = (None,
     set_trace
       (trace w ++ [ECall (mkCall Get KClusterRole ""
                             (generateClusterRoleName componentName
                                clusterArgoCD)) Ok])
       w).
Proof.
  intros Hq Hname Hlen. unfold reconcileClusterRole. cbn [newClusterRole fst snd].
  rewrite bind_run. unfold getClusterRole, clientGet. rewrite Hq, Hname.
  cbn [fst snd]. unfold clusterRoleNeedsUpdate. cbn [crRules].
  by rewrite Hlen, Nat.eqb_refl.
Qed.

Lemma createRoleInSourceNamespace_effect namespace clusterArgoCD w :
  quiet (faults w) ->
  exists evs,
    createRoleInSourceNamespace common namespace clusterArgoCD w
    = (None,
       set_trace (trace w ++ evs)
         (set_roles
            (<[(namespace,
                generateResourceName (ArgoCDServerComponent common)
                  clusterArgoCD namespace) :=
                 mkRole
                   (match roles w
                            !! (namespace,
                                generateResourceName
                                  (ArgoCDServerComponent common)
                                  clusterArgoCD namespace) with
                    | Some existingRole => roleLabels existingRole
                    | None => getLabelsForClusterArgoCD common clusterArgoCD
                    end)
                   getServerSourceNamespacePolicyRules]> (roles w))
            w))
    /\ writesOf evs
       = [(mkCall (match roles w
                           !! (namespace,
                               generateResourceName
                                 (ArgoCDServerComponent common)
                                 clusterArgoCD namespace) with
                   | Some _ => Update
                   | None => Create
                   end) KRole namespace
             (generateResourceName (ArgoCDServerComponent common)
                clusterArgoCD namespace), Ok)].
Proof.
  intros Hq. unfold createRoleInSourceNamespace. rewrite bind_run.
  unfold getRole, clientGet. rewrite Hq.
  set (key := (namespace, generateResourceName _ clusterArgoCD namespace)).
  destruct (roles w !! key) as [existingRole|] eqn:Hkey;
    cbn [fst snd IsNotFound negb].
  - set (w1 := (emit _ w).2). unfold updateRole, clientWrite.
    change (faults w1) with (faults w). rewrite Hq. unfold onPresent.
    change (roles w1) with (roles w). fold key. rewrite Hkey. cbn [errorOf].
    eexists [_; _].
    split; [f_equal; subst w1; cbn; by rewrite <- !app_assoc|done].
  - rewrite bind_run. set (w1 := (logInfo _ _).2).
    unfold createRole, clientWrite.
    change (faults w1) with (faults w). rewrite Hq. unfold onAbsent.
    change (roles w1) with (roles w). fold key. rewrite Hkey. cbn [errorOf].
    eexists [_; _; _].
    split; [f_equal; subst w1; cbn; by rewrite <- !app_assoc|done].
Qed.


(** *** Claims on the application source namespaces *)





(** X20. [createRoleInSourceNamespace] writes on every call in which no
    call fails: it creates the Role when there is none, and otherwise
    updates it without comparing, with the server rules and the labels
    the stored Role had. *)
Theorem createRoleInSourceNamespace_always_writes namespace clusterArgoCD w :
  quiet (faults w) ->
  (createRoleInSourceNamespace common namespace clusterArgoCD w).1 = None
  /\ exists evs,
       trace (createRoleInSourceNamespace common namespace clusterArgoCD w).2
       = trace w ++ evs
       /\ writesOf evs
          = [(mkCall (match roles w
                              !! (namespace,
                                  generateResourceName
                                    (ArgoCDServerComponent common)
                                    clusterArgoCD namespace) with
                      | Some _ => Update
                      | None => Create
                      end) KRole namespace
                (generateResourceName (ArgoCDServerComponent common)
                   clusterArgoCD namespace), Ok)]
       /\ roles (createRoleInSourceNamespace common namespace clusterArgoCD w).2
          = <[(namespace,
               generateResourceName (ArgoCDServerComponent common)
                 clusterArgoCD namespace) :=
                mkRole
                  (match roles w
                           !! (namespace,
                               generateResourceName
                                 (ArgoCDServerComponent common)
                                 clusterArgoCD namespace) with
                   | Some existingRole => roleLabels existingRole
                   | None => getLabelsForClusterArgoCD common clusterArgoCD
                   end)
                  getServerSourceNamespacePolicyRules]> (roles w).
Proof.
  intros Hq.
  destruct (createRoleInSourceNamespace_effect namespace clusterArgoCD w Hq)
    as (evs & -> & Hevs).
  split; [done|]. by exists evs.
Qed.

(** X21. [cleanupUnmanagedSourceNamespaces], when no call fails, returns
    no error and takes the managed-by label from exactly the namespaces
    that carry it with the name of the instance and are not among its
    current source namespaces; it removes no other label and touches no
    Role. *)
Theorem cleanupUnmanagedSourceNamespaces_releases clusterArgoCD w :
  quiet (faults w) ->
  (cleanupUnmanagedSourceNamespaces common clusterArgoCD w).1 = None
  /\ (forall k,
        namespaces (cleanupUnmanagedSourceNamespaces common clusterArgoCD w).2
          !! k
        = (fun nsLabels =>
             if decide (nsLabels !! ArgoCDManagedByClusterArgoCDLabel common
                          = Some (Name clusterArgoCD)
                        /\ k ∉ currentSourceNamespaces clusterArgoCD)
             then delete (ArgoCDManagedByClusterArgoCDLabel common) nsLabels
             else nsLabels) <$> namespaces w !! k)
  /\ roles (cleanupUnmanagedSourceNamespaces common clusterArgoCD w).2
     = roles w.
Proof.
  intros Hq.
  destruct (cleanupUnmanagedSourceNamespaces_effect clusterArgoCD w Hq)
    as (evs & N & -> & HN).
  by split_and!.
Qed.

End ClusterStoreEffects.

(** ** The properties above on the example cluster *)

Section ClusterStoreScenarios.
Import Cluster ClusterStore.

Lemma internalReconcile_not_found_witness :
  internalReconcile exampleCommon exampleParse "c" appSetOnly
  = ((None, emptyClusterArgoCD "", mkStatus "" "" ""),
     set_trace
       (trace appSetOnly
        ++ [ELog "Reconciling ClusterArgoCD";
            ECall (mkCall Get KClusterArgoCD "" "c") NotFoundResult])
       appSetOnly).
Proof.
  apply (internalReconcile_not_found exampleCommon exampleParse "c" appSetOnly).
  - intros n c. reflexivity.
  - vm_compute. reflexivity.
Defined.

Lemma internalReconcile_not_selected_witness :
  exists evs,
    is_Some (internalReconcile exampleCommon (fun _ => Some (fun _ => false))
               "b" threeNamespacesDeleting).1.1.1
    /\ (internalReconcile exampleCommon (fun _ => Some (fun _ => false))
          "b" threeNamespacesDeleting).2
       = set_trace (trace threeNamespacesDeleting ++ evs)
           threeNamespacesDeleting
    /\ writesOf evs = [].
Proof.
  apply (internalReconcile_not_selected exampleCommon
           (fun _ => Some (fun _ => false)) "b"
           (exampleInstance "b" [ArgoCDDeletionFinalizer] (Some "now")
              (exampleSpec ["ns1"; "ns2"; "ns3"] ["ns1"]))
           threeNamespacesDeleting).
  - intros n c. reflexivity.
  - vm_compute. reflexivity.
  - reflexivity.
Defined.

Lemma timers_of_longer_name_cancelled_witness :
  exists timers',
    TokenRenewalTimers
      (cleanupClusterInstanceTokenTimers "b"
         (threeNamespaces
            (Some {[ "b/alice" := (); "bb/bob" := (); "c/carol" := () ]})
            noFaults)).2 = Some timers'
    /\ timers' !! "bb/bob" = None
    /\ (forall key',
          timerKeyOf "b" key' = false ->
          timers' !! key'
          = ({[ "b/alice" := (); "bb/bob" := (); "c/carol" := () ]}
               : gmap string unit) !! key').
Proof.
  apply (timers_of_longer_name_cancelled "b" "bb" "bb/bob"
           {[ "b/alice" := (); "bb/bob" := (); "c/carol" := () ]}
           (threeNamespaces
              (Some {[ "b/alice" := (); "bb/bob" := (); "c/carol" := () ]})
              noFaults)).
  - reflexivity.
  - reflexivity.
  - reflexivity.
Defined.

Lemma internalReconcile_deletion_effect_witness :
  (internalReconcile exampleCommon exampleParse "b"
     threeNamespacesDeleting).1.1.1 = None
  /\ clusterRoles (internalReconcile exampleCommon exampleParse "b"
                     threeNamespacesDeleting).2
     = filter (fun kv => crLabels kv.2 !! ArgoCDKeyName exampleCommon
                         <> Some "b")
         (clusterRoles threeNamespacesDeleting)
  /\ roles (internalReconcile exampleCommon exampleParse "b"
              threeNamespacesDeleting).2
     = roles threeNamespacesDeleting.
Proof.
  destruct (internalReconcile_deletion_effect exampleCommon exampleParse "b"
              (exampleInstance "b" [ArgoCDDeletionFinalizer] (Some "now")
                 (exampleSpec ["ns1"; "ns2"; "ns3"] ["ns1"]))
              "now" (fun _ => true) threeNamespacesDeleting)
    as (Herr & _ & Hcr & _ & _ & _ & Hroles & _).
  - intros n c. reflexivity.
  - vm_compute. reflexivity.
  - reflexivity.
  - reflexivity.
  - reflexivity.
  - reflexivity.
  - reflexivity.
  - by split_and!.
Defined.

Lemma reconcileResources_twice_witness :
  exists evs,
    reconcileResources exampleCommon
      (exampleInstance "b" [] None (exampleSpec [] [])) (mkStatus "" "" "")
      (reconcileResources exampleCommon
         (exampleInstance "b" [] None (exampleSpec [] [])) (mkStatus "" "" "")
         (startWorld ∅ ∅ None noFaults)).2
    = ((None, setPhase "Available" (mkStatus "" "" "")),
       set_trace
         (trace (reconcileResources exampleCommon
                   (exampleInstance "b" [] None (exampleSpec [] []))
                   (mkStatus "" "" "")
                   (startWorld ∅ ∅ None noFaults)).2 ++ evs)
         (reconcileResources exampleCommon
            (exampleInstance "b" [] None (exampleSpec [] []))
            (mkStatus "" "" "")
            (startWorld ∅ ∅ None noFaults)).2)
    /\ writesOf evs = [].
Proof.
  apply (reconcileResources_twice exampleCommon
           (exampleInstance "b" [] None (exampleSpec [] []))
           (mkStatus "" "" "") (mkStatus "" "" "")
           (startWorld ∅ ∅ None noFaults)).
  intros n c. reflexivity.
Defined.

Lemma serviceAccountNeedsUpdate_false_witness :
  serviceAccountNeedsUpdate
    (mkServiceAccount {[ "app.kubernetes.io/name" := "b" ]} ∅)
    (desiredServiceAccount exampleCommon
       (exampleInstance "b" [] None (exampleSpec [] []))) = false
  <-> saLabels (mkServiceAccount {[ "app.kubernetes.io/name" := "b" ]} ∅)
      = saLabels (desiredServiceAccount exampleCommon
                    (exampleInstance "b" [] None (exampleSpec [] [])))
      /\ saAnnotations (mkServiceAccount {[ "app.kubernetes.io/name" := "b" ]} ∅)
         = saAnnotations (desiredServiceAccount exampleCommon
                            (exampleInstance "b" [] None (exampleSpec [] []))).
Proof.
  apply (serviceAccountNeedsUpdate_false
           (mkServiceAccount {[ "app.kubernetes.io/name" := "b" ]} ∅)
           (desiredServiceAccount exampleCommon
              (exampleInstance "b" [] None (exampleSpec [] [])))).
  - intros k v Hk. apply elem_of_map_to_list in Hk. vm_compute in Hk.
    repeat (apply elem_of_cons in Hk as [[= -> ->]|Hk]); try discriminate.
    by apply elem_of_nil in Hk.
  - intros k v Hk. apply elem_of_map_to_list in Hk. vm_compute in Hk.
    repeat (apply elem_of_cons in Hk as [[= -> ->]|Hk]); try discriminate.
    by apply elem_of_nil in Hk.
Defined.

Lemma reconcileClusterRole_same_count_witness :
  reconcileClusterRole exampleCommon (ArgoCDServerComponent exampleCommon)
    getApplicationControllerPolicyRules
    (exampleInstance "b" [] None (exampleSpec [] []))
    (reconcileResources exampleCommon
       (exampleInstance "b" [] None (exampleSpec [] [])) (mkStatus "" "" "")
       (startWorld ∅ ∅ None noFaults)).2
  = (None,
     set_trace
       (trace (reconcileResources exampleCommon
                 (exampleInstance "b" [] None (exampleSpec [] []))
                 (mkStatus "" "" "")
                 (startWorld ∅ ∅ None noFaults)).2
        ++ [ECall (mkCall Get KClusterRole ""
                     (generateClusterRoleName
                        (ArgoCDServerComponent exampleCommon)
                        (exampleInstance "b" [] None (exampleSpec [] []))))
              Ok])
       (reconcileResources exampleCommon
          (exampleInstance "b" [] None (exampleSpec [] [])) (mkStatus "" "" "")
          (startWorld ∅ ∅ None noFaults)).2).
Proof.
  apply (reconcileClusterRole_same_count exampleCommon
           (ArgoCDServerComponent exampleCommon)
           getApplicationControllerPolicyRules
           (exampleInstance "b" [] None (exampleSpec [] []))
           (newClusterRole exampleCommon (ArgoCDServerComponent exampleCommon)
              getServerPolicyRules
              (exampleInstance "b" [] None (exampleSpec [] []))).2).
  - intros n c. reflexivity.
  - vm_compute. reflexivity.
  - reflexivity.
Defined.


Lemma createRoleInSourceNamespace_always_writes_witness :
  (createRoleInSourceNamespace exampleCommon "ns1"
     (exampleInstance "b" [ArgoCDDeletionFinalizer] None
        (exampleSpec ["ns1"; "ns2"; "ns3"] ["ns1"]))
     (afterPass "b" (threeNamespaces None noFaults))).1 = None.
Proof.
  apply (createRoleInSourceNamespace_always_writes exampleCommon "ns1"
           (exampleInstance "b" [ArgoCDDeletionFinalizer] None
              (exampleSpec ["ns1"; "ns2"; "ns3"] ["ns1"]))
           (afterPass "b" (threeNamespaces None noFaults))).
  intros n c. reflexivity.
Defined.

Lemma cleanupUnmanagedSourceNamespaces_releases_witness :
  (cleanupUnmanagedSourceNamespaces exampleCommon
     (exampleInstance "b" [ArgoCDDeletionFinalizer] None
        (exampleSpec ["ns1"] []))
     (afterPass "b" (threeNamespaces None noFaults))).1 = None.
Proof.
  apply (cleanupUnmanagedSourceNamespaces_releases exampleCommon
           (exampleInstance "b" [ArgoCDDeletionFinalizer] None
              (exampleSpec ["ns1"] []))
           (afterPass "b" (threeNamespaces None noFaults))).
  intros n c. reflexivity.
Defined.

End ClusterStoreScenarios.
